(** * RTA Analysis Toolkit: the numerical analysis engine

    A shallow embedding of the three calculation units of the toolkit,

    - [src/app/utils/numerical.utils.ts],
    - [src/app/services/blasingame-calculation.service.ts],
    - [src/app/services/type-curve-matching.service.ts],

    and the properties of them that the specification states.

    A TypeScript [number] is an IEEE 754 binary64 value, so it is embedded as
    Rocq's primitive [float], whose operations are exactly the binary64 ones
    (NaN, signed zeros, infinities and rounding included).  The three
    transcendental functions the code calls ([Math.log], [Math.log10],
    [Math.exp]) have no primitive counterpart and are taken as parameters. *)

From Stdlib Require Import ZArith List Bool Lia.
From Stdlib Require Import Floats.
From Stdlib Require String.
Import ListNotations.

Set Warnings "-inexact-float".

(* ================================================================== *)
(** * JavaScript numbers and arrays *)
(* ================================================================== *)

Module JS.

Local Open Scope float_scope.

Definition number := float.
Bind Scope float_scope with number.

(** [a > b] and [a >= b] on numbers: false whenever an operand is NaN. *)
Definition gt (a b : number) : bool := b <? a.
Definition ge (a b : number) : bool := b <=? a.

(** The global [isFinite], on a value that is already a number. *)
Definition isFinite (x : number) : bool := is_finite x.

(** [Math.max] and [Math.min] of two numbers: NaN if an operand is NaN, and
    [+0] is larger than [-0]. *)
Definition Math_max (a b : number) : number :=
  if is_nan a || is_nan b then nan
  else if a <? b then b
  else if b <? a then a
  else if is_zero a && get_sign a then b else a.

Definition Math_min (a b : number) : number :=
  if is_nan a || is_nan b then nan
  else if a <? b then a
  else if b <? a then b
  else if is_zero a && get_sign a then a else b.

Definition Math_abs (x : number) : number := abs x.
Definition Math_sqrt (x : number) : number := sqrt x.

(** The number a non-negative integer (an array length) denotes. *)
Definition of_nat (n : nat) : number :=
  of_uint63 (Uint63.of_Z (Z.of_nat n)).

(** An array of numbers.  Indices are integers, as the code computes them
    ([n - 1], [i - 1], ...). *)
Definition array := list number.

Definition len (a : array) : Z := Z.of_nat (length a).

(** Reading [a[i]].  Outside [0 .. length-1] (and at a hole left by
    [new Array(n)]) JavaScript yields [undefined]; every read in the embedded
    code feeds arithmetic, a comparison or [isFinite], where [undefined]
    converts to NaN, so such a read is NaN here. *)
Definition aget (a : array) (i : Z) : number :=
  if (i <? 0)%Z then nan else nth (Z.to_nat i) a nan.

(** [new Array(n)]: n holes; [new Array(n).fill(v)]. *)
Definition new_Array (n : Z) : array := repeat nan (Z.to_nat n).
Definition new_Array_fill (n : Z) (v : number) : array := repeat v (Z.to_nat n).

(** Writing [a[i] = v].  An index at or beyond the length extends the array
    (the gap is holes); a negative index is not an array index: the write
    creates an ordinary property, the elements and the length are unchanged,
    and the embedded code never reads such a property back. *)
Fixpoint set_at (n : nat) (v : number) (a : array) : array :=
  match n, a with
  | O, [] => [v]
  | O, _ :: t => v :: t
  | S k, [] => nan :: set_at k v []
  | S k, h :: t => h :: set_at k v t
  end.

Definition aset (a : array) (i : Z) (v : number) : array :=
  if (i <? 0)%Z then a else set_at (Z.to_nat i) v a.

(** [for (let i = lo; i < hi; i++) body], threading the loop's state. *)
Fixpoint for_steps {St : Type} (k : nat) (i : Z) (body : Z -> St -> St) (s : St) : St :=
  match k with
  | O => s
  | S k' => for_steps k' (i + 1)%Z body (body i s)
  end.

Definition for_range {St : Type} (lo hi : Z) (body : Z -> St -> St) (s : St) : St :=
  for_steps (Z.to_nat (hi - lo)) lo body s.

(** [a.map((v, i) => f(v, i))]. *)
Fixpoint mapi_from {A B : Type} (i : Z) (f : A -> Z -> B) (l : list A) : list B :=
  match l with
  | [] => []
  | v :: t => f v i :: mapi_from (i + 1)%Z f t
  end.

Definition mapi {A B : Type} (f : A -> Z -> B) (l : list A) : list B :=
  mapi_from 0%Z f l.

(** A call either returns a value or throws. *)
Inductive completion (A : Type) : Type :=
| Return (a : A)
| Throw.
Arguments Return {A} a.
Arguments Throw {A}.

End JS.

(* ================================================================== *)
(** * numerical.utils.ts *)
(* ================================================================== *)

Module NumericalUtils.
Import JS.
Local Open Scope float_scope.

(** A [Date], seen through [getTime()] (milliseconds since the epoch). *)
Record Date := { getTime : number }.

Section WithLog.

Variable Math_log : number -> number.

Definition trapezoidalIntegrate (x y : array) : array :=
  let n := len x in
  let integral := aset [] 0 0 in
  for_range 1 n
    (fun i integral =>
       let dx := aget x i - aget x (i - 1) in
       let avgY := (aget y i + aget y (i - 1)) / 2 in
       aset integral i (aget integral (i - 1) + avgY * dx))
    integral.

Definition logarithmicDerivative (x y : array) : array :=
  let n := len x in
  let derivative := new_Array n in
  let derivative :=
    aset derivative 0 ((aget y 1 - aget y 0) / Math_log (aget x 1 / aget x 0)) in
  let derivative :=
    for_range 1 (n - 1)
      (fun i derivative =>
         let dLogX := Math_log (aget x (i + 1) / aget x (i - 1)) in
         let dY := aget y (i + 1) - aget y (i - 1) in
         aset derivative i (dY / dLogX))
      derivative in
  aset derivative (n - 1)
    ((aget y (n - 1) - aget y (n - 2)) / Math_log (aget x (n - 1) / aget x (n - 2))).

End WithLog.

(** [windowSize] is an integer at the only call site, so
    [Math.floor(windowSize / 2)] is integer division. *)
Definition movingAverage (data : array) (windowSize : Z) : array :=
  let n := len data in
  let halfWindow := (windowSize / 2)%Z in
  for_range 0 n
    (fun i smoothed =>
       let start := Z.max 0 (i - halfWindow) in
       let end_ := Z.min (n - 1) (i + halfWindow) in
       let '(sum, count) :=
         for_range start (end_ + 1)
           (fun j '(sum, count) => (sum + aget data j, count + 1))
           (0, 0) in
       aset smoothed i (sum / count))
    (new_Array n).

Definition removeInvalidPoints (x y : array) : array * array :=
  for_range 0 (len x)
    (fun i '(validX, validY) =>
       if isFinite (aget x i) && isFinite (aget y i) &&
          gt (aget x i) 0 && gt (aget y i) 0
       then (validX ++ [aget x i], validY ++ [aget y i])
       else (validX, validY))
    ([], []).

Definition datesToDays (dates : list Date) : array :=
  match dates with
  | [] => []
  | d0 :: _ =>
      let startTime := getTime d0 in
      map (fun date => (getTime date - startTime) / (1000 * 60 * 60 * 24)) dates
  end.

End NumericalUtils.

(* ================================================================== *)
(** * blasingame.model.ts and blasingame-calculation.service.ts *)
(* ================================================================== *)

Module Blasingame.
Import JS NumericalUtils.
Local Open Scope float_scope.

Record BlasingameInput := {
  dates : list Date;
  rates : array;
  cumulativeProduction : array;
  pressures : option array;
  initialPressure : number;
  wellboreRadius : number;
  netPayThickness : number;
  porosity : number;
  totalCompressibility : number;
  viscosity : number;
  formationVolumeFactor : number
}.

(** The [rates] field of the output is [out_rates] here: a field name is
    global to its module. *)
Record BlasingameOutput := {
  teDimensionless : array;
  materialBalanceTime : array;
  qDd : array;
  qDdi : array;
  qDdid : array;
  pressureDrops : array;
  times : array;
  out_rates : array
}.

Inductive Regime := infinite_acting | transition | boundary_dominated | depletion.

Inductive Confidence := low | medium | high.

Record FlowRegimeSegment := {
  regime : Regime;
  startIndex : Z;
  endIndex : Z;
  diagnosticSlope : option number;
  confidence : Confidence
}.

Definition Regime_eqb (a b : Regime) : bool :=
  match a, b with
  | infinite_acting, infinite_acting
  | transition, transition
  | boundary_dominated, boundary_dominated
  | depletion, depletion => true
  | _, _ => false
  end.

Definition calculateMaterialBalanceTime (rates cumulative : array) : array :=
  for_range 0 (len rates)
    (fun i te =>
       if gt (aget rates i) 0
       then aset te i (aget cumulative i / aget rates i)
       else aset te i (if (i >? 0)%Z then aget te (i - 1) else 0.001))
    (new_Array (len rates)).

Definition calculatePressureDrops
    (pressures : option array) (initialPressure : number) (dataLength : Z) : array :=
  match pressures with
  | Some pressures =>
      if (len pressures =? dataLength)%Z
      then map (fun p => let dp := initialPressure - p in
                         if gt dp 0 then dp else 100) pressures
      else new_Array_fill dataLength (initialPressure * 0.35)
  | None => new_Array_fill dataLength (initialPressure * 0.35)
  end.

Definition calculateNormalizedRate (rates pressureDrops : array) : array :=
  mapi (fun q i => q / aget pressureDrops i) rates.

Definition calculateRateIntegral (materialBalanceTime qDd : array) : array :=
  let integral := trapezoidalIntegrate materialBalanceTime qDd in
  mapi (fun intVal i =>
          let te := aget materialBalanceTime i in
          if gt te 0 then intVal / te else 0) integral.

(** The record [cleanData] takes and returns. *)
Record Curves := {
  c_materialBalanceTime : array;
  c_qDd : array;
  c_qDdi : array;
  c_qDdid : array
}.

(** The condition of the [if] in [cleanData], and the array [valid] its loop
    builds. *)
Definition valid_at (data : Curves) (i : Z) : bool :=
  isFinite (aget (c_materialBalanceTime data) i) &&
  isFinite (aget (c_qDd data) i) &&
  isFinite (aget (c_qDdi data) i) &&
  isFinite (aget (c_qDdid data) i) &&
  gt (aget (c_materialBalanceTime data) i) 0 &&
  gt (aget (c_qDd data) i) 0 &&
  gt (aget (c_qDdi data) i) 0 &&
  gt (aget (c_qDdid data) i) 0.

Definition valid_indices (data : Curves) : list Z :=
  for_range 0 (len (c_materialBalanceTime data))
    (fun i valid => if valid_at data i then valid ++ [i] else valid)
    [].

Definition cleanData (data : Curves) : Curves :=
  let valid := valid_indices data in
  {| c_materialBalanceTime := map (fun i => aget (c_materialBalanceTime data) i) valid;
     c_qDd := map (fun i => aget (c_qDd data) i) valid;
     c_qDdi := map (fun i => aget (c_qDdi data) i) valid;
     c_qDdid := map (fun i => aget (c_qDdid data) i) valid |}.

Definition averageSlope (slopes : array) (start end_ : Z) : number :=
  let '(sum, count) :=
    for_range start (end_ + 1)
      (fun i '(sum, count) =>
         if isFinite (aget slopes i) then (sum + aget slopes i, count + 1)
         else (sum, count))
      (0, 0) in
  if gt count 0 then sum / count else 0.

(** The threshold chain of [identifyFlowRegimes]. *)
Definition classify (slope : number) : Regime :=
  if gt slope (-0.3) then infinite_acting
  else if ge slope (-0.7) then transition
  else if ge slope (-1.3) then boundary_dominated
  else depletion.

(** The variables the loop of [identifyFlowRegimes] updates, and one
    iteration of it. *)
Record walk := {
  regimes : list FlowRegimeSegment;
  currentRegime : Regime;
  w_startIndex : Z
}.

Definition walk_step (slopes : array) (i : Z) (w : walk) : walk :=
  let slope := aget slopes i in
  let newRegime := classify slope in
  if negb (Regime_eqb newRegime (currentRegime w))
  then {| regimes := regimes w ++
            [ {| regime := currentRegime w;
                 startIndex := w_startIndex w;
                 endIndex := i - 1;
                 diagnosticSlope := Some (averageSlope slopes (w_startIndex w) (i - 1));
                 confidence := medium |} ];
          currentRegime := newRegime;
          w_startIndex := i |}
  else w.

(** Lines 232-272 of [identifyFlowRegimes]: the walk over the slopes and the
    final segment. *)
Definition segmentSlopes (slopes : array) : list FlowRegimeSegment :=
  let w :=
    for_range 1 (len slopes) (walk_step slopes)
      {| regimes := []; currentRegime := infinite_acting; w_startIndex := 0 |} in
  regimes w ++
    [ {| regime := currentRegime w;
         startIndex := w_startIndex w;
         endIndex := len slopes - 1;
         diagnosticSlope :=
           Some (averageSlope slopes (w_startIndex w) (len slopes - 1));
         confidence := medium |} ].

Section WithMath.

Variable Math_log : number -> number.
Variable Math_log10 : number -> number.

Definition calculateRateIntegralDerivative (materialBalanceTime qDdi : array) : array :=
  let smoothedQDdi := movingAverage qDdi 5 in
  logarithmicDerivative Math_log materialBalanceTime smoothedQDdi.

(** The four curves of [calculate] as they are handed to [cleanData]. *)
Definition rawCurves (input : BlasingameInput) : Curves :=
  let days := datesToDays (dates input) in
  let materialBalanceTime :=
    calculateMaterialBalanceTime (rates input) (cumulativeProduction input) in
  let pressureDrops :=
    calculatePressureDrops (pressures input) (initialPressure input) (len days) in
  let qDd := calculateNormalizedRate (rates input) pressureDrops in
  let qDdi := calculateRateIntegral materialBalanceTime qDd in
  let qDdid := calculateRateIntegralDerivative materialBalanceTime qDdi in
  {| c_materialBalanceTime := materialBalanceTime;
     c_qDd := qDd; c_qDdi := qDdi; c_qDdid := qDdid |}.

(** [calculate] has no [throw] and calls nothing that throws on a typed
    input, so it always completes with [Return]. *)
Definition calculate (input : BlasingameInput) : completion BlasingameOutput :=
  let days := datesToDays (dates input) in
  let pressureDrops :=
    calculatePressureDrops (pressures input) (initialPressure input) (len days) in
  let cleaned := cleanData (rawCurves input) in
  Return
    {| teDimensionless := [];
       materialBalanceTime := c_materialBalanceTime cleaned;
       qDd := c_qDd cleaned;
       qDdi := c_qDdi cleaned;
       qDdid := c_qDdid cleaned;
       pressureDrops := pressureDrops;
       times := days;
       out_rates := rates input |}.

Definition calculateLogLogSlope (x y : array) : array :=
  let logX := map Math_log10 x in
  let logY := map Math_log10 y in
  let n := len logX in
  let slopes := new_Array n in
  let slopes :=
    aset slopes 0 ((aget logY 1 - aget logY 0) / (aget logX 1 - aget logX 0)) in
  let slopes :=
    for_range 1 (n - 1)
      (fun i slopes =>
         aset slopes i
           ((aget logY (i + 1) - aget logY (i - 1)) /
            (aget logX (i + 1) - aget logX (i - 1))))
      slopes in
  aset slopes (n - 1)
    ((aget logY (n - 1) - aget logY (n - 2)) /
     (aget logX (n - 1) - aget logX (n - 2))).

Definition identifyFlowRegimes (materialBalanceTime qDdid : array)
  : list FlowRegimeSegment :=
  segmentSlopes (calculateLogLogSlope materialBalanceTime qDdid).

End WithMath.

End Blasingame.

(* ================================================================== *)
(** * type-curve-matching.service.ts *)
(* ================================================================== *)

Module TypeCurve.
Import JS.
Local Open Scope float_scope.

Record MatchParams := {
  kh : number;
  skinFactor : number;
  drainageArea : number
}.

Record TheoreticalCurves := {
  t_teDimensionless : array;
  t_qDd : array;
  t_qDdi : array;
  t_qDdid : array
}.

Record MatchQuality := {
  rSquared : number;
  rmse : number;
  mae : number
}.

(** [k = kh / 50] is computed by the source and never used. *)
Definition calculateDimensionalTime
    (materalBalanceTime : array) (kh drainageArea : number) : array :=
  let conversionFactor := 0.0002637 in
  map (fun t => conversionFactor * kh * t / drainageArea) materalBalanceTime.

Definition calculateTheoreticalIntegral (tD qDd : array) : array :=
  for_range 1 (len qDd)
    (fun i integral =>
       let dt := aget tD i - aget tD (i - 1) in
       let avgRate := (aget qDd i + aget qDd (i - 1)) / 2 in
       aset integral i (aget integral (i - 1) + avgRate * dt))
    (new_Array_fill (len qDd) 0).

Definition calculateTheoreticalDerivative (tD qIntegral : array) : array :=
  let derivative :=
    for_range 1 (len qIntegral - 1)
      (fun i derivative =>
         let dt := aget tD (i + 1) - aget tD (i - 1) in
         if gt dt 0
         then aset derivative i ((aget qIntegral (i + 1) - aget qIntegral (i - 1)) / dt)
         else derivative)
      (new_Array_fill (len qIntegral) 0) in
  if (len qIntegral >? 1)%Z
  then
    let derivative := aset derivative 0 (aget derivative 1) in
    aset derivative (len qIntegral - 1) (aget derivative (len qIntegral - 2))
  else derivative.

Section WithExp.

Variable Math_exp : number -> number.

Definition calculateTheoreticalNormalizedRate
    (tD : array) (skinFactor : number) (dataPoints : Z) : array :=
  let skinEffect := Math_exp (Math_min skinFactor 5) in
  mapi (fun time index =>
          if time <=? 0 then 0
          else
            let baseResponse := 1 / (Math_sqrt time + skinEffect * 0.1) in
            Math_max baseResponse 0.01) tD.

(** [generateTheoreticalCurves] has no [throw] and calls nothing that throws,
    so it always completes with [Return]. *)
Definition generateTheoreticalCurves
    (blasingameData : Blasingame.BlasingameOutput) (matchParams : MatchParams)
  : completion TheoreticalCurves :=
  let dimensionalTime :=
    calculateDimensionalTime (Blasingame.materialBalanceTime blasingameData)
      (kh matchParams) (drainageArea matchParams) in
  let theoreticalQNorm :=
    calculateTheoreticalNormalizedRate dimensionalTime (skinFactor matchParams)
      (len (Blasingame.materialBalanceTime blasingameData)) in
  let theoreticalQIntegral :=
    calculateTheoreticalIntegral dimensionalTime theoreticalQNorm in
  let theoreticalQDerivative :=
    calculateTheoreticalDerivative dimensionalTime theoreticalQIntegral in
  Return
    {| t_teDimensionless := dimensionalTime;
       t_qDd := theoreticalQNorm;
       t_qDdi := theoreticalQIntegral;
       t_qDdid := theoreticalQDerivative |}.

End WithExp.

(** The pairs [{c, t}] that survive the filter of [calculateMatchQuality]. *)
Definition pair_ok (pair : number * number) : bool :=
  isFinite (fst pair) && isFinite (snd pair) && gt (fst pair) 0 && gt (snd pair) 0.

Definition validPairs (calculated theoretical : array) : list (number * number) :=
  filter pair_ok (mapi (fun c i => (c, aget theoretical i)) calculated).

Definition meanCalculated (pairs : list (number * number)) : number :=
  fold_left (fun sum p => sum + fst p) pairs 0 / of_nat (length pairs).

(** The three accumulators of the [forEach]. *)
Record sums := { ssRes : number; ssTot : number; sumAbsError : number }.

Definition accumulate (mean : number) (acc : sums) (pair : number * number) : sums :=
  let residual := fst pair - snd pair in
  let y := fst pair - mean in
  {| ssRes := ssRes acc + residual * residual;
     ssTot := ssTot acc + y * y;
     sumAbsError := sumAbsError acc + Math_abs residual |}.

Definition sumsOf (pairs : list (number * number)) : sums :=
  fold_left (accumulate (meanCalculated pairs)) pairs
    {| ssRes := 0; ssTot := 0; sumAbsError := 0 |}.

(** R² before the clamp. *)
Definition rawRSquared (pairs : list (number * number)) : number :=
  let s := sumsOf pairs in
  if gt (ssTot s) 0 then 1 - ssRes s / ssTot s else 0.

Definition calculateMatchQuality (calculated theoretical : array) : MatchQuality :=
  if (len calculated =? 0)%Z || (len theoretical =? 0)%Z
  then {| rSquared := 0; rmse := 0; mae := 0 |}
  else
    let validPairs := validPairs calculated theoretical in
    if (Z.of_nat (length validPairs) =? 0)%Z
    then {| rSquared := 0; rmse := 0; mae := 0 |}
    else
      let s := sumsOf validPairs in
      let rSquared := rawRSquared validPairs in
      let rmse := Math_sqrt (ssRes s / of_nat (length validPairs)) in
      let mae := sumAbsError s / of_nat (length validPairs) in
      {| rSquared := Math_max 0 (Math_min 1 rSquared);
         rmse := rmse;
         mae := mae |}.

End TypeCurve.

(* ================================================================== *)
(** * Vocabulary of the properties *)
(* ================================================================== *)

(** The shape of a binary64 value, read on its specification [Prim2SF]. *)
Module FloatShape.

Definition is_nanS (f : spec_float) : bool :=
  match f with S754_nan => true | _ => false end.

Definition finiteS (f : spec_float) : bool :=
  match f with S754_zero _ | S754_finite _ _ _ => true | _ => false end.

Definition positiveS (f : spec_float) : bool :=
  match f with S754_infinity false | S754_finite false _ _ => true | _ => false end.

Definition zeroS (f : spec_float) : bool :=
  match f with S754_zero _ => true | _ => false end.

(** The order of the values that are not NaN is the lexicographic order of
    these triples. *)
Definition rank (f : spec_float) : Z * Z * Z :=
  match f with
  | S754_nan => (0, 0, 0)%Z
  | S754_zero _ => (0, 0, 0)%Z
  | S754_infinity true => (-2, 0, 0)%Z
  | S754_infinity false => (2, 0, 0)%Z
  | S754_finite false m e => (1, e, Zpos m)%Z
  | S754_finite true m e => (-1, - e, Zneg m)%Z
  end.

Definition lex_lt (a b : Z * Z * Z) : Prop :=
  let '(a1, a2, a3) := a in
  let '(b1, b2, b3) := b in
  (a1 < b1 \/ (a1 = b1 /\ (a2 < b2 \/ (a2 = b2 /\ a3 < b3))))%Z.

Definition lex_cmp (a b : Z * Z * Z) : comparison :=
  let '(a1, a2, a3) := a in
  let '(b1, b2, b3) := b in
  match (a1 ?= b1)%Z with
  | Eq => match (a2 ?= b2)%Z with Eq => (a3 ?= b3)%Z | c => c end
  | c => c
  end.

End FloatShape.

Module Props.
Import JS NumericalUtils Blasingame TypeCurve.
Local Open Scope float_scope.

(** A JavaScript array holds fewer than 2^32 elements. *)
Definition js_length (a : array) : Prop := (len a < 2 ^ 32)%Z.

(** Index [i] lies in the range of a segment. *)
Definition contains (seg : FlowRegimeSegment) (i : Z) : Prop :=
  (startIndex seg <= i <= endIndex seg)%Z.

(** [chain segs lo hi]: the segments, in list order, are non-empty ranges
    laid end to end from [lo], the last one ending at [hi - 1]. *)
Fixpoint chain (segs : list FlowRegimeSegment) (lo hi : Z) : Prop :=
  match segs with
  | [] => lo = hi
  | seg :: rest =>
      startIndex seg = lo /\ (lo <= endIndex seg)%Z /\
      chain rest (endIndex seg + 1) hi
  end.

(** What the walk of [identifyFlowRegimes] assigns to index [i]: the first
    point is never classified and keeps the initial regime. *)
Definition regimeAt (slopes : array) (i : Z) : Regime :=
  if (i =? 0)%Z then infinite_acting else classify (aget slopes i).

(** The pressure drop as the specification words it. *)
Definition specPressureDrop (initialPressure p : number) : number :=
  Math_max (initialPressure - p) 100.

(** The mean and the total sum of squares (SStot) of a list of values as the
    specification words them, added from left to right in binary64. *)
Definition specMean (values : list number) : number :=
  fold_left (fun sum c => sum + c) values 0 / of_nat (length values).

Definition specSStot (values : list number) : number :=
  let mean := specMean values in
  fold_left (fun acc c => acc + (c - mean) * (c - mean)) values 0.

(** The calculated values of the pairs that survive the filter of
    [calculateMatchQuality]. *)
Definition survivingCalculated (calculated theoretical : array) : list number :=
  map fst (validPairs calculated theoretical).

(** A production day as a [Date]. *)
Definition day (d : number) : Date := {| getTime := d * 86400000 |}.

(** [Math.log10] on the three powers of ten used in the examples, where it
    is exact. *)
Definition log10_table (v : number) : number :=
  if v =? 1 then 0 else if v =? 10 then 1 else if v =? 100 then 2 else nan.

(** Inputs used in the examples. *)
Definition shallowDrawdown : BlasingameInput :=
  {| dates := [day 0]; rates := [1000]; cumulativeProduction := [1000];
     pressures := Some [4950]; initialPressure := 5000;
     wellboreRadius := 0.3; netPayThickness := 100; porosity := 0.1;
     totalCompressibility := 1e-5; viscosity := 0.5;
     formationVolumeFactor := 1.2 |}.

Definition shutIn : BlasingameInput :=
  {| dates := map day [0; 1; 2; 3; 4; 5; 6; 7; 8; 9];
     rates := [100; 90; 0; 0; 80; 75; 70; 65; 60; 55];
     cumulativeProduction := [100; 190; 190; 190; 270; 345; 415; 480; 540; 595];
     pressures := None; initialPressure := 5000;
     wellboreRadius := 0.3; netPayThickness := 100; porosity := 0.1;
     totalCompressibility := 1e-5; viscosity := 0.5;
     formationVolumeFactor := 1.2 |}.

Definition leadingShutIn : BlasingameInput :=
  {| dates := map day [0; 1; 2];
     rates := [0; 100; 0];
     cumulativeProduction := [0; 100; 100];
     pressures := None; initialPressure := 5000;
     wellboreRadius := 0.3; netPayThickness := 100; porosity := 0.1;
     totalCompressibility := 1e-5; viscosity := 0.5;
     formationVolumeFactor := 1.2 |}.

(** Series of mismatched lengths: two dates, three rates, one cumulative
    value and one pressure. *)
Definition mismatched : BlasingameInput :=
  {| dates := map day [0; 1];
     rates := [100; 90; 80];
     cumulativeProduction := [100];
     pressures := Some [4500]; initialPressure := 5000;
     wellboreRadius := 0.3; netPayThickness := 100; porosity := 0.1;
     totalCompressibility := 1e-5; viscosity := 0.5;
     formationVolumeFactor := 1.2 |}.

Definition threePoints : BlasingameOutput :=
  {| teDimensionless := []; materialBalanceTime := [1; 2; 3];
     qDd := [2; 1.5; 1]; qDdi := [1; 1; 1]; qDdid := [1; 1; 1];
     pressureDrops := [500; 500; 500]; times := [0; 1; 2];
     out_rates := [1000; 750; 500] |}.

Definition badParams : MatchParams :=
  {| kh := -1; skinFactor := 0; drainageArea := 10 |}.

End Props.

(* ================================================================== *)
(** * Callers: data-import.service.ts and the Blasingame components *)
(* ================================================================== *)

(** [buildDataset] of data-import.service.ts, the caller of [datesToDays]
    and [trapezoidalIntegrate] that prepares imported rows. *)
Module DataImport.
Import JS NumericalUtils.
Local Open Scope float_scope.

Record ParsedImportRow := {
  date : Date;
  oilRate : number;
  gasRate : number;
  waterRate : number;
  pressure : option number
}.

(** production-data.model.ts, without the [wellId] string. *)
Record ProductionData := {
  pd_dates : list Date;
  oilRates : array;
  gasRates : array;
  waterRates : array;
  cumulativeOil : array;
  cumulativeGas : array;
  cumulativeWater : array;
  pd_pressure : option array
}.

(** The [productionData] field of the result of [buildDataset] (lines
    174-201).  The other fields ([well], [importedAt], [sourceFileName]) hold
    the metadata strings and the clock, and no number of the series. *)
Definition buildDataset_productionData (rows : list ParsedImportRow) : ProductionData :=
  let dates := map date rows in
  let days := datesToDays dates in
  let oilRates := map oilRate rows in
  let gasRates := map gasRate rows in
  let waterRates := map waterRate rows in
  let cumulativeOil := trapezoidalIntegrate days oilRates in
  let cumulativeGas := trapezoidalIntegrate days gasRates in
  let cumulativeWater := trapezoidalIntegrate days waterRates in
  let hasPressure :=
    existsb (fun r => match pressure r with Some _ => true | None => false end) rows in
  let pressure :=
    if hasPressure
    then Some (map (fun r => match pressure r with Some p => p | None => nan end) rows)
    else None in
  {| pd_dates := dates;
     oilRates := oilRates;
     gasRates := gasRates;
     waterRates := waterRates;
     cumulativeOil := cumulativeOil;
     cumulativeGas := cumulativeGas;
     cumulativeWater := cumulativeWater;
     pd_pressure := pressure |}.

End DataImport.

(** blasingame.component.ts and type-curve-matcher.component.ts: the two
    methods that call the services, and the reading of the result. *)
Module Components.
Import JS NumericalUtils Blasingame TypeCurve DataImport.
Local Open Scope float_scope.

(** The fields of [WellProperties] (well.model.ts) the component reads; each
    is optional. *)
Record WellProperties := {
  wp_initialPressure : option number;
  wp_wellboreRadius : option number;
  wp_netPayThickness : option number;
  wp_porosity : option number;
  wp_viscosity : option number;
  wp_formationVolumeFactor : option number
}.

(** [x || d] on an optional number: [undefined], [0], [-0] and NaN are
    falsy. *)
Definition orDefault (x : option number) (d : number) : number :=
  match x with
  | Some v => if is_nan v || is_zero v then d else v
  | None => d
  end.

(** The [blasingameInput] literal of [updateBlasigamCalculation]. *)
Definition prepareBlasingameInput
    (productionData : ProductionData) (wellProperties : WellProperties)
  : BlasingameInput :=
  {| dates := pd_dates productionData;
     rates := oilRates productionData;
     cumulativeProduction := cumulativeOil productionData;
     pressures := pd_pressure productionData;
     initialPressure := orDefault (wp_initialPressure wellProperties) 5000;
     wellboreRadius := orDefault (wp_wellboreRadius wellProperties) 0.3;
     netPayThickness := orDefault (wp_netPayThickness wellProperties) 50;
     porosity := orDefault (wp_porosity wellProperties) 0.15;
     totalCompressibility := 1e-5;
     viscosity := orDefault (wp_viscosity wellProperties) 0.5;
     formationVolumeFactor := orDefault (wp_formationVolumeFactor wellProperties) 1.0 |}.

Section WithMath.

Variable Math_log : number -> number.
Variable Math_exp : number -> number.

(** [updateBlasigamCalculation]: the value it stores in the
    [blasingameOutput] signal, [None] when it returns without storing. *)
Definition updateBlasigamCalculation
    (productionData : option ProductionData) (wellProperties : option WellProperties)
  : option (completion BlasingameOutput) :=
  match productionData, wellProperties with
  | Some productionData, Some wellProperties =>
      Some (calculate Math_log (prepareBlasingameInput productionData wellProperties))
  | _, _ => None
  end.

(** [updateMatching]: the value it stores in the match-quality signal,
    [None] when there is no Blasingame output and it returns at once. *)
Definition updateMatching
    (blasingameOutput : option BlasingameOutput) (khValue skinValue areaValue : number)
  : option (completion MatchQuality) :=
  match blasingameOutput with
  | None => None
  | Some blasingameOutput =>
      Some
        match generateTheoreticalCurves Math_exp blasingameOutput
                {| kh := khValue; skinFactor := skinValue; drainageArea := areaValue |} with
        | Return theoretical =>
            Return (calculateMatchQuality (qDd blasingameOutput) (t_qDd theoretical))
        | Throw => Throw
        end
  end.

End WithMath.

Import String.
Local Open Scope string_scope.

(** [getRSquaredClass], on the match quality the signal holds. *)
Definition getRSquaredClass (quality : MatchQuality) : string :=
  let r2 := rSquared quality in
  if gt r2 0.95 then "excellent"
  else if gt r2 0.85 then "good"
  else if gt r2 0.70 then "fair"
  else "poor".

End Components.

(** Shapes and predicates used by the further properties. *)
Module Shapes.
Import JS Blasingame.

(** A value that is not NaN and whose sign bit is clear: [+0], a positive
    finite number or [+Infinity] ([-0] is excluded). *)
Definition nonnegS (f : spec_float) : bool :=
  match f with
  | S754_zero false | S754_finite false _ _ | S754_infinity false => true
  | _ => false
  end.

(** A value of sign [s] that is not NaN. *)
Definition signedS (s : bool) (f : spec_float) : bool :=
  match f with
  | S754_zero s' | S754_finite s' _ _ | S754_infinity s' => Bool.eqb s s'
  | S754_nan => false
  end.

(** A zero of either sign, or a value of sign [s] that is not NaN. *)
Definition zeroOrSignedS (s : bool) (f : spec_float) : bool :=
  FloatShape.zeroS f || signedS s f.

(** The indices [0, 1, ..., n-1]. *)
Definition indices (n : nat) : list Z := map Z.of_nat (seq 0 n).

(** No two neighbours in the list carry the same regime. *)
Fixpoint alternating (segs : list FlowRegimeSegment) : Prop :=
  match segs with
  | [] => True
  | seg :: rest =>
      match rest with
      | [] => True
      | next :: _ => regime seg <> regime next
      end /\ alternating rest
  end.

End Shapes.

(* ================================================================== *)
(** * Facts about arrays and counting loops *)
(* ================================================================== *)

Module ArrayFacts.
Import JS.

Lemma len_nonneg (a : array) : (0 <= len a)%Z.
Proof. unfold len. lia. Qed.

Lemma len_nil : len [] = 0%Z.
Proof. reflexivity. Qed.

Lemma len_map {A : Type} (f : A -> number) (l : list A) :
  len (map f l) = Z.of_nat (length l).
Proof. unfold len. now rewrite length_map. Qed.

Lemma len_new_Array (n : Z) : len (new_Array n) = Z.max 0 n.
Proof. unfold len, new_Array. rewrite repeat_length. lia. Qed.

Lemma len_new_Array_fill (n : Z) (v : number) : len (new_Array_fill n v) = Z.max 0 n.
Proof. unfold len, new_Array_fill. rewrite repeat_length. lia. Qed.

Lemma aget_new_Array_fill (n : Z) (v : number) (i : Z) :
  (0 <= i < n)%Z -> aget (new_Array_fill n v) i = v.
Proof.
  intros Hi. unfold aget, new_Array_fill.
  destruct (i <? 0)%Z eqn:E; [apply Z.ltb_lt in E; lia|].
  apply nth_repeat_lt. lia.
Qed.

Lemma length_set_at (n : nat) (v : number) (a : array) :
  length (set_at n v a) = Nat.max (length a) (S n).
Proof.
  revert a. induction n as [|n IH]; intros [|h t]; simpl; try rewrite IH; simpl; lia.
Qed.

Lemma nth_set_at_same (n : nat) (v : number) (a : array) :
  nth n (set_at n v a) nan = v.
Proof.
  revert a. induction n as [|n IH]; intros [|h t]; simpl; auto.
Qed.

Lemma nth_set_at_other (n k : nat) (v : number) (a : array) :
  n <> k -> nth k (set_at n v a) nan = nth k a nan.
Proof.
  revert k a. induction n as [|n IH]; intros [|k] [|h t] Hnk; simpl; try congruence.
  - now destruct k.
  - rewrite IH by congruence. now destruct k.
  - apply IH. congruence.
Qed.

(** A write is seen by a later read of the same index, and by no other. *)
Lemma aget_aset_same (a : array) (i : Z) (v : number) :
  (0 <= i)%Z -> aget (aset a i v) i = v.
Proof.
  intros Hi. unfold aget, aset.
  destruct (i <? 0)%Z eqn:E; [apply Z.ltb_lt in E; lia|].
  apply nth_set_at_same.
Qed.

Lemma aget_aset_other (a : array) (i j : Z) (v : number) :
  i <> j -> aget (aset a i v) j = aget a j.
Proof.
  intros Hij. unfold aget, aset.
  destruct (j <? 0)%Z eqn:Ej; [reflexivity|].
  destruct (i <? 0)%Z eqn:Ei; [reflexivity|].
  apply Z.ltb_ge in Ei, Ej. apply nth_set_at_other. lia.
Qed.

(** A write extends the array exactly when its index is at or past the end;
    a write at a negative index leaves the length alone. *)
Lemma len_aset (a : array) (i : Z) (v : number) :
  len (aset a i v) = if (i <? 0)%Z then len a else Z.max (len a) (i + 1).
Proof.
  unfold len, aset. destruct (i <? 0)%Z eqn:E; [reflexivity|].
  apply Z.ltb_ge in E. rewrite length_set_at. lia.
Qed.

Lemma len_aset_inside (a : array) (i : Z) (v : number) :
  (i < len a)%Z -> len (aset a i v) = len a.
Proof.
  intros Hi. rewrite len_aset. destruct (i <? 0)%Z; lia.
Qed.

Lemma aget_outside (a : array) (i : Z) :
  (i < 0 \/ len a <= i)%Z -> aget a i = nan.
Proof.
  unfold aget, len. intros Hi.
  destruct (i <? 0)%Z eqn:E; [reflexivity|].
  apply Z.ltb_ge in E. apply nth_overflow. lia.
Qed.

Lemma aget_map {A : Type} (f : A -> number) (l : list A) (d : A) (i : Z) :
  (0 <= i < Z.of_nat (length l))%Z ->
  aget (map f l) i = f (nth (Z.to_nat i) l d).
Proof.
  intros Hi. unfold aget.
  destruct (i <? 0)%Z eqn:E; [apply Z.ltb_lt in E; lia|].
  rewrite (nth_indep _ nan (f d)) by (rewrite length_map; lia).
  apply map_nth.
Qed.

(** Invariants of counting loops. *)
Lemma for_steps_invariant {St : Type} (P : Z -> St -> Prop) (body : Z -> St -> St)
    (k : nat) (lo : Z) (s : St) :
  P lo s ->
  (forall i s, (lo <= i < lo + Z.of_nat k)%Z -> P i s -> P (i + 1)%Z (body i s)) ->
  P (lo + Z.of_nat k)%Z (for_steps k lo body s).
Proof.
  revert lo s. induction k as [|k IH]; intros lo s H0 Hstep.
  - simpl. rewrite Z.add_0_r. exact H0.
  - simpl for_steps.
    replace (lo + Z.of_nat (S k))%Z with ((lo + 1) + Z.of_nat k)%Z by lia.
    apply IH.
    + apply Hstep; [lia | exact H0].
    + intros i s' Hi. apply Hstep. lia.
Qed.

Lemma for_range_invariant {St : Type} (P : Z -> St -> Prop) (body : Z -> St -> St)
    (lo hi : Z) (s : St) :
  (lo <= hi)%Z ->
  P lo s ->
  (forall i s, (lo <= i < hi)%Z -> P i s -> P (i + 1)%Z (body i s)) ->
  P hi (for_range lo hi body s).
Proof.
  intros Hle H0 Hstep. unfold for_range.
  replace hi with (lo + Z.of_nat (Z.to_nat (hi - lo)))%Z at 1 by lia.
  apply for_steps_invariant; [exact H0|].
  intros i s' Hi. apply Hstep. lia.
Qed.

Lemma for_range_empty {St : Type} (body : Z -> St -> St) (lo hi : Z) (s : St) :
  (hi <= lo)%Z -> for_range lo hi body s = s.
Proof.
  intros H. unfold for_range. now replace (Z.to_nat (hi - lo)) with O by lia.
Qed.

(** A property of the state that every iteration preserves. *)
Lemma for_range_preserves {St : Type} (P : St -> Prop) (body : Z -> St -> St)
    (lo hi : Z) (s : St) :
  P s ->
  (forall i s, (lo <= i < hi)%Z -> P s -> P (body i s)) ->
  P (for_range lo hi body s).
Proof.
  intros H0 Hstep. destruct (Z.le_gt_cases lo hi) as [Hle|Hgt].
  - apply (for_range_invariant (fun _ => P)); auto.
  - rewrite for_range_empty by lia. exact H0.
Qed.

Lemma length_mapi_from {A B : Type} (f : A -> Z -> B) (l : list A) (i : Z) :
  length (mapi_from i f l) = length l.
Proof. revert i. induction l; intros; simpl; auto. Qed.

Lemma nth_mapi_from {A B : Type} (f : A -> Z -> B) (l : list A) (i : Z)
    (k : nat) (da : A) (db : B) :
  (k < length l)%nat ->
  nth k (mapi_from i f l) db = f (nth k l da) (i + Z.of_nat k)%Z.
Proof.
  revert i k. induction l as [|a l IH]; intros i k Hk; simpl in *; [lia|].
  destruct k as [|k].
  - simpl. now rewrite Z.add_0_r.
  - rewrite (IH (i + 1)%Z k) by lia. f_equal. lia.
Qed.

End ArrayFacts.

(* ================================================================== *)
(** * Facts about binary64 numbers *)
(* ================================================================== *)

Module FloatFacts.
Import JS FloatShape.
Local Open Scope float_scope.

Lemma SFcompare_rank (a b : spec_float) :
  SFcompare a b =
  if is_nanS a || is_nanS b then None else Some (lex_cmp (rank a) (rank b)).
Proof.
  destruct a as [[]|[]| |[] ma ea], b as [[]|[]| |[] mb eb]; simpl; try reflexivity.
  rewrite Z.compare_opp, (Z.compare_antisym ea eb).
  destruct (ea ?= eb)%Z; reflexivity.
Qed.

Lemma lex_cmp_Lt (a b : Z * Z * Z) : lex_cmp a b = Lt <-> lex_lt a b.
Proof.
  destruct a as [[a1 a2] a3], b as [[b1 b2] b3]; simpl.
  destruct (Z.compare_spec a1 b1), (Z.compare_spec a2 b2), (Z.compare_spec a3 b3);
    split; intros; try discriminate; try reflexivity; try lia.
Qed.

Lemma lex_cmp_Eq (a b : Z * Z * Z) : lex_cmp a b = Eq <-> a = b.
Proof.
  destruct a as [[a1 a2] a3], b as [[b1 b2] b3]; simpl.
  destruct (Z.compare_spec a1 b1) as [E1|E1|E1],
           (Z.compare_spec a2 b2) as [E2|E2|E2],
           (Z.compare_spec a3 b3) as [E3|E3|E3];
    split; intros Hx; try discriminate; try reflexivity;
    try (inversion Hx; lia); subst; auto.
Qed.

(** The three comparisons of numbers, read on the ranks. *)
Lemma ltb_rank (x y : float) :
  (x <? y) = true <->
  is_nanS (Prim2SF x) = false /\ is_nanS (Prim2SF y) = false /\
  lex_lt (rank (Prim2SF x)) (rank (Prim2SF y)).
Proof.
  rewrite FloatAxioms.ltb_spec. unfold SFltb. rewrite SFcompare_rank.
  destruct (is_nanS (Prim2SF x)), (is_nanS (Prim2SF y)); simpl;
    try (split; [discriminate | intros (?&?&?); discriminate]).
  rewrite <- lex_cmp_Lt.
  destruct (lex_cmp _ _); split; intros; try discriminate; try tauto;
    intuition discriminate.
Qed.

Lemma leb_rank (x y : float) :
  (x <=? y) = true <->
  is_nanS (Prim2SF x) = false /\ is_nanS (Prim2SF y) = false /\
  (lex_lt (rank (Prim2SF x)) (rank (Prim2SF y)) \/
   rank (Prim2SF x) = rank (Prim2SF y)).
Proof.
  rewrite FloatAxioms.leb_spec. unfold SFleb. rewrite SFcompare_rank.
  destruct (is_nanS (Prim2SF x)), (is_nanS (Prim2SF y)); simpl;
    try (split; [discriminate | intros (?&?&?); discriminate]).
  rewrite <- lex_cmp_Lt, <- lex_cmp_Eq.
  destruct (lex_cmp _ _); split; intros; try discriminate; try tauto;
    intuition discriminate.
Qed.

Lemma ltb_false_rank (x y : float) :
  ~ lex_lt (rank (Prim2SF x)) (rank (Prim2SF y)) -> (x <? y) = false.
Proof.
  intros H. destruct (x <? y) eqn:E; [|reflexivity].
  apply ltb_rank in E. tauto.
Qed.

Lemma leb_false_rank (x y : float) :
  lex_lt (rank (Prim2SF y)) (rank (Prim2SF x)) -> (x <=? y) = false.
Proof.
  intros H. destruct (x <=? y) eqn:E; [|reflexivity].
  apply leb_rank in E. destruct E as (_ & _ & E).
  destruct (rank (Prim2SF x)) as [[a1 a2] a3], (rank (Prim2SF y)) as [[b1 b2] b3].
  simpl in *. destruct E as [E|E]; [|inversion E]; lia.
Qed.

(** [isFinite], [x > 0] and [x == 0], read on the shape of the number. *)
Lemma SFeqb_refl_finite (s : bool) (m : positive) (e : Z) :
  SFeqb (S754_finite s m e) (S754_finite s m e) = true.
Proof.
  unfold SFeqb, SFcompare. rewrite Z.compare_refl.
  change (Pos.compare_cont Eq m m) with (Pos.compare m m). rewrite Pos.compare_refl.
  destruct s; reflexivity.
Qed.

Lemma is_finite_spec (x : float) : is_finite x = finiteS (Prim2SF x).
Proof.
  unfold is_finite, is_nan, is_infinity.
  rewrite !FloatAxioms.eqb_spec, abs_spec.
  change (Prim2SF infinity) with (S754_infinity false).
  destruct (Prim2SF x) as [s|s| |s m e].
  - reflexivity.
  - destruct s; reflexivity.
  - reflexivity.
  - rewrite SFeqb_refl_finite. reflexivity.
Qed.

Lemma is_nan_spec (x : float) : is_nan x = is_nanS (Prim2SF x).
Proof.
  unfold is_nan. rewrite FloatAxioms.eqb_spec.
  destruct (Prim2SF x) as [s|s| |s m e].
  - reflexivity.
  - destruct s; reflexivity.
  - reflexivity.
  - rewrite SFeqb_refl_finite. reflexivity.
Qed.

Lemma gt_zero_spec (x : float) : gt x 0 = positiveS (Prim2SF x).
Proof.
  unfold gt. rewrite FloatAxioms.ltb_spec. change (Prim2SF 0) with (S754_zero false).
  destruct (Prim2SF x) as [s|s| |s m e]; try reflexivity; destruct s; reflexivity.
Qed.

Lemma eqb_zero_spec (x : float) : (x =? 0) = zeroS (Prim2SF x).
Proof.
  rewrite FloatAxioms.eqb_spec. change (Prim2SF 0) with (S754_zero false).
  destruct (Prim2SF x) as [s|s| |s m e]; try reflexivity; destruct s; reflexivity.
Qed.

(** A number equal to zero (of either sign) is not greater than zero. *)
Lemma eqb_zero_not_gt (x : float) : (x =? 0) = true -> gt x 0 = false.
Proof.
  rewrite eqb_zero_spec, gt_zero_spec.
  destruct (Prim2SF x) as [s|s| |s m e]; try discriminate; reflexivity.
Qed.

(** A finite number minus itself is [+0]. *)
Lemma sub_diag_finite (x : float) : is_finite x = true -> x - x = 0.
Proof.
  rewrite is_finite_spec. intros Hx. apply Prim2SF_inj. rewrite sub_spec.
  change (Prim2SF 0) with (S754_zero false).
  destruct (Prim2SF x) as [s|s| |s m e]; try discriminate.
  - destruct s; reflexivity.
  - unfold SF64sub, SFsub. rewrite Z.sub_diag. reflexivity.
Qed.

(** [+0] divided by a number greater than zero is [+0]. *)
Lemma zero_div_positive (y : float) : gt y 0 = true -> 0 / y = 0.
Proof.
  rewrite gt_zero_spec. intros Hy. apply Prim2SF_inj. rewrite div_spec.
  change (Prim2SF 0) with (S754_zero false).
  destruct (Prim2SF y) as [s|s| |s m e]; try discriminate; destruct s;
    try discriminate; reflexivity.
Qed.

(** The number of an array length between 1 and 2^32 - 1 is exact, hence
    positive and finite. *)
Lemma digits2_pos_size (p : positive) : digits2_pos p = Pos.size p.
Proof. induction p; simpl; congruence. Qed.

Lemma digits2_pos_iter (p k : positive) :
  digits2_pos (Pos.iter xO p k) = (digits2_pos p + k)%positive.
Proof.
  induction k using Pos.peano_ind.
  - simpl. lia.
  - rewrite Pos.iter_succ. simpl. rewrite IHk. lia.
Qed.

Lemma digits2_pos_bound (p : positive) (n : Z) :
  (0 <= n)%Z -> (Zpos p < 2 ^ n)%Z -> (Zpos (digits2_pos p) <= n)%Z.
Proof.
  intros Hn Hp. rewrite digits2_pos_size.
  pose proof (Pos.size_le p) as Hle.
  assert (H2 : (2 ^ Zpos (Pos.size p) <= 2 * Zpos p)%Z).
  { change (2 * Zpos p)%Z with (Zpos p~0).
    rewrite <- Pos2Z.inj_pow. apply Pos2Z.pos_le_pos. exact Hle. }
  assert (H3 : (2 ^ Zpos (Pos.size p) < 2 ^ (n + 1))%Z).
  { rewrite Z.pow_add_r by lia. lia. }
  apply Z.pow_lt_mono_r_iff in H3; lia.
Qed.

Lemma shr_fexp_exact (m : positive) (e : Z) :
  fexp prec emax (Zpos (digits2_pos m) + e) = e ->
  shr_fexp prec emax (Zpos m) e loc_Exact =
  ({| shr_m := Zpos m; shr_r := false; shr_s := false |}, e).
Proof.
  unfold shr_fexp, Zdigits2. intros ->. rewrite Z.sub_diag. reflexivity.
Qed.

Lemma binary_round_aux_exact (m : positive) (e : Z) :
  fexp prec emax (Zpos (digits2_pos m) + e) = e ->
  (e <=? emax - prec)%Z = true ->
  binary_round_aux prec emax false (Zpos m) e loc_Exact = S754_finite false m e.
Proof.
  intros Hc Hb. unfold binary_round_aux.
  rewrite (shr_fexp_exact m e Hc). cbn [shr_m loc_of_shr_record round_nearest_even].
  rewrite (shr_fexp_exact m e Hc). cbn [shr_m]. rewrite Hb. reflexivity.
Qed.

Lemma binary_normalize_small (p : positive) :
  (Zpos p < 2 ^ 53)%Z ->
  exists m e, binary_normalize prec emax (Zpos p) 0 false = S754_finite false m e.
Proof.
  intros Hp.
  assert (Hd : (Zpos (digits2_pos p) <= 53)%Z) by (apply digits2_pos_bound; lia).
  unfold binary_normalize, binary_round.
  assert (Hf : fexp prec emax (Zpos (digits2_pos p) + 0)
               = (Zpos (digits2_pos p) - 53)%Z).
  { unfold fexp, SpecFloat.emin, prec, emax. lia. }
  rewrite Hf. unfold shl_align.
  destruct (Zpos (digits2_pos p) - 53 - 0)%Z as [|q|q] eqn:Hq; try lia.
  - exists p, 0%Z. apply binary_round_aux_exact.
    + unfold fexp, SpecFloat.emin, prec, emax. lia.
    + reflexivity.
  - exists (Pos.iter xO p q), (Zpos (digits2_pos p) - 53)%Z.
    apply binary_round_aux_exact.
    + rewrite digits2_pos_iter. unfold fexp, SpecFloat.emin, prec, emax. lia.
    + unfold emax, prec. apply Z.leb_le. lia.
Qed.

Lemma of_nat_positive (n : nat) :
  (0 < Z.of_nat n < 2 ^ 32)%Z -> gt (of_nat n) 0 = true.
Proof.
  intros Hn. rewrite gt_zero_spec. unfold of_nat.
  rewrite of_uint63_spec, Uint63.of_Z_spec, Z.mod_small.
  - destruct (Z.of_nat n) as [|p|p] eqn:E; try lia.
    destruct (binary_normalize_small p) as (m & e & ->); [lia | reflexivity].
  - split; [lia|]. apply Z.lt_trans with (2 ^ 32)%Z; [lia | reflexivity].
Qed.

(** Comparisons against constants: the hypotheses [x < y], [x <= y] become
    facts on ranks, the ranks of constants are computed, and [lia] closes
    the goal. *)
Ltac rank_of_constants :=
  repeat match goal with
  | H : context [rank (Prim2SF ?c)] |- _ =>
      is_closed_float c;
      let v := eval vm_compute in (rank (Prim2SF c)) in
      change (rank (Prim2SF c)) with v in H
  | |- context [rank (Prim2SF ?c)] =>
      is_closed_float c;
      let v := eval vm_compute in (rank (Prim2SF c)) in
      change (rank (Prim2SF c)) with v
  end
with is_closed_float c :=
  lazymatch c with
  | opp ?d => is_closed_float d
  | _ => is_float c
  end
with is_float c :=
  lazymatch type of c with
  | _ => let v := eval vm_compute in (PrimFloat.is_nan c) in
         lazymatch v with true => idtac | false => idtac end
  end.

Ltac float_order :=
  unfold gt, ge in *;
  repeat match goal with
  | H : (_ <? _) = true |- _ => apply ltb_rank in H; destruct H as (_ & _ & H)
  | H : (_ <=? _) = true |- _ => apply leb_rank in H; destruct H as (_ & _ & H)
  end;
  first [ apply ltb_false_rank | apply leb_false_rank ];
  rank_of_constants;
  repeat match goal with
  | |- context [rank (Prim2SF ?x)] =>
      let a := fresh "a" in let b := fresh "b" in let c := fresh "c" in
      destruct (rank (Prim2SF x)) as [[a b] c]
  end;
  unfold lex_lt in *;
  repeat match goal with
  | H : _ \/ (_, _, _) = (_, _, _) |- _ => destruct H as [H|H]; [|inversion H; subst]
  end;
  lia.

End FloatFacts.

(* ================================================================== *)
(** * Properties of the Blasingame transform *)
(* ================================================================== *)

Module BlasingameProps.
Import JS NumericalUtils Blasingame Props ArrayFacts FloatFacts.
Local Open Scope float_scope.
Local Open Scope Z_scope.

(** ** Material balance time *)

(** Each entry of the material balance time is the quotient when the rate is
    greater than zero, and otherwise the entry before it (0.001 at index 0). *)
Lemma calculateMaterialBalanceTime_spec (rates cumulative : array) :
  let te := calculateMaterialBalanceTime rates cumulative in
  len te = len rates /\
  forall j, 0 <= j < len rates ->
    aget te j =
    if gt (aget rates j) 0%float then (aget cumulative j / aget rates j)%float
    else if j >? 0 then aget te (j - 1) else 0.001%float.
Proof.
  unfold calculateMaterialBalanceTime.
  apply (for_range_invariant
           (fun i te =>
              len te = len rates /\
              forall j, 0 <= j < i ->
                aget te j =
                if gt (aget rates j) 0%float then (aget cumulative j / aget rates j)%float
                else if j >? 0 then aget te (j - 1) else 0.001%float)).
  - apply len_nonneg.
  - split; [|intros j Hj; lia].
    rewrite len_new_Array. pose proof (len_nonneg rates). lia.
  - intros i te Hi [Hlen Hte].
    set (v := if gt (aget rates i) 0%float
              then (aget cumulative i / aget rates i)%float
              else if i >? 0 then aget te (i - 1) else 0.001%float).
    assert (Hbody :
      (if gt (aget rates i) 0%float
       then aset te i (aget cumulative i / aget rates i)%float
       else aset te i (if i >? 0 then aget te (i - 1) else 0.001%float))
      = aset te i v).
    { unfold v. destruct (gt (aget rates i) 0%float); reflexivity. }
    rewrite Hbody. split.
    + rewrite len_aset_inside; lia.
    + intros j Hj. destruct (Z.eq_dec j i) as [->|Hne].
      * rewrite aget_aset_same by lia.
        rewrite (aget_aset_other te i (i - 1)) by lia. reflexivity.
      * rewrite (aget_aset_other te i j) by lia.
        rewrite (aget_aset_other te i (j - 1)) by lia.
        apply Hte. lia.
Qed.

(** C3.  Before cleaning, the material balance time that [calculate] computes
    is [cumulative[i] / rate[i]] wherever [rate[i] > 0]; where [rate[i] == 0]
    it repeats the previous entry when [i > 0], and is 0.001 when [i = 0]. *)
Theorem material_balance_time_carry_forward
    (Math_log : number -> number) (input : BlasingameInput) (i : Z) :
  let te := c_materialBalanceTime (rawCurves Math_log input) in
  let rate := aget (rates input) i in
  (gt rate 0%float = true ->
     aget te i = (aget (cumulativeProduction input) i / rate)%float) /\
  ((rate =? 0)%float = true -> i > 0 -> aget te i = aget te (i - 1)) /\
  ((rate =? 0)%float = true -> i = 0 -> aget te 0 = 0.001%float).
Proof.
  cbn zeta. cbn [rawCurves c_materialBalanceTime].
  destruct (calculateMaterialBalanceTime_spec (rates input) (cumulativeProduction input))
    as [_ Hte].
  destruct (Z_lt_ge_dec i 0) as [Hneg|Hpos];
    [|destruct (Z_lt_ge_dec i (len (rates input))) as [Hin|Hout]].
  - rewrite (aget_outside (rates input) i) by lia.
    repeat split; intros H; try discriminate H; lia.
  - specialize (Hte i ltac:(lia)). repeat split.
    + intros Hgt. rewrite Hte, Hgt. reflexivity.
    + intros Hz Hi. apply eqb_zero_not_gt in Hz. rewrite Hte, Hz.
      destruct (Z.gtb_spec i 0); [reflexivity | lia].
    + intros Hz Hi. subst i. apply eqb_zero_not_gt in Hz.
      rewrite Hte, Hz. reflexivity.
  - rewrite (aget_outside (rates input) i) by lia.
    repeat split; intros H; discriminate H.
Qed.

(** On a series that starts shut in, produces for a day, and is shut in
    again: 0.001, then the quotient, then the quotient repeated. *)
Lemma material_balance_time_carry_forward_witness :
  let te := c_materialBalanceTime (rawCurves (fun x => x) leadingShutIn) in
  aget te 0 = 0.001%float /\ aget te 1 = 1%float /\ aget te 2 = aget te 1.
Proof.
  intros te. split; [|split].
  - apply (material_balance_time_carry_forward (fun x => x) leadingShutIn 0);
      reflexivity.
  - apply (material_balance_time_carry_forward (fun x => x) leadingShutIn 1).
    reflexivity.
  - apply (material_balance_time_carry_forward (fun x => x) leadingShutIn 2);
      [reflexivity | lia].
Defined.

(** ** Pressure drops *)

(** What [calculatePressureDrops] computes from a pressure series of the
    right length: the drawdown where it is greater than zero, else 100. *)
Lemma calculatePressureDrops_measured
    (ps : array) (initialPressure : number) (i : Z) :
  0 <= i < len ps ->
  aget (calculatePressureDrops (Some ps) initialPressure (len ps)) i =
  let dp := (initialPressure - aget ps i)%float in
  if gt dp 0%float then dp else 100%float.
Proof.
  intros Hi. unfold calculatePressureDrops. rewrite Z.eqb_refl.
  rewrite (aget_map _ ps nan) by (unfold len in Hi; lia).
  unfold aget. destruct (i <? 0) eqn:E; [apply Z.ltb_lt in E; lia | reflexivity].
Qed.

(** C1 fails on the code.  With an initial pressure of 5000 and a flowing
    pressure of 4950 (a series of the same length as the production series),
    [calculate] reports a pressure drop of 50, where
    [max(initialPressure - pressure, 100)] is 100: a drawdown between 0 and
    100 is kept as it is, below the documented minimum of 100. *)
Theorem pressure_drop_below_minimum (Math_log : number -> number) :
  exists out,
    calculate Math_log shallowDrawdown = Return out /\
    pressureDrops out = [50%float] /\
    specPressureDrop 5000 4950 = 100%float /\
    (50 <? 100)%float = true.
Proof.
  eexists. split; [reflexivity|]. repeat split.
Qed.

(** ** Cleaning *)

Lemma valid_indices_valid (data : Curves) :
  Forall (fun i => valid_at data i = true) (valid_indices data).
Proof.
  unfold valid_indices.
  apply (for_range_preserves (Forall (fun i => valid_at data i = true))).
  - constructor.
  - intros i valid _ Hvalid. destruct (valid_at data i) eqn:E; [|exact Hvalid].
    apply Forall_app. split; [exact Hvalid|]. constructor; [exact E | constructor].
Qed.

(** The four arrays [cleanData] returns have one length, and at every index
    of them all four values are finite and greater than zero. *)
Lemma cleanData_parallel (data : Curves) :
  let cleaned := cleanData data in
  len (c_materialBalanceTime cleaned) = len (c_qDd cleaned) /\
  len (c_qDd cleaned) = len (c_qDdi cleaned) /\
  len (c_qDdi cleaned) = len (c_qDdid cleaned) /\
  forall i, 0 <= i < len (c_materialBalanceTime cleaned) ->
    (isFinite (aget (c_materialBalanceTime cleaned) i) = true /\
     gt (aget (c_materialBalanceTime cleaned) i) 0%float = true) /\
    (isFinite (aget (c_qDd cleaned) i) = true /\
     gt (aget (c_qDd cleaned) i) 0%float = true) /\
    (isFinite (aget (c_qDdi cleaned) i) = true /\
     gt (aget (c_qDdi cleaned) i) 0%float = true) /\
    (isFinite (aget (c_qDdid cleaned) i) = true /\
     gt (aget (c_qDdid cleaned) i) 0%float = true).
Proof.
  unfold cleanData. cbn [c_materialBalanceTime c_qDd c_qDdi c_qDdid].
  rewrite !len_map. repeat (split; [reflexivity|]).
  intros i Hi.
  rewrite !(aget_map _ (valid_indices data) 0) by exact Hi.
  pose proof (valid_indices_valid data) as Hv.
  rewrite Forall_forall in Hv.
  specialize (Hv (nth (Z.to_nat i) (valid_indices data) 0)).
  assert (Hin : In (nth (Z.to_nat i) (valid_indices data) 0) (valid_indices data))
    by (apply nth_In; lia).
  specialize (Hv Hin). unfold valid_at in Hv.
  repeat (apply andb_prop in Hv; destruct Hv as [Hv ?]).
  repeat split; assumption.
Qed.

(** C4.  [calculate] returns, and the four cleaned arrays of its result
    (materialBalanceTime, qDd, qDdi, qDdid) have equal length and hold, at
    every index, values that are finite and strictly greater than 0. *)
Theorem calculate_parallel_arrays
    (Math_log : number -> number) (input : BlasingameInput) :
  exists out,
    calculate Math_log input = Return out /\
    len (materialBalanceTime out) = len (qDd out) /\
    len (qDd out) = len (qDdi out) /\
    len (qDdi out) = len (qDdid out) /\
    forall i, 0 <= i < len (materialBalanceTime out) ->
      (isFinite (aget (materialBalanceTime out) i) = true /\
       gt (aget (materialBalanceTime out) i) 0%float = true) /\
      (isFinite (aget (qDd out) i) = true /\
       gt (aget (qDd out) i) 0%float = true) /\
      (isFinite (aget (qDdi out) i) = true /\
       gt (aget (qDdi out) i) 0%float = true) /\
      (isFinite (aget (qDdid out) i) = true /\
       gt (aget (qDdid out) i) 0%float = true).
Proof.
  eexists. split; [reflexivity|].
  cbn [materialBalanceTime qDd qDdi qDdid].
  exact (cleanData_parallel (rawCurves Math_log input)).
Qed.

(** On the shut-in scenario of the test suite, with [Math.log] left
    abstract: the cleaned arrays have one length. *)
Lemma calculate_parallel_arrays_witness :
  exists out,
    calculate (fun x => x) shutIn = Return out /\
    len (materialBalanceTime out) = len (qDdid out).
Proof.
  destruct (calculate_parallel_arrays (fun x => x) shutIn)
    as (out & Hout & H1 & H2 & H3 & _).
  exists out. split; [exact Hout | congruence].
Defined.

(** ** Flow regimes *)

(** The thresholds of the classification. *)
Lemma classify_infinite_acting (slope : number) :
  gt slope (-0.3) = true -> classify slope = infinite_acting.
Proof. unfold classify. now intros ->. Qed.

Lemma classify_transition (slope : number) :
  ge slope (-0.7) = true -> (slope <=? -0.3)%float = true ->
  classify slope = transition.
Proof.
  intros Hlo Hhi. unfold classify.
  assert (H1 : gt slope (-0.3) = false) by float_order.
  now rewrite H1, Hlo.
Qed.

Lemma classify_boundary_dominated (slope : number) :
  ge slope (-1.3) = true -> (slope <? -0.7)%float = true ->
  classify slope = boundary_dominated.
Proof.
  intros Hlo Hhi. unfold classify.
  assert (H1 : gt slope (-0.3) = false) by float_order.
  assert (H2 : ge slope (-0.7) = false) by float_order.
  now rewrite H1, H2, Hlo.
Qed.

Lemma classify_depletion (slope : number) :
  (slope <? -1.3)%float = true -> classify slope = depletion.
Proof.
  intros Hhi. unfold classify.
  assert (H1 : gt slope (-0.3) = false) by float_order.
  assert (H2 : ge slope (-0.7) = false) by float_order.
  assert (H3 : ge slope (-1.3) = false) by float_order.
  now rewrite H1, H2, H3.
Qed.

Lemma Regime_eqb_eq (a b : Regime) : Regime_eqb a b = true <-> a = b.
Proof. destruct a, b; simpl; split; intros H; try discriminate; reflexivity. Qed.

(** Segments laid end to end. *)
Lemma chain_snoc (segs : list FlowRegimeSegment) (lo hi : Z) (seg : FlowRegimeSegment) :
  chain segs lo (startIndex seg) ->
  startIndex seg <= endIndex seg ->
  hi = endIndex seg + 1 ->
  chain (segs ++ [seg]) lo hi.
Proof.
  intros Hc Hle ->.
  revert lo Hc. induction segs as [|s segs IH]; intros lo Hc; simpl in *.
  - subst lo. auto.
  - destruct Hc as (Hs & Hl & Hc). auto.
Qed.

Lemma chain_bounds (segs : list FlowRegimeSegment) (lo hi : Z) :
  chain segs lo hi ->
  lo <= hi /\
  forall seg, In seg segs -> lo <= startIndex seg <= endIndex seg /\ endIndex seg < hi.
Proof.
  revert lo. induction segs as [|s segs IH]; intros lo Hc; simpl in *.
  - split; [lia | tauto].
  - destruct Hc as (Hs & Hl & Hc). destruct (IH _ Hc) as [Hle Hin].
    split; [lia|]. intros seg [<-|H]; [lia|].
    specialize (Hin seg H). lia.
Qed.

Lemma chain_covers (segs : list FlowRegimeSegment) (lo hi i : Z) :
  chain segs lo hi -> lo <= i < hi ->
  exists seg, In seg segs /\ contains seg i.
Proof.
  revert lo. induction segs as [|s segs IH]; intros lo Hc Hi; simpl in *.
  - lia.
  - destruct Hc as (Hs & Hl & Hc).
    destruct (Z_le_gt_dec i (endIndex s)) as [Hin|Hout].
    + exists s. split; [now left | unfold contains; lia].
    + destruct (IH _ Hc) as (seg & Hseg & Hcont); [lia|].
      exists seg. split; [now right | exact Hcont].
Qed.

Lemma chain_disjoint (segs : list FlowRegimeSegment) (lo hi i : Z)
    (s1 s2 : FlowRegimeSegment) :
  chain segs lo hi ->
  In s1 segs -> In s2 segs -> contains s1 i -> contains s2 i -> s1 = s2.
Proof.
  unfold contains.
  revert lo. induction segs as [|s segs IH]; intros lo Hc H1 H2 C1 C2; simpl in *.
  - tauto.
  - destruct Hc as (Hs & Hl & Hc). destruct (chain_bounds _ _ _ Hc) as [_ Hb].
    destruct H1 as [<-|H1], H2 as [<-|H2].
    + reflexivity.
    + specialize (Hb _ H2). lia.
    + specialize (Hb _ H1). lia.
    + exact (IH _ Hc H1 H2 C1 C2).
Qed.

(** The walk over the slopes: the closed segments tile [0 .. startIndex - 1],
    and every index already passed carries the regime of [regimeAt]. *)
Lemma walk_invariant (slopes : array) (hi : Z) :
  1 <= hi ->
  let w := for_range 1 hi (walk_step slopes)
             {| regimes := []; currentRegime := infinite_acting; w_startIndex := 0 |} in
  chain (regimes w) 0 (w_startIndex w) /\
  0 <= w_startIndex w < hi /\
  (forall seg j, In seg (regimes w) -> contains seg j ->
                 regime seg = regimeAt slopes j) /\
  (forall j, w_startIndex w <= j < hi -> currentRegime w = regimeAt slopes j).
Proof.
  intros Hhi.
  apply (for_range_invariant
           (fun i w =>
              chain (regimes w) 0 (w_startIndex w) /\
              0 <= w_startIndex w < i /\
              (forall seg j, In seg (regimes w) -> contains seg j ->
                             regime seg = regimeAt slopes j) /\
              (forall j, w_startIndex w <= j < i ->
                         currentRegime w = regimeAt slopes j))).
  - exact Hhi.
  - simpl. repeat split; try lia; try tauto.
    intros j Hj. replace j with 0 by lia. reflexivity.
  - intros i w Hi (Hchain & Hstart & Hsegs & Hcur).
    assert (Hnew : classify (aget slopes i) = regimeAt slopes i).
    { unfold regimeAt. destruct (Z.eqb_spec i 0); [lia | reflexivity]. }
    unfold walk_step.
    destruct (Regime_eqb (classify (aget slopes i)) (currentRegime w)) eqn:E; simpl.
    + apply Regime_eqb_eq in E. repeat split; try assumption; try lia.
      intros j Hj. destruct (Z.eq_dec j i) as [->|Hne].
      * now rewrite <- E.
      * apply Hcur. lia.
    + repeat split; try lia.
      * apply chain_snoc; simpl; [exact Hchain | lia | lia].
      * intros seg j Hin Hc. apply in_app_or in Hin. destruct Hin as [Hin|[<-|[]]].
        -- exact (Hsegs seg j Hin Hc).
        -- unfold contains in Hc. simpl in *. apply Hcur. lia.
      * intros j Hj. replace j with i by lia. exact Hnew.
Qed.

(** The segments of a non-empty slope array tile [0 .. length - 1], and each
    carries the regime [regimeAt] gives to the indices it spans. *)
Lemma segmentSlopes_spec (slopes : array) :
  1 <= len slopes ->
  chain (segmentSlopes slopes) 0 (len slopes) /\
  forall seg j, In seg (segmentSlopes slopes) -> contains seg j ->
                regime seg = regimeAt slopes j.
Proof.
  intros Hlen. unfold segmentSlopes.
  destruct (walk_invariant slopes (len slopes) Hlen) as (Hchain & Hstart & Hsegs & Hcur).
  set (w := for_range 1 (len slopes) (walk_step slopes)
              {| regimes := []; currentRegime := infinite_acting; w_startIndex := 0 |})
    in *.
  split.
  - apply chain_snoc; simpl; [exact Hchain | lia | lia].
  - intros seg j Hin Hc. apply in_app_or in Hin. destruct Hin as [Hin|[<-|[]]].
    + exact (Hsegs seg j Hin Hc).
    + unfold contains in Hc. simpl in *. apply Hcur. lia.
Qed.

(** [calculateLogLogSlope] returns one slope per point, and one slope (NaN)
    for an empty series: the write to [slopes[0]] extends the empty array. *)
Lemma len_calculateLogLogSlope (Math_log10 : number -> number) (x y : array) :
  len (calculateLogLogSlope Math_log10 x y) = Z.max (len x) 1.
Proof.
  unfold calculateLogLogSlope. rewrite (len_map Math_log10 x).
  fold (len x). pose proof (len_nonneg x) as Hx.
  set (logX := map Math_log10 x). set (logY := map Math_log10 y).
  set (a0 := aset (new_Array (len x)) 0 _).
  assert (H0 : len a0 = Z.max (len x) 1).
  { unfold a0. rewrite len_aset, len_new_Array. simpl. lia. }
  set (a1 := for_range 1 (len x - 1) _ a0).
  assert (H1 : len a1 = Z.max (len x) 1).
  { unfold a1. apply (for_range_preserves (fun a => len a = Z.max (len x) 1)).
    - exact H0.
    - intros i a Hi Ha. rewrite len_aset_inside; lia. }
  rewrite len_aset. destruct (len x - 1 <? 0) eqn:E; [exact H1|].
  apply Z.ltb_ge in E. lia.
Qed.

(** C6.  For a series of length M >= 1, [identifyFlowRegimes] returns a
    non-empty list of segments, in increasing index order, each a non-empty
    range inside [0, M-1], each starting right after the one before it, the
    first at 0 and the last ending at M-1; so every index of [0, M-1] lies
    in exactly one segment. *)
Theorem regime_segments_tile
    (Math_log10 : number -> number) (x y : array) :
  0 < len x ->
  let segs := identifyFlowRegimes Math_log10 x y in
  segs <> [] /\
  chain segs 0 (len x) /\
  (forall seg, In seg segs ->
     0 <= startIndex seg <= endIndex seg /\ endIndex seg <= len x - 1) /\
  (forall i, 0 <= i <= len x - 1 ->
     exists seg, In seg segs /\ contains seg i /\
       forall seg', In seg' segs -> contains seg' i -> seg' = seg).
Proof.
  intros Hx segs.
  assert (Hlen : len (calculateLogLogSlope Math_log10 x y) = len x)
    by (rewrite len_calculateLogLogSlope; lia).
  destruct (segmentSlopes_spec (calculateLogLogSlope Math_log10 x y)) as [Hchain _];
    [lia|].
  rewrite Hlen in Hchain. fold (identifyFlowRegimes Math_log10 x y) in Hchain.
  fold segs in Hchain.
  destruct (chain_bounds _ _ _ Hchain) as [_ Hb].
  split; [|split; [exact Hchain | split]].
  - intros Hnil. rewrite Hnil in Hchain. simpl in Hchain. lia.
  - intros seg Hin. specialize (Hb seg Hin). lia.
  - intros i Hi.
    destruct (chain_covers segs 0 (len x) i Hchain) as (seg & Hin & Hc); [lia|].
    exists seg. repeat split; try assumption; try apply Hc.
    intros seg' Hin' Hc'. exact (chain_disjoint _ _ _ i seg' seg Hchain Hin' Hin Hc' Hc).
Qed.

(** Two points: the segments [0,0] and [1,1]. *)
Lemma regime_segments_tile_witness :
  chain (identifyFlowRegimes log10_table [1; 10] [100; 1])%float 0 2.
Proof.
  apply (regime_segments_tile log10_table [1; 10]%float [100; 1]%float).
  reflexivity.
Defined.

(** C5 fails on the code at index 0.  For the points (1, 100) and (10, 1)
    the log-log slope at index 0 is -2, below -1.3, yet the segment that
    contains index 0 is infinite-acting, not depletion. *)
Lemma first_point_keeps_initial_regime :
  let x := [1; 10]%float in
  let y := [100; 1]%float in
  let slopes := calculateLogLogSlope log10_table x y in
  exists seg,
    In seg (identifyFlowRegimes log10_table x y) /\ contains seg 0 /\
    (aget slopes 0 <? -1.3)%float = true /\
    regime seg = infinite_acting /\ regime seg <> depletion.
Proof.
  eexists. split; [left; reflexivity|].
  repeat split; try discriminate; vm_compute; discriminate.
Qed.

(** C5, amended.  The segment that contains an index i >= 1 carries the
    regime the thresholds give to the point-wise slope at i; the segment that
    contains index 0 is infinite-acting whatever the slope at 0. *)
Theorem segment_regime_follows_slope
    (Math_log10 : number -> number) (x y : array)
    (seg : FlowRegimeSegment) (i : Z) :
  In seg (identifyFlowRegimes Math_log10 x y) ->
  contains seg i ->
  let slope := aget (calculateLogLogSlope Math_log10 x y) i in
  (i = 0 -> regime seg = infinite_acting) /\
  (1 <= i ->
     (gt slope (-0.3) = true -> regime seg = infinite_acting) /\
     (ge slope (-0.7) = true -> (slope <=? -0.3)%float = true ->
        regime seg = transition) /\
     (ge slope (-1.3) = true -> (slope <? -0.7)%float = true ->
        regime seg = boundary_dominated) /\
     ((slope <? -1.3)%float = true -> regime seg = depletion)).
Proof.
  intros Hin Hc slope.
  destruct (segmentSlopes_spec (calculateLogLogSlope Math_log10 x y)) as [_ Hreg].
  { rewrite len_calculateLogLogSlope. lia. }
  specialize (Hreg seg i Hin Hc). rewrite Hreg. unfold regimeAt. split.
  - intros ->. reflexivity.
  - intros Hi. destruct (Z.eqb_spec i 0) as [|_]; [lia|]. fold slope.
    repeat split.
    + apply classify_infinite_acting.
    + apply classify_transition.
    + apply classify_boundary_dominated.
    + apply classify_depletion.
Qed.

(** On the same two points, the slope at index 1 is -2 and the second
    segment is a depletion segment. *)
Lemma segment_regime_follows_slope_witness :
  regime (nth 1 (identifyFlowRegimes log10_table [1; 10] [100; 1])%float
            {| regime := transition; startIndex := 0; endIndex := 0;
               diagnosticSlope := None; confidence := low |}) = depletion.
Proof.
  apply (segment_regime_follows_slope log10_table [1; 10]%float [100; 1]%float _ 1).
  - right. left. reflexivity.
  - vm_compute. split; discriminate.
  - lia.
  - reflexivity.
Defined.

(** C9 fails on the code: on empty arrays the single segment does not end
    at -1. *)
Lemma empty_series_segment_is_not_0_to_minus_1 :
  ~ exists Math_log10 : number -> number,
      identifyFlowRegimes Math_log10 [] [] =
      [ {| regime := infinite_acting; startIndex := 0; endIndex := -1;
           diagnosticSlope := Some 0%float; confidence := medium |} ].
Proof.
  intros [Math_log10 H]. vm_compute in H. discriminate H.
Qed.

(** C9, amended.  On empty arrays [identifyFlowRegimes] returns exactly one
    segment: startIndex 0, endIndex 0, infinite-acting, diagnosticSlope 0,
    confidence medium.  (The slope array of an empty series has length 1.) *)
Theorem empty_series_single_segment (Math_log10 : number -> number) :
  identifyFlowRegimes Math_log10 [] [] =
  [ {| regime := infinite_acting; startIndex := 0; endIndex := 0;
       diagnosticSlope := Some 0%float; confidence := medium |} ].
Proof. reflexivity. Qed.

End BlasingameProps.

(* ================================================================== *)
(** * Properties of the type-curve matcher *)
(* ================================================================== *)

Module TypeCurveProps.
Import JS NumericalUtils Blasingame TypeCurve Props ArrayFacts FloatFacts.
Local Open Scope float_scope.
Local Open Scope Z_scope.

Lemma aget_nth (a : array) (k : nat) : aget a (Z.of_nat k) = nth k a nan.
Proof.
  unfold aget. destruct (Z.of_nat k <? 0) eqn:E; [apply Z.ltb_lt in E; lia|].
  now rewrite Nat2Z.id.
Qed.

Lemma aget_mapi (f : number -> Z -> number) (a : array) (i : Z) :
  0 <= i < len a -> aget (mapi f a) i = f (aget a i) i.
Proof.
  intros Hi. unfold len in Hi. unfold aget, mapi.
  destruct (i <? 0) eqn:E; [apply Z.ltb_lt in E; lia|].
  rewrite (nth_mapi_from f a 0 (Z.to_nat i) nan nan) by lia.
  f_equal. lia.
Qed.

Lemma len_mapi (f : number -> Z -> number) (a : array) : len (mapi f a) = len a.
Proof. unfold len, mapi. now rewrite length_mapi_from. Qed.

(** ** The pairs that survive the filter *)

Lemma validPairs_pair_ok (calculated theoretical : array) :
  Forall (fun p => pair_ok p = true) (validPairs calculated theoretical).
Proof.
  unfold validPairs. apply Forall_forall. intros p Hp.
  apply filter_In in Hp. tauto.
Qed.

Lemma length_validPairs (calculated theoretical : array) :
  (length (validPairs calculated theoretical) <= length calculated)%nat.
Proof.
  unfold validPairs, mapi.
  etransitivity; [apply filter_length_le|].
  now rewrite length_mapi_from.
Qed.

Lemma mapi_from_pairs_none (theoretical l : array) (i0 : Z) :
  (forall k, (k < length l)%nat ->
             pair_ok (nth k l nan, aget theoretical (i0 + Z.of_nat k)) = false) ->
  filter pair_ok (mapi_from i0 (fun c i => (c, aget theoretical i)) l) = [].
Proof.
  revert i0. induction l as [|c l IH]; intros i0 H; simpl; [reflexivity|].
  pose proof (H O ltac:(simpl; lia)) as H0. simpl in H0.
  rewrite Z.add_0_r in H0. rewrite H0. apply IH.
  intros k Hk. specialize (H (S k) ltac:(simpl; lia)). simpl nth in H.
  now replace (i0 + 1 + Z.of_nat k) with (i0 + Z.of_nat (S k)) by lia.
Qed.

Lemma validPairs_none (calculated theoretical : array) :
  (forall i, pair_ok (aget calculated i, aget theoretical i) = false) ->
  validPairs calculated theoretical = [].
Proof.
  intros H. unfold validPairs, mapi. apply mapi_from_pairs_none.
  intros k Hk. specialize (H (Z.of_nat k)). rewrite Z.add_0_l.
  now rewrite aget_nth in H.
Qed.

Lemma mapi_from_pairs_equal (c l : array) (i0 : Z) :
  (forall k, (k < length l)%nat -> nth k l nan = aget c (i0 + Z.of_nat k)) ->
  Forall (fun p => fst p = snd p) (mapi_from i0 (fun v i => (v, aget c i)) l).
Proof.
  revert i0. induction l as [|v l IH]; intros i0 H; simpl; constructor.
  - specialize (H O ltac:(simpl; lia)). simpl in H. now rewrite Z.add_0_r in H.
  - apply IH. intros k Hk. specialize (H (S k) ltac:(simpl; lia)). simpl nth in H.
    now replace (i0 + 1 + Z.of_nat k) with (i0 + Z.of_nat (S k)) by lia.
Qed.

(** In a perfect match every surviving pair has equal, finite components. *)
Lemma validPairs_perfect (c : array) :
  Forall (fun p => fst p = snd p /\ isFinite (fst p) = true) (validPairs c c).
Proof.
  apply Forall_forall. intros p Hp. unfold validPairs in Hp.
  apply filter_In in Hp. destruct Hp as [Hin Hok]. split.
  - assert (H : Forall (fun p => fst p = snd p) (mapi (fun v i => (v, aget c i)) c)).
    { apply mapi_from_pairs_equal. intros k _. now rewrite Z.add_0_l, aget_nth. }
    rewrite Forall_forall in H. exact (H p Hin).
  - unfold pair_ok in Hok.
    repeat (apply andb_prop in Hok; destruct Hok as [Hok ?]). exact Hok.
Qed.

(** ** The sums *)

Lemma accumulate_perfect (mean : number) (pairs : list (number * number)) (acc : sums) :
  Forall (fun p => fst p = snd p /\ isFinite (fst p) = true) pairs ->
  ssRes acc = 0%float -> sumAbsError acc = 0%float ->
  ssRes (fold_left (accumulate mean) pairs acc) = 0%float /\
  sumAbsError (fold_left (accumulate mean) pairs acc) = 0%float.
Proof.
  intros Hall. revert acc.
  induction Hall as [|p pairs [Heq Hfin] _ IH]; intros acc Hres Habs; simpl.
  - auto.
  - apply IH; unfold accumulate; simpl.
    + rewrite Hres, <- Heq, (sub_diag_finite _ Hfin). reflexivity.
    + rewrite Habs, <- Heq, (sub_diag_finite _ Hfin). reflexivity.
Qed.

Lemma sumsOf_perfect (c : array) :
  ssRes (sumsOf (validPairs c c)) = 0%float /\
  sumAbsError (sumsOf (validPairs c c)) = 0%float.
Proof.
  unfold sumsOf. apply accumulate_perfect; [apply validPairs_perfect | | ]; reflexivity.
Qed.

(** ** Match quality *)

(** C10.  When the calculated or the theoretical array is empty, or no
    index has both values finite and strictly positive,
    [calculateMatchQuality] returns exactly (rSquared 0, rmse 0, mae 0). *)
Theorem degenerate_match_is_all_zero (calculated theoretical : array) :
  calculated = [] \/ theoretical = [] \/
  (forall i,
     isFinite (aget calculated i) && isFinite (aget theoretical i) &&
     gt (aget calculated i) 0 && gt (aget theoretical i) 0 = false) ->
  calculateMatchQuality calculated theoretical =
  {| rSquared := 0; rmse := 0; mae := 0 |}.
Proof.
  intros H. unfold calculateMatchQuality.
  destruct ((len calculated =? 0) || (len theoretical =? 0)) eqn:Hguard;
    [reflexivity|].
  destruct H as [-> | [-> | H]].
  - discriminate Hguard.
  - rewrite orb_true_r in Hguard. discriminate Hguard.
  - rewrite (validPairs_none calculated theoretical H). reflexivity.
Qed.

(** No index has both values finite and positive: NaN at 0, -1 at 1. *)
Lemma degenerate_match_is_all_zero_witness :
  calculateMatchQuality [nan; (-1)%float] [1%float; 1%float] =
  {| rSquared := 0; rmse := 0; mae := 0 |}.
Proof.
  apply degenerate_match_is_all_zero. right. right. intros i.
  destruct (Z.eq_dec i 0) as [->|H0]; [reflexivity|].
  destruct (Z.eq_dec i 1) as [->|H1]; [reflexivity|].
  rewrite (aget_outside [nan; (-1)%float] i); [reflexivity|].
  unfold len. simpl. lia.
Defined.

(** C7 fails on the code: a perfect match of a single surviving point has
    SStot = 0, and is reported with rSquared 0, not 1. *)
Lemma perfect_match_of_one_point_scores_zero :
  validPairs [2%float] [2%float] = [(2%float, 2%float)] /\
  rSquared (calculateMatchQuality [2%float] [2%float]) = 0%float /\
  rSquared (calculateMatchQuality [2%float] [2%float]) <> 1%float.
Proof.
  split; [reflexivity|]. split; [reflexivity|].
  intros H. vm_compute in H.
  assert (E : (0 =? 1)%float = true) by (rewrite H; reflexivity).
  discriminate E.
Qed.

(** The clamp [Math.max(0, Math.min(1, r))]: a NaN passes through it; any
    other number lands in [0, 1], a negative one on 0. *)
Lemma clamp_nan : Math_max 0 (Math_min 1 nan) = nan.
Proof. reflexivity. Qed.

Lemma clamp_number (r : number) :
  is_nan r = false ->
  let v := Math_max 0 (Math_min 1 r) in
  (0 <=? v)%float = true /\ (v <=? 1)%float = true /\
  ((r <? 0)%float = true -> v = 0%float).
Proof.
  intros Hnan.
  assert (Hmin : Math_min 1 r = if (1 <? r)%float then 1%float else r).
  { unfold Math_min. rewrite Hnan. change (is_nan 1) with false.
    change (is_zero 1 && get_sign 1) with false. cbn [orb].
    destruct (1 <? r)%float; [reflexivity|]. destruct (r <? 1)%float; reflexivity. }
  cbv zeta. rewrite Hmin. destruct (1 <? r)%float eqn:E1.
  - repeat split. intros Hneg. exfalso.
    assert (F : (1 <? r)%float = false) by float_order. congruence.
  - assert (Hmax : Math_max 0 r = if (0 <? r)%float then r else 0%float).
    { unfold Math_max. rewrite Hnan. change (is_nan 0) with false.
      change (is_zero 0 && get_sign 0) with false. cbn [orb].
      destruct (0 <? r)%float; [reflexivity|]. destruct (r <? 0)%float; reflexivity. }
    rewrite Hmax. destruct (0 <? r)%float eqn:E0.
    + split; [|split].
      * apply leb_rank. apply ltb_rank in E0. tauto.
      * apply leb_rank. rewrite is_nan_spec in Hnan.
        split; [exact Hnan|]. split; [reflexivity|].
        assert (Hn : ~ FloatShape.lex_lt (FloatShape.rank (Prim2SF 1))
                                          (FloatShape.rank (Prim2SF r))).
        { intros Hlt. assert (T : (1 <? r)%float = true)
            by (apply ltb_rank; repeat split; assumption).
          congruence. }
        revert Hn. rank_of_constants.
        destruct (FloatShape.rank (Prim2SF r)) as [[a b] c].
        unfold FloatShape.lex_lt. intros Hn.
        match goal with
        | |- _ \/ (_, _, _) = (?x, ?y, ?z) =>
            destruct (Z.eq_dec a x) as [->|Ha]; [|left; lia];
            destruct (Z.eq_dec b y) as [->|Hb]; [|left; lia];
            destruct (Z.eq_dec c z) as [->|Hc]; [right; reflexivity | left; lia]
        end.
      * intros Hneg. exfalso.
        assert (F : (0 <? r)%float = false) by float_order. congruence.
    + repeat split.
Qed.

(** Unless the raw R² is NaN, the reported rSquared lies in [0, 1], and it
    is exactly 0 when the raw R² is negative. *)
Lemma rSquared_clamped_unless_nan (calculated theoretical : array) :
  is_nan (rawRSquared (validPairs calculated theoretical)) = false ->
  let q := calculateMatchQuality calculated theoretical in
  (0 <=? rSquared q)%float = true /\ (rSquared q <=? 1)%float = true /\
  ((rawRSquared (validPairs calculated theoretical) <? 0)%float = true ->
   rSquared q = 0%float).
Proof.
  intros Hnan. unfold calculateMatchQuality.
  destruct ((len calculated =? 0) || (len theoretical =? 0)); [repeat split|].
  destruct (Z.of_nat (length (validPairs calculated theoretical)) =? 0);
    [repeat split|].
  cbn [rSquared]. exact (clamp_number _ Hnan).
Qed.

(** C8 fails on the code.  For calculated = [1e200, 1] and theoretical =
    [1, 1] both sums of squares overflow to Infinity, the raw R² is
    Infinity / Infinity = NaN, and [Math.max(0, Math.min(1, NaN))] is NaN:
    the reported rSquared is not in [0, 1]. *)
Theorem rSquared_escapes_the_clamp :
  let calculated := [1e200%float; 1%float] in
  let theoretical := [1%float; 1%float] in
  let q := calculateMatchQuality calculated theoretical in
  ssRes (sumsOf (validPairs calculated theoretical)) = infinity /\
  ssTot (sumsOf (validPairs calculated theoretical)) = infinity /\
  rSquared q = nan /\
  (0 <=? rSquared q)%float = false /\
  (rSquared q <=? 1)%float = false.
Proof. repeat split. Qed.

(** ** Configuration errors *)

Lemma len_datesToDays (ds : list Date) : len (datesToDays ds) = Z.of_nat (length ds).
Proof.
  destruct ds as [|d0 ds]; [reflexivity|].
  unfold datesToDays. now rewrite len_map.
Qed.

(** C2 fails on the code.  Series of mismatched lengths and a kh <= 0 are
    both accepted: neither call throws. *)
Lemma configuration_errors_are_not_thrown :
  length (dates mismatched) <> length (rates mismatched) /\
  length (rates mismatched) <> length (cumulativeProduction mismatched) /\
  (kh badParams <=? 0)%float = true /\
  ~ (exists Math_log : number -> number,
       calculate Math_log mismatched = Throw) /\
  ~ (exists Math_exp : number -> number,
       generateTheoreticalCurves Math_exp threePoints badParams = Throw).
Proof.
  repeat split; try discriminate; intros [f H]; discriminate H.
Qed.

End TypeCurveProps.

(* ================================================================== *)
(** * Further facts about binary64 numbers: signs and NaN *)
(* ================================================================== *)

Module FloatSignFacts.
Import JS FloatShape Shapes FloatFacts.
Local Open Scope float_scope.

(** Rounding a non-negative integer mantissa never produces NaN, and keeps
    the sign it is given. *)
Lemma shr_1_nonneg (mrs : shr_record) :
  (0 <= shr_m mrs)%Z -> (0 <= shr_m (shr_1 mrs))%Z.
Proof.
  destruct mrs as [m r s]. simpl. intros Hm.
  destruct m as [|[p|p|]|[p|p|]]; simpl; lia.
Qed.

Lemma iter_pos_shr_1_nonneg (p : positive) (mrs : shr_record) :
  (0 <= shr_m mrs)%Z -> (0 <= shr_m (iter_pos shr_1 p mrs))%Z.
Proof.
  revert mrs. induction p as [p IH|p IH|]; intros mrs Hm; simpl.
  - apply IH, IH, shr_1_nonneg, Hm.
  - apply IH, IH, Hm.
  - apply shr_1_nonneg, Hm.
Qed.

Lemma shr_fexp_nonneg (m e : Z) (l : location) :
  (0 <= m)%Z -> (0 <= shr_m (fst (shr_fexp prec emax m e l)))%Z.
Proof.
  intros Hm. unfold shr_fexp, shr.
  assert (H0 : (0 <= shr_m (shr_record_of_loc m l))%Z)
    by (destruct l as [|[]]; exact Hm).
  destruct (fexp prec emax (Zdigits2 m + e) - e)%Z; simpl; try exact H0.
  apply iter_pos_shr_1_nonneg, H0.
Qed.

Lemma round_nearest_even_nonneg (m : Z) (l : location) :
  (0 <= m)%Z -> (0 <= round_nearest_even m l)%Z.
Proof.
  intros Hm. destruct l as [|[]]; simpl; try lia.
  destruct (Z.even m); lia.
Qed.

Lemma binary_round_aux_signed (sx : bool) (mx ex : Z) (lx : location) :
  (0 <= mx)%Z -> signedS sx (binary_round_aux prec emax sx mx ex lx) = true.
Proof.
  intros Hm. unfold binary_round_aux.
  pose proof (shr_fexp_nonneg mx ex lx Hm) as H1.
  destruct (shr_fexp prec emax mx ex lx) as [mrs' e'] eqn:E1. simpl in H1.
  pose proof (shr_fexp_nonneg
                (round_nearest_even (shr_m mrs') (loc_of_shr_record mrs')) e' loc_Exact
                (round_nearest_even_nonneg _ _ H1)) as H2.
  destruct (shr_fexp prec emax _ e' loc_Exact) as [mrs'' e''] eqn:E2. simpl in H2.
  destruct (shr_m mrs'') as [|p|p]; try lia.
  - simpl. apply Bool.eqb_reflx.
  - destruct (e'' <=? emax - prec)%Z; simpl; apply Bool.eqb_reflx.
Qed.

Lemma binary_round_signed (sx : bool) (mx : positive) (ex : Z) :
  signedS sx (binary_round prec emax sx mx ex) = true.
Proof.
  unfold binary_round.
  destruct (shl_align mx ex _) as [mz ez].
  apply binary_round_aux_signed. lia.
Qed.

Lemma signedS_not_nan (s : bool) (f : spec_float) :
  signedS s f = true -> is_nanS f = false.
Proof. destruct f; simpl; congruence. Qed.

Lemma signedS_false_nonneg (f : spec_float) : signedS false f = nonnegS f.
Proof. destruct f as [[]|[]| |[] m e]; reflexivity. Qed.

Lemma binary_normalize_not_nan (m e : Z) (sz : bool) :
  is_nanS (binary_normalize prec emax m e sz) = false.
Proof.
  destruct m as [|p|p]; simpl; [reflexivity| |];
    eapply signedS_not_nan, binary_round_signed.
Qed.

Lemma binary_normalize_nonneg (m e : Z) :
  (0 <= m)%Z -> nonnegS (binary_normalize prec emax m e false) = true.
Proof.
  intros Hm. destruct m as [|p|p]; simpl; [reflexivity| |lia].
  rewrite <- signedS_false_nonneg. apply binary_round_signed.
Qed.

(** The operations of the match-quality sums, on shapes. *)
Lemma SFsub_finite_not_nan (a b : spec_float) :
  finiteS a = true -> finiteS b = true -> is_nanS (SF64sub a b) = false.
Proof.
  unfold SF64sub, SFsub.
  destruct a as [sa|sa| |sa ma ea], b as [sb|sb| |sb mb eb]; try discriminate; intros _ _.
  - destruct sa, sb; reflexivity.
  - reflexivity.
  - reflexivity.
  - apply binary_normalize_not_nan.
Qed.

Lemma SFsub_finite_nonneg_not_nan (a b : spec_float) :
  finiteS a = true -> nonnegS b = true -> is_nanS (SF64sub a b) = false.
Proof.
  unfold SF64sub, SFsub.
  destruct a as [sa|sa| |sa ma ea], b as [[]|[]| |[] mb eb]; try discriminate; intros _ _;
    try reflexivity; try (destruct sa; reflexivity).
  apply binary_normalize_not_nan.
Qed.

Lemma SFmul_self_nonneg (r : spec_float) :
  is_nanS r = false -> nonnegS (SF64mul r r) = true.
Proof.
  unfold SF64mul, SFmul. destruct r as [s|s| |s m e]; try discriminate; intros _.
  - destruct s; reflexivity.
  - destruct s; reflexivity.
  - rewrite <- signedS_false_nonneg.
    replace (xorb s s) with false by (destruct s; reflexivity).
    apply binary_round_aux_signed. lia.
Qed.

Lemma SFabs_nonneg (r : spec_float) :
  is_nanS r = false -> nonnegS (SFabs r) = true.
Proof. destruct r; simpl; congruence. Qed.

Lemma SFadd_nonneg (a b : spec_float) :
  nonnegS a = true -> nonnegS b = true -> nonnegS (SF64add a b) = true.
Proof.
  unfold SF64add, SFadd.
  destruct a as [[]|[]| |[] ma ea], b as [[]|[]| |[] mb eb]; try discriminate;
    intros _ _; try reflexivity.
  apply binary_normalize_nonneg. simpl. lia.
Qed.

Lemma SFdiv_core_binary_nonneg (ma mb : positive) (ea eb : Z) :
  (0 <= fst (fst (SFdiv_core_binary prec emax (Z.pos ma) ea (Z.pos mb) eb)))%Z.
Proof.
  unfold SFdiv_core_binary.
  set (m' := match (ea - eb - _)%Z with Z0 => _ | Zpos _ => _ | Zneg _ => _ end).
  assert (Hm' : (0 <= m')%Z).
  { unfold m'. destruct (ea - eb - _)%Z; try lia. apply Z.shiftl_nonneg. lia. }
  pose proof (Z.div_pos m' (Z.pos mb) Hm' ltac:(lia)) as Hq.
  unfold Z.div in Hq. destruct (Z.div_eucl m' (Z.pos mb)) as [q r]. exact Hq.
Qed.

(** A non-negative number divided by a positive one is NaN only as
    Infinity / Infinity, and is non-negative otherwise. *)
Lemma SFdiv_nonneg_positive (a b : spec_float) :
  nonnegS a = true -> positiveS b = true ->
  match a, b with
  | S754_infinity _, S754_infinity _ => SF64div a b = S754_nan
  | _, _ => nonnegS (SF64div a b) = true
  end.
Proof.
  unfold SF64div, SFdiv.
  destruct a as [[]|[]| |[] ma ea], b as [[]|[]| |[] mb eb]; try discriminate;
    intros _ _; try reflexivity.
  pose proof (SFdiv_core_binary_nonneg ma mb ea eb) as Hmz.
  destruct (SFdiv_core_binary prec emax (Z.pos ma) ea (Z.pos mb) eb) as [[mz ez] lz].
  simpl in Hmz. rewrite <- signedS_false_nonneg.
  apply (binary_round_aux_signed false mz ez lz Hmz).
Qed.

Lemma SFsqrt_nonneg (a : spec_float) :
  nonnegS a = true -> nonnegS (SF64sqrt a) = true.
Proof.
  unfold SF64sqrt, SFsqrt.
  destruct a as [[]|[]| |[] m e]; try discriminate; intros _; try reflexivity.
  destruct (SFsqrt_core_binary prec emax (Z.pos m) e) as [[mz ez] lz] eqn:E.
  assert (Hmz : (0 <= mz)%Z).
  { unfold SFsqrt_core_binary in E.
    set (m' := match (e - 2 * _)%Z with Z0 => _ | Zpos _ => _ | Zneg _ => _ end) in E.
    pose proof (Z.sqrtrem_spec m') as Hs.
    assert (Hm' : (0 <= m')%Z).
    { unfold m'. destruct (e - 2 * _)%Z; try lia. apply Z.shiftl_nonneg. lia. }
    specialize (Hs Hm'). destruct (Z.sqrtrem m') as [q r].
    inversion E. subst. lia. }
  rewrite <- signedS_false_nonneg.
  apply (binary_round_aux_signed false mz ez lz Hmz).
Qed.

(** Shapes of numbers, read back on the comparisons the code makes. *)
Lemma nonnegS_spec (x : float) :
  nonnegS (Prim2SF x) = true -> is_nan x = false /\ (0 <=? x) = true.
Proof.
  intros H. rewrite is_nan_spec, FloatAxioms.leb_spec.
  change (Prim2SF 0) with (S754_zero false).
  destruct (Prim2SF x) as [[]|[]| |[] m e]; try discriminate; split; reflexivity.
Qed.

Lemma pair_ok_shapes (p : number * number) :
  TypeCurve.pair_ok p = true ->
  finiteS (Prim2SF (fst p)) = true /\ finiteS (Prim2SF (snd p)) = true /\
  positiveS (Prim2SF (fst p)) = true /\ positiveS (Prim2SF (snd p)) = true.
Proof.
  unfold TypeCurve.pair_ok, isFinite. rewrite !is_finite_spec, !gt_zero_spec.
  intros H. repeat (apply andb_prop in H; destruct H as [H ?]). tauto.
Qed.

Lemma positive_finite_nonneg (f : spec_float) :
  positiveS f = true -> nonnegS f = true.
Proof. destruct f as [[]|[]| |[] m e]; simpl; congruence. Qed.

End FloatSignFacts.

(* ================================================================== *)
(** * Further facts about loops that fill or select *)
(* ================================================================== *)

Module LoopFacts.
Import JS Shapes ArrayFacts.
Local Open Scope Z_scope.

Lemma for_steps_ext {St : Type} (body1 body2 : Z -> St -> St) (k : nat) (lo : Z) (s : St) :
  (forall i s, body1 i s = body2 i s) ->
  for_steps k lo body1 s = for_steps k lo body2 s.
Proof.
  intros H. revert lo s. induction k as [|k IH]; intros lo s; simpl; [reflexivity|].
  now rewrite H, IH.
Qed.

Lemma for_range_ext {St : Type} (body1 body2 : Z -> St -> St) (lo hi : Z) (s : St) :
  (forall i s, body1 i s = body2 i s) ->
  for_range lo hi body1 s = for_range lo hi body2 s.
Proof. intros H. unfold for_range. now apply for_steps_ext. Qed.

(** A loop that writes [f i] at every index [i] of [lo .. hi-1], inside the
    array: those entries hold [f i], the others and the length are
    untouched. *)
Lemma for_range_fill (f : Z -> number) (lo hi : Z) (a0 : array) :
  0 <= lo -> hi <= len a0 ->
  let r := for_range lo hi (fun i a => aset a i (f i)) a0 in
  len r = len a0 /\
  (forall j, lo <= j < hi -> aget r j = f j) /\
  (forall j, j < lo \/ hi <= j -> aget r j = aget a0 j).
Proof.
  intros Hlo Hhi r. subst r.
  destruct (Z.le_gt_cases lo hi) as [Hle|Hgt].
  - apply (for_range_invariant
             (fun i a =>
                len a = len a0 /\
                (forall j, lo <= j < i -> aget a j = f j) /\
                (forall j, j < lo \/ i <= j -> aget a j = aget a0 j))).
    + exact Hle.
    + repeat split; auto. intros j Hj. lia.
    + intros i a Hi (Hlen & Hin & Hout). repeat split.
      * rewrite len_aset_inside; lia.
      * intros j Hj. destruct (Z.eq_dec j i) as [->|Hne].
        -- apply aget_aset_same. lia.
        -- rewrite aget_aset_other by lia. apply Hin. lia.
      * intros j Hj. rewrite aget_aset_other by lia. apply Hout. lia.
  - rewrite for_range_empty by lia. repeat split; auto. intros j Hj. lia.
Qed.

(** The indices [0 .. n-1]. *)
Lemma length_indices (n : nat) : length (indices n) = n.
Proof. unfold indices. now rewrite length_map, length_seq. Qed.

Lemma indices_S (n : nat) : indices (S n) = indices n ++ [Z.of_nat n].
Proof. unfold indices. rewrite seq_S, map_app. reflexivity. Qed.

Lemma In_indices (n : nat) (i : Z) : In i (indices n) <-> 0 <= i < Z.of_nat n.
Proof.
  unfold indices. rewrite in_map_iff. split.
  - intros (k & <- & Hk). apply in_seq in Hk. lia.
  - intros Hi. exists (Z.to_nat i). split; [lia|]. apply in_seq. lia.
Qed.

Lemma nth_indices (n k : nat) : (k < n)%nat -> nth k (indices n) 0 = Z.of_nat k.
Proof.
  intros Hk. unfold indices.
  change 0 with (Z.of_nat 0). rewrite map_nth, seq_nth by exact Hk. reflexivity.
Qed.

(** Reading a list back through its indices gives the list. *)
Lemma map_indices_nth {A : Type} (f : Z -> A) (l : list A) (d : A) :
  (forall k, (k < length l)%nat -> f (Z.of_nat k) = nth k l d) ->
  map f (indices (length l)) = l.
Proof.
  intros H. apply (nth_ext _ _ (f 0) d).
  - now rewrite length_map, length_indices.
  - intros k Hk. rewrite length_map, length_indices in Hk.
    rewrite (map_nth f (indices (length l)) 0 k), nth_indices by exact Hk.
    now apply H.
Qed.

Lemma map_aget_indices (a : array) : map (aget a) (indices (length a)) = a.
Proof.
  apply (map_indices_nth (aget a) a nan). intros k _.
  unfold aget. destruct (Z.of_nat k <? 0) eqn:E; [apply Z.ltb_lt in E; lia|].
  now rewrite Nat2Z.id.
Qed.

(** A loop that appends the selected indices of [0 .. n-1] computes a
    filter. *)
Lemma for_range_select (ok : Z -> bool) {A : Type} (f : Z -> A) (n : nat) :
  for_range 0 (Z.of_nat n)
    (fun i acc => if ok i then acc ++ [f i] else acc) [] =
  map f (filter ok (indices n)).
Proof.
  unfold for_range. rewrite Z.sub_0_r, Nat2Z.id.
  assert (H : forall k, (k <= n)%nat ->
            for_steps k 0 (fun i acc => if ok i then acc ++ [f i] else acc) [] =
            map f (filter ok (indices k))).
  { induction k as [|k IH]; intros Hk; [reflexivity|].
    assert (Hsnoc : forall {St : Type} (body : Z -> St -> St) j lo (s : St),
              for_steps (S j) lo body s =
              body (lo + Z.of_nat j) (for_steps j lo body s)).
    { intros St body j. induction j as [|j IHj]; intros lo s.
      - simpl. now rewrite Z.add_0_r.
      - change (for_steps (S (S j)) lo body s)
          with (for_steps (S j) (lo + 1) body (body lo s)).
        rewrite IHj. simpl for_steps. f_equal. lia. }
    rewrite Hsnoc, IH by lia. simpl (0 + _).
    rewrite indices_S, filter_app, map_app. simpl.
    destruct (ok (Z.of_nat k)); simpl; [reflexivity | now rewrite !app_nil_r]. }
  now apply H.
Qed.

Lemma filter_all {A : Type} (ok : A -> bool) (l : list A) :
  Forall (fun x => ok x = true) l -> filter ok l = l.
Proof.
  induction 1 as [|x l Hx _ IH]; simpl; [reflexivity|]. now rewrite Hx, IH.
Qed.

(** The selected indices grow strictly. *)
Lemma filter_indices_increasing (ok : Z -> bool) (n j k : nat) :
  (j < k)%nat -> (k < length (filter ok (indices n)))%nat ->
  nth j (filter ok (indices n)) 0 < nth k (filter ok (indices n)) 0.
Proof.
  unfold indices. generalize 0%nat as lo. revert j k.
  induction n as [|n IH]; intros j k lo Hjk Hk; simpl in *; [lia|].
  assert (Hge : forall m i, In i (filter ok (map Z.of_nat (seq (S lo) m))) ->
                            Z.of_nat lo < i).
  { intros m i Hi. apply filter_In in Hi. destruct Hi as [Hi _].
    apply in_map_iff in Hi. destruct Hi as (q & <- & Hq). apply in_seq in Hq. lia. }
  destruct (ok (Z.of_nat lo)); simpl in *.
  - destruct k as [|k]; [lia|]. destruct j as [|j].
    + apply (Hge n). apply nth_In. lia.
    + apply IH; lia.
  - apply IH; assumption.
Qed.

End LoopFacts.

(* ================================================================== *)
(** * Properties of numerical.utils.ts *)
(* ================================================================== *)

Module NumericalUtilsProps.
Import JS NumericalUtils Shapes FloatShape ArrayFacts FloatFacts LoopFacts.
Local Open Scope Z_scope.

(** NaN absorbs a subtraction and a division. *)
Lemma sub_nan_r (x : number) : (x - nan)%float = nan.
Proof.
  apply Prim2SF_inj. rewrite sub_spec. change (Prim2SF nan) with S754_nan.
  destruct (Prim2SF x); reflexivity.
Qed.

Lemma sub_nan_l (x : number) : (nan - x)%float = nan.
Proof.
  apply Prim2SF_inj. rewrite sub_spec. change (Prim2SF nan) with S754_nan.
  destruct (Prim2SF x); reflexivity.
Qed.

Lemma div_nan_l (x : number) : (nan / x)%float = nan.
Proof.
  apply Prim2SF_inj. rewrite div_spec. change (Prim2SF nan) with S754_nan.
  destruct (Prim2SF x); reflexivity.
Qed.

Lemma div_nan_r (x : number) : (x / nan)%float = nan.
Proof.
  apply Prim2SF_inj. rewrite div_spec. change (Prim2SF nan) with S754_nan.
  destruct (Prim2SF x); reflexivity.
Qed.

(** ** trapezoidalIntegrate *)

Lemma trapezoidalIntegrate_spec (x y : array) :
  let integral := trapezoidalIntegrate x y in
  len integral = Z.max (len x) 1 /\
  aget integral 0 = 0%float /\
  forall i, 1 <= i < len x ->
    aget integral i =
    (aget integral (i - 1) +
     (aget y i + aget y (i - 1)) / 2 * (aget x i - aget x (i - 1)))%float.
Proof.
  unfold trapezoidalIntegrate.
  destruct (Z_le_gt_dec 1 (len x)) as [Hn|Hn].
  - replace (Z.max (len x) 1) with (len x) by lia.
    apply (for_range_invariant
             (fun i a =>
                len a = i /\ aget a 0 = 0%float /\
                forall j, 1 <= j < i ->
                  aget a j =
                  (aget a (j - 1) +
                   (aget y j + aget y (j - 1)) / 2 * (aget x j - aget x (j - 1)))%float)).
    + exact Hn.
    + repeat split. intros j Hj. lia.
    + intros i a Hi (Hlen & H0 & Hrec). repeat split.
      * rewrite len_aset. destruct (i <? 0) eqn:E; [apply Z.ltb_lt in E|]; lia.
      * rewrite aget_aset_other by lia. exact H0.
      * intros j Hj. destruct (Z.eq_dec j i) as [->|Hne].
        -- rewrite aget_aset_same by lia.
           now rewrite (aget_aset_other a i (i - 1)) by lia.
        -- rewrite (aget_aset_other a i j), (aget_aset_other a i (j - 1)) by lia.
           apply Hrec. lia.
  - rewrite for_range_empty by lia. pose proof (len_nonneg x).
    split; [|split; [reflexivity | intros i Hi; lia]].
    change (len (aset [] 0 0%float)) with 1. lia.
Qed.

(** X1.  [trapezoidalIntegrate x y] has one entry per entry of [x], and one
    entry for an empty [x]; its entry 0 is 0 and every later entry adds the
    trapezoid between the two points to the entry before it. *)
Theorem trapezoidalIntegrate_recurrence (x y : array) :
  let integral := trapezoidalIntegrate x y in
  len integral = Z.max (len x) 1 /\
  aget integral 0 = 0%float /\
  forall i, 1 <= i < len x ->
    aget integral i =
    (aget integral (i - 1) +
     (aget y i + aget y (i - 1)) / 2 * (aget x i - aget x (i - 1)))%float.
Proof. exact (trapezoidalIntegrate_spec x y). Qed.

Lemma trapezoidalIntegrate_recurrence_witness :
  aget (trapezoidalIntegrate [0; 1; 3]%float [2; 4; 6]%float) 2 = 13%float.
Proof.
  destruct (trapezoidalIntegrate_recurrence [0; 1; 3]%float [2; 4; 6]%float)
    as (_ & _ & Hrec).
  apply (Hrec 2). vm_compute. split; [discriminate | reflexivity].
Defined.

(** ** datesToDays *)

Lemma aget_datesToDays (d0 : Date) (ds : list Date) (i : Z) :
  0 <= i < Z.of_nat (length (d0 :: ds)) ->
  aget (datesToDays (d0 :: ds)) i =
  ((getTime (nth (Z.to_nat i) (d0 :: ds) d0) - getTime d0) / (1000 * 60 * 60 * 24))%float.
Proof.
  intros Hi. unfold datesToDays.
  now rewrite (aget_map _ (d0 :: ds) d0) by exact Hi.
Qed.

(** X2.  With a valid first date, [datesToDays] returns one number per
    date, the first of them exactly 0. *)
Theorem datesToDays_starts_at_zero (d0 : Date) (ds : list Date) :
  isFinite (getTime d0) = true ->
  len (datesToDays (d0 :: ds)) = Z.of_nat (length (d0 :: ds)) /\
  aget (datesToDays (d0 :: ds)) 0 = 0%float.
Proof.
  intros Hfin. split.
  - unfold datesToDays. now rewrite len_map.
  - rewrite aget_datesToDays by (simpl; lia). simpl nth.
    rewrite (sub_diag_finite _ Hfin). apply zero_div_positive. reflexivity.
Qed.

Lemma datesToDays_starts_at_zero_witness :
  aget (datesToDays [ {| getTime := 1672531200000 |}; {| getTime := 1672617600000 |} ]) 0
  = 0%float.
Proof.
  apply (datesToDays_starts_at_zero {| getTime := 1672531200000 |}
           [ {| getTime := 1672617600000 |} ]).
  reflexivity.
Defined.

(** X3.  An invalid first date (a NaN time) turns every day into NaN. *)
Theorem datesToDays_invalid_start (d0 : Date) (ds : list Date) (i : Z) :
  getTime d0 = nan ->
  0 <= i < len (datesToDays (d0 :: ds)) ->
  aget (datesToDays (d0 :: ds)) i = nan.
Proof.
  intros Hnan Hi.
  assert (Hlen : len (datesToDays (d0 :: ds)) = Z.of_nat (length (d0 :: ds)))
    by (unfold datesToDays; now rewrite len_map).
  rewrite aget_datesToDays by lia.
  now rewrite Hnan, sub_nan_r, div_nan_l.
Qed.

Lemma datesToDays_invalid_start_witness :
  aget (datesToDays [ {| getTime := nan |}; {| getTime := 1672617600000 |} ]) 1 = nan.
Proof.
  apply (datesToDays_invalid_start {| getTime := nan |} [ {| getTime := 1672617600000 |} ]).
  - reflexivity.
  - vm_compute. split; [discriminate | reflexivity].
Defined.

(** ** Forward, central and backward differences *)

(** The three writes shared by [logarithmicDerivative] and
    [calculateLogLogSlope] on a series of at least two points. *)
Lemma endpoints_and_interior (n : Z) (v0 vl : number) (f : Z -> number) :
  2 <= n ->
  let r := aset (for_range 1 (n - 1) (fun i a => aset a i (f i))
                   (aset (new_Array n) 0 v0))
                (n - 1) vl in
  len r = n /\ aget r 0 = v0 /\
  (forall i, 1 <= i < n - 1 -> aget r i = f i) /\
  aget r (n - 1) = vl.
Proof.
  intros Hn r. subst r.
  assert (H0 : len (aset (new_Array n) 0 v0) = n).
  { rewrite len_aset_inside; rewrite len_new_Array; lia. }
  destruct (for_range_fill f 1 (n - 1) (aset (new_Array n) 0 v0))
    as (Hlen & Hin & Hout); [lia | lia |].
  repeat split.
  - rewrite len_aset_inside; lia.
  - rewrite aget_aset_other by lia. rewrite Hout by lia. apply aget_aset_same. lia.
  - intros i Hi. rewrite aget_aset_other by lia. now apply Hin.
  - apply aget_aset_same. lia.
Qed.

(** The same writes on fewer than two points leave a single entry. *)
Lemma endpoints_degenerate (n : Z) (v0 vl : number) (f : Z -> number) :
  0 <= n <= 1 ->
  aset (for_range 1 (n - 1) (fun i a => aset a i (f i))
          (aset (new_Array n) 0 v0))
       (n - 1) vl
  = [if n =? 1 then vl else v0].
Proof.
  intros Hn. rewrite for_range_empty by lia.
  assert (Hc : n = 0 \/ n = 1) by lia. destruct Hc as [-> | ->]; reflexivity.
Qed.

(** X4.  On at least two points [logarithmicDerivative] returns one value
    per point: the forward difference at the first point, the central
    difference at interior points, the backward difference at the last. *)
Theorem logarithmicDerivative_differences
    (Math_log : number -> number) (x y : array) :
  2 <= len x ->
  let n := len x in
  let d := logarithmicDerivative Math_log x y in
  len d = n /\
  aget d 0 = ((aget y 1 - aget y 0) / Math_log (aget x 1 / aget x 0))%float /\
  (forall i, 1 <= i < n - 1 ->
     aget d i =
     ((aget y (i + 1) - aget y (i - 1)) / Math_log (aget x (i + 1) / aget x (i - 1)))%float) /\
  aget d (n - 1) =
  ((aget y (n - 1) - aget y (n - 2)) / Math_log (aget x (n - 1) / aget x (n - 2)))%float.
Proof.
  intros Hn n d.
  exact (endpoints_and_interior (len x) _ _
           (fun i => ((aget y (i + 1) - aget y (i - 1)) /
                      Math_log (aget x (i + 1) / aget x (i - 1)))%float) Hn).
Qed.

Lemma logarithmicDerivative_differences_witness :
  len (logarithmicDerivative (fun v => v) [1; 2; 4]%float [8; 4; 2]%float) = 3.
Proof.
  apply (logarithmicDerivative_differences (fun v => v) [1; 2; 4]%float [8; 4; 2]%float).
  vm_compute. discriminate.
Defined.

(** X5.  On a single point [logarithmicDerivative] returns exactly [NaN],
    whatever [y] holds; on an empty series it still returns one entry. *)
Theorem logarithmicDerivative_degenerate
    (Math_log : number -> number) (x y : array) :
  (len x = 1 -> logarithmicDerivative Math_log x y = [nan]) /\
  (len x = 0 -> len (logarithmicDerivative Math_log x y) = 1).
Proof.
  unfold logarithmicDerivative. split; intros Hn.
  - rewrite (endpoints_degenerate (len x) _ _
               (fun i => ((aget y (i + 1) - aget y (i - 1)) /
                          Math_log (aget x (i + 1) / aget x (i - 1)))%float))
      by lia.
    rewrite Hn. simpl (1 =? 1). cbn iota.
    rewrite (aget_outside y (1 - 2)) by lia.
    now rewrite sub_nan_r, div_nan_l.
  - rewrite (endpoints_degenerate (len x) _ _
               (fun i => ((aget y (i + 1) - aget y (i - 1)) /
                          Math_log (aget x (i + 1) / aget x (i - 1)))%float))
      by lia.
    reflexivity.
Qed.

Lemma logarithmicDerivative_degenerate_witness :
  logarithmicDerivative (fun v => v) [3%float] [7%float] = [nan].
Proof.
  apply (logarithmicDerivative_degenerate (fun v => v) [3%float] [7%float]).
  reflexivity.
Defined.

(** ** movingAverage *)

Lemma movingAverage_fill (data : array) (windowSize : Z) :
  movingAverage data windowSize =
  for_range 0 (len data)
    (fun i smoothed =>
       aset smoothed i
         (let w := for_range (Z.max 0 (i - windowSize / 2))
                     (Z.min (len data - 1) (i + windowSize / 2) + 1)
                     (fun j '(sum, count) => (sum + aget data j, count + 1)%float)
                     (0%float, 0%float) in
          (fst w / snd w)%float))
    (new_Array (len data)).
Proof.
  unfold movingAverage. apply for_range_ext. intros i smoothed. cbv zeta.
  destruct (for_range _ _ _ _) as [sum count]. reflexivity.
Qed.

Lemma len_movingAverage (data : array) (windowSize : Z) :
  len (movingAverage data windowSize) = len data.
Proof.
  rewrite movingAverage_fill. pose proof (len_nonneg data) as Hn.
  destruct (for_range_fill
              (fun i =>
                 let w := for_range (Z.max 0 (i - windowSize / 2))
                            (Z.min (len data - 1) (i + windowSize / 2) + 1)
                            (fun j '(sum, count) => (sum + aget data j, count + 1)%float)
                            (0%float, 0%float) in
                 (fst w / snd w)%float)
              0 (len data) (new_Array (len data))) as (Hlen & _ & _);
    [lia | rewrite len_new_Array; lia |].
  rewrite Hlen, len_new_Array. lia.
Qed.

Lemma len_logarithmicDerivative (Math_log : number -> number) (x y : array) :
  len (logarithmicDerivative Math_log x y) = Z.max (len x) 1.
Proof.
  pose proof (len_nonneg x) as Hn. unfold logarithmicDerivative.
  destruct (Z_le_gt_dec 2 (len x)) as [H2|H2].
  - destruct (endpoints_and_interior (len x)
                ((aget y 1 - aget y 0) / Math_log (aget x 1 / aget x 0))%float
                ((aget y (len x - 1) - aget y (len x - 2)) /
                 Math_log (aget x (len x - 1) / aget x (len x - 2)))%float
                (fun i => ((aget y (i + 1) - aget y (i - 1)) /
                           Math_log (aget x (i + 1) / aget x (i - 1)))%float) H2)
      as (Hlen & _). rewrite Hlen. lia.
  - rewrite (endpoints_degenerate (len x) _ _
               (fun i => ((aget y (i + 1) - aget y (i - 1)) /
                          Math_log (aget x (i + 1) / aget x (i - 1)))%float))
      by lia.
    change (len [_]) with 1. lia.
Qed.

(** X6.  [movingAverage data 5] returns one value per point.  Away from the
    ends each value is the sum of the five neighbours, added from left to
    right, divided by 5; at both ends the window is clipped to the three
    points that exist. *)
Theorem movingAverage_window_of_five (data : array) :
  let n := len data in
  let smoothed := movingAverage data 5 in
  len smoothed = n /\
  (forall i, 2 <= i < n - 2 ->
     aget smoothed i =
     ((0 + aget data (i - 2) + aget data (i - 1) + aget data i +
       aget data (i + 1) + aget data (i + 2)) / 5)%float) /\
  (3 <= n ->
     aget smoothed 0 = ((0 + aget data 0 + aget data 1 + aget data 2) / 3)%float /\
     aget smoothed (n - 1) =
     ((0 + aget data (n - 3) + aget data (n - 2) + aget data (n - 1)) / 3)%float).
Proof.
  intros n smoothed. subst smoothed. rewrite movingAverage_fill.
  change (5 / 2) with 2. fold n. pose proof (len_nonneg data) as Hn. fold n in Hn.
  destruct (for_range_fill
              (fun i =>
                 let w := for_range (Z.max 0 (i - 2)) (Z.min (n - 1) (i + 2) + 1)
                            (fun j '(sum, count) => (sum + aget data j, count + 1)%float)
                            (0%float, 0%float) in
                 (fst w / snd w)%float)
              0 n (new_Array n)) as (Hlen & Hin & _);
    [lia | rewrite len_new_Array; lia |].
  split; [rewrite Hlen, len_new_Array; lia|]. split.
  - intros i Hi. rewrite Hin by lia. cbv zeta.
    rewrite Z.max_r, Z.min_r by lia. unfold for_range.
    replace (Z.to_nat (i + 2 + 1 - (i - 2))) with 5%nat by lia.
    cbn [for_steps fst snd].
    replace (i - 2 + 1) with (i - 1) by lia.
    replace (i - 1 + 1) with i by lia.
    replace (i + 1 + 1) with (i + 2) by lia.
    reflexivity.
  - intros H3. split.
    + rewrite Hin by lia. cbv zeta.
      rewrite Z.max_l, Z.min_r by lia. unfold for_range.
      replace (Z.to_nat (0 + 2 + 1 - 0)) with 3%nat by lia.
      reflexivity.
    + rewrite Hin by lia. cbv zeta.
      rewrite Z.max_r, Z.min_l by lia. unfold for_range.
      replace (Z.to_nat (n - 1 + 1 - (n - 1 - 2))) with 3%nat by lia.
      cbn [for_steps fst snd].
      replace (n - 1 - 2) with (n - 3) by lia.
      replace (n - 3 + 1) with (n - 2) by lia.
      replace (n - 2 + 1) with (n - 1) by lia.
      reflexivity.
Qed.

Lemma movingAverage_window_of_five_witness :
  aget (movingAverage [1; 2; 3; 4; 5; 6]%float 5) 2 = 3%float /\
  aget (movingAverage [1; 2; 3; 4; 5; 6]%float 5) 0 = 2%float.
Proof.
  destruct (movingAverage_window_of_five [1; 2; 3; 4; 5; 6]%float)
    as (_ & Hin & Hends).
  split.
  - apply (Hin 2). vm_compute. split; [discriminate | reflexivity].
  - apply Hends. vm_compute. discriminate.
Defined.

(** ** removeInvalidPoints *)

Lemma removeInvalidPoints_filter (x y : array) :
  let ok := fun i => isFinite (aget x i) && isFinite (aget y i) &&
                     gt (aget x i) 0 && gt (aget y i) 0 in
  removeInvalidPoints x y =
  (map (aget x) (filter ok (indices (length x))),
   map (aget y) (filter ok (indices (length x)))).
Proof.
  intros ok. unfold removeInvalidPoints.
  replace (length x) with (Z.to_nat (len x)) by (unfold len; lia).
  apply (for_range_invariant
           (fun i st =>
              st = (map (aget x) (filter ok (indices (Z.to_nat i))),
                    map (aget y) (filter ok (indices (Z.to_nat i)))))).
  - apply len_nonneg.
  - reflexivity.
  - intros i st Hi ->.
    replace (Z.to_nat (i + 1)) with (S (Z.to_nat i)) by lia.
    rewrite indices_S, filter_app, !map_app. simpl. rewrite Z2Nat.id by lia.
    fold (ok i). destruct (ok i); simpl; [reflexivity | now rewrite !app_nil_r].
Qed.

(** X7.  [removeInvalidPoints] returns two arrays of one length whose
    values are all finite and greater than zero, and cleaning them again
    changes nothing. *)
Theorem removeInvalidPoints_valid_and_stable (x y : array) :
  let r := removeInvalidPoints x y in
  len (fst r) = len (snd r) /\
  (forall j, 0 <= j < len (fst r) ->
     isFinite (aget (fst r) j) = true /\ gt (aget (fst r) j) 0 = true /\
     isFinite (aget (snd r) j) = true /\ gt (aget (snd r) j) 0 = true) /\
  removeInvalidPoints (fst r) (snd r) = r.
Proof.
  intros r. subst r. rewrite removeInvalidPoints_filter. cbv zeta.
  set (ok := fun i => isFinite (aget x i) && isFinite (aget y i) &&
                      gt (aget x i) 0 && gt (aget y i) 0).
  set (sel := filter ok (indices (length x))). cbn [fst snd].
  assert (Hsel : forall k, (k < length sel)%nat -> ok (nth k sel 0) = true).
  { intros k Hk. assert (Hin : In (nth k sel 0) sel) by now apply nth_In.
    apply filter_In in Hin. tauto. }
  assert (Hvalid : forall j, 0 <= j < Z.of_nat (length sel) ->
            isFinite (aget (map (aget x) sel) j) = true /\
            gt (aget (map (aget x) sel) j) 0 = true /\
            isFinite (aget (map (aget y) sel) j) = true /\
            gt (aget (map (aget y) sel) j) 0 = true).
  { intros j Hj. rewrite !(aget_map _ sel 0) by lia.
    specialize (Hsel (Z.to_nat j) ltac:(lia)). unfold ok in Hsel.
    repeat (apply andb_prop in Hsel; destruct Hsel as [Hsel ?]). tauto. }
  split; [now rewrite !len_map|]. split.
  - intros j Hj. rewrite len_map in Hj. now apply Hvalid.
  - rewrite removeInvalidPoints_filter. cbv zeta.
    rewrite filter_all.
    + f_equal; [apply map_aget_indices|].
      replace (length (map (aget x) sel)) with (length (map (aget y) sel))
        by now rewrite !length_map.
      apply map_aget_indices.
    + apply Forall_forall. intros j Hj. apply In_indices in Hj.
      rewrite length_map in Hj.
      destruct (Hvalid j Hj) as (H1 & H2 & H3 & H4). now rewrite H1, H2, H3, H4.
Qed.

Lemma removeInvalidPoints_valid_and_stable_witness :
  removeInvalidPoints [1; 3]%float [2; 4]%float = ([1; 3]%float, [2; 4]%float).
Proof.
  destruct (removeInvalidPoints_valid_and_stable [1; nan; 3]%float [2; 5; 4; 7]%float)
    as (_ & _ & H).
  exact H.
Defined.

End NumericalUtilsProps.

(* ================================================================== *)
(** * Further properties of the Blasingame transform *)
(* ================================================================== *)

Module BlasingameExtras.
Import JS NumericalUtils Blasingame Props Shapes FloatShape.
Import ArrayFacts FloatFacts FloatSignFacts LoopFacts NumericalUtilsProps.
Import BlasingameProps TypeCurveProps.
Local Open Scope Z_scope.

(** ** Cleaning *)

Lemma valid_indices_filter (data : Curves) :
  valid_indices data =
  filter (valid_at data) (indices (length (c_materialBalanceTime data))).
Proof.
  unfold valid_indices, len.
  rewrite (for_range_select (valid_at data) (fun i => i)). apply map_id.
Qed.

(** X8.  [cleanData] keeps exactly the indices at which all four values are
    finite and greater than zero, in increasing order, and its four arrays
    are the four inputs read at those indices. *)
Theorem cleanData_keeps_valid_points_in_order (data : Curves) :
  exists sel : list Z,
    (forall i, In i sel <->
               0 <= i < len (c_materialBalanceTime data) /\ valid_at data i = true) /\
    (forall j k, (j < k)%nat -> (k < length sel)%nat -> nth j sel 0 < nth k sel 0) /\
    cleanData data =
    {| c_materialBalanceTime := map (aget (c_materialBalanceTime data)) sel;
       c_qDd := map (aget (c_qDd data)) sel;
       c_qDdi := map (aget (c_qDdi data)) sel;
       c_qDdid := map (aget (c_qDdid data)) sel |}.
Proof.
  exists (valid_indices data). rewrite valid_indices_filter. split; [|split].
  - intros i. rewrite filter_In, In_indices. reflexivity.
  - intros j k. apply filter_indices_increasing.
  - unfold cleanData. now rewrite valid_indices_filter.
Qed.

(** X9.  Cleaning is idempotent. *)
Theorem cleanData_idempotent (data : Curves) :
  cleanData (cleanData data) = cleanData data.
Proof.
  destruct (cleanData_parallel data) as (H12 & H23 & H34 & Hok).
  set (c := cleanData data) in *.
  assert (Hall : Forall (fun i => valid_at c i = true)
                        (indices (length (c_materialBalanceTime c)))).
  { apply Forall_forall. intros i Hi. apply In_indices in Hi.
    destruct (Hok i Hi) as ((A1 & A2) & (B1 & B2) & (C1 & C2) & (D1 & D2)).
    unfold valid_at. now rewrite A1, A2, B1, B2, C1, C2, D1, D2. }
  unfold cleanData at 1. rewrite valid_indices_filter, (filter_all _ _ Hall).
  unfold len in H12, H23, H34.
  assert (E2 : length (c_materialBalanceTime c) = length (c_qDd c)) by lia.
  assert (E3 : length (c_materialBalanceTime c) = length (c_qDdi c)) by lia.
  assert (E4 : length (c_materialBalanceTime c) = length (c_qDdid c)) by lia.
  destruct c as [a1 a2 a3 a4]. cbn [c_materialBalanceTime c_qDd c_qDdi c_qDdid] in *.
  f_equal.
  - apply map_aget_indices.
  - rewrite E2. apply map_aget_indices.
  - rewrite E3. apply map_aget_indices.
  - rewrite E4. apply map_aget_indices.
Qed.

(** ** The rate integral and the shape of the raw curves *)

Lemma calculateRateIntegral_spec (te qDd : array) :
  let qDdi := calculateRateIntegral te qDd in
  len qDdi = Z.max (len te) 1 /\
  aget qDdi 0 = 0%float /\
  (forall i, 0 <= i < len te -> gt (aget te i) 0 = false -> aget qDdi i = 0%float) /\
  (forall i, 0 <= i < len te -> gt (aget te i) 0 = true ->
     aget qDdi i = (aget (trapezoidalIntegrate te qDd) i / aget te i)%float).
Proof.
  unfold calculateRateIntegral.
  destruct (trapezoidalIntegrate_spec te qDd) as (Hlen & H0 & _).
  split; [now rewrite len_mapi, Hlen|]. split; [|split].
  - rewrite aget_mapi by lia. rewrite H0.
    destruct (gt (aget te 0) 0) eqn:E; [now apply zero_div_positive | reflexivity].
  - intros i Hi Hte. rewrite aget_mapi by lia. now rewrite Hte.
  - intros i Hi Hte. rewrite aget_mapi by lia. now rewrite Hte.
Qed.

(** X10.  The rate integral has one value per point (one for an empty
    series), starts at exactly 0, is 0 wherever the material balance time is
    not greater than zero, and is the running integral divided by the time
    elsewhere. *)
Theorem rate_integral_starts_at_zero (te qDd : array) :
  let qDdi := calculateRateIntegral te qDd in
  len qDdi = Z.max (len te) 1 /\
  aget qDdi 0 = 0%float /\
  (forall i, 0 <= i < len te -> gt (aget te i) 0 = false -> aget qDdi i = 0%float) /\
  (forall i, 0 <= i < len te -> gt (aget te i) 0 = true ->
     aget qDdi i = (aget (trapezoidalIntegrate te qDd) i / aget te i)%float).
Proof. exact (calculateRateIntegral_spec te qDd). Qed.

Lemma rate_integral_starts_at_zero_witness :
  aget (calculateRateIntegral [0; 2]%float [5; 7]%float) 0 = 0%float /\
  aget (calculateRateIntegral [0; 2]%float [5; 7]%float) 1 = 6%float.
Proof.
  destruct (rate_integral_starts_at_zero [0; 2]%float [5; 7]%float)
    as (_ & _ & Hz & Hp).
  split.
  - apply Hz; [vm_compute; split; [discriminate | reflexivity] | reflexivity].
  - apply Hp; [vm_compute; split; [discriminate | reflexivity] | reflexivity].
Defined.

Lemma rawCurves_lengths (Math_log : number -> number) (input : BlasingameInput) :
  let raw := rawCurves Math_log input in
  let n := len (rates input) in
  len (c_materialBalanceTime raw) = n /\ len (c_qDd raw) = n /\
  len (c_qDdi raw) = Z.max n 1 /\ len (c_qDdid raw) = Z.max n 1.
Proof.
  cbv zeta. cbn [rawCurves c_materialBalanceTime c_qDd c_qDdi c_qDdid].
  destruct (calculateMaterialBalanceTime_spec (rates input) (cumulativeProduction input))
    as [Hte _].
  split; [exact Hte|]. split; [apply len_mapi|]. split.
  - destruct (calculateRateIntegral_spec
                (calculateMaterialBalanceTime (rates input) (cumulativeProduction input))
                (calculateNormalizedRate (rates input)
                   (calculatePressureDrops (pressures input) (initialPressure input)
                      (len (datesToDays (dates input)))))) as (H & _).
    rewrite H, Hte. reflexivity.
  - unfold calculateRateIntegralDerivative.
    rewrite len_logarithmicDerivative, Hte. reflexivity.
Qed.

(** X11.  For a series of at least one rate, the four curves handed to
    [cleanData] all have one value per rate; for an empty series the rate
    integral and its derivative still hold one value each. *)
Theorem raw_curves_are_parallel (Math_log : number -> number) (input : BlasingameInput) :
  let raw := rawCurves Math_log input in
  let n := len (rates input) in
  (1 <= n ->
     len (c_materialBalanceTime raw) = n /\ len (c_qDd raw) = n /\
     len (c_qDdi raw) = n /\ len (c_qDdid raw) = n) /\
  (n = 0 ->
     len (c_materialBalanceTime raw) = 0 /\ len (c_qDd raw) = 0 /\
     len (c_qDdi raw) = 1 /\ len (c_qDdid raw) = 1).
Proof.
  intros raw n. destruct (rawCurves_lengths Math_log input) as (H1 & H2 & H3 & H4).
  fold raw n in H1, H2, H3, H4. split; intros Hn; repeat split; lia.
Qed.

Lemma raw_curves_are_parallel_witness :
  len (c_qDdid (rawCurves (fun v => v) shutIn)) = 10.
Proof.
  apply (raw_curves_are_parallel (fun v => v) shutIn). vm_compute. discriminate.
Defined.

(** ** What never survives cleaning *)

Lemma first_point_invalid (Math_log : number -> number) (input : BlasingameInput) :
  valid_at (rawCurves Math_log input) 0 = false.
Proof.
  unfold valid_at. cbn [rawCurves c_qDdi].
  destruct (calculateRateIntegral_spec
              (calculateMaterialBalanceTime (rates input) (cumulativeProduction input))
              (calculateNormalizedRate (rates input)
                 (calculatePressureDrops (pressures input) (initialPressure input)
                    (len (datesToDays (dates input)))))) as (_ & H0 & _).
  rewrite H0. change (gt 0 0) with false.
  now rewrite andb_false_r, andb_false_l.
Qed.

Lemma length_filter_indices_without_0 (ok : Z -> bool) (n : nat) :
  ok 0 = false -> (length (filter ok (indices n)) <= n - 1)%nat.
Proof.
  intros H0. destruct n as [|n]; [simpl; lia|].
  unfold indices. simpl seq. simpl map. simpl filter. rewrite H0.
  etransitivity; [apply filter_length_le|].
  rewrite length_map, length_seq. lia.
Qed.

(** X12.  The first point of a series never survives cleaning (its rate
    integral is 0), so the cleaned curves of [calculate] hold at most N - 1
    points for N rates, and none for a series of one point. *)
Theorem first_point_never_survives (Math_log : number -> number) (input : BlasingameInput) :
  exists out,
    calculate Math_log input = Return out /\
    ~ In 0 (valid_indices (rawCurves Math_log input)) /\
    len (materialBalanceTime out) <= Z.max 0 (len (rates input) - 1).
Proof.
  eexists. split; [reflexivity|]. cbn [materialBalanceTime]. split.
  - rewrite valid_indices_filter, filter_In, first_point_invalid.
    intros [_ H]. discriminate H.
  - unfold cleanData. cbn [c_materialBalanceTime]. rewrite len_map.
    rewrite valid_indices_filter.
    pose proof (length_filter_indices_without_0
                  (valid_at (rawCurves Math_log input))
                  (length (c_materialBalanceTime (rawCurves Math_log input)))
                  (first_point_invalid Math_log input)) as Hle.
    destruct (rawCurves_lengths Math_log input) as (Hte & _).
    unfold len in Hte |- *. lia.
Qed.

(** A quotient greater than zero has a numerator that is neither zero nor
    NaN, and a positive numerator when the denominator is positive. *)
Lemma signedS_positive (s : bool) (f : spec_float) :
  signedS s f = true -> positiveS f = true -> s = false.
Proof. destruct f as [[]|[]| |[] m e], s; simpl; congruence. Qed.

Lemma SFdiv_positive_numerator (a b : spec_float) :
  positiveS (SF64div a b) = true ->
  zeroS a = false /\ is_nanS a = false /\ (positiveS b = true -> positiveS a = true).
Proof.
  unfold SF64div, SFdiv.
  destruct a as [sa|sa| |sa ma ea], b as [sb|sb| |sb mb eb]; simpl;
    try discriminate; intros H; repeat split; try reflexivity; intros Hb;
    try (destruct sa, sb; simpl in *; congruence).
  pose proof (SFdiv_core_binary_nonneg ma mb ea eb) as Hmz.
  destruct (SFdiv_core_binary prec emax (Z.pos ma) ea (Z.pos mb) eb) as [[mz ez] lz].
  simpl in Hmz.
  pose proof (binary_round_aux_signed (xorb sa sb) mz ez lz Hmz) as Hs.
  pose proof (signedS_positive _ _ Hs H) as Hx.
  destruct sa, sb; simpl in *; congruence.
Qed.

Lemma div_positive_numerator (q d : number) :
  gt (q / d)%float 0 = true ->
  (q =? 0)%float = false /\ is_nan q = false /\ (gt d 0 = true -> gt q 0 = true).
Proof.
  rewrite !gt_zero_spec, eqb_zero_spec, is_nan_spec, div_spec.
  apply SFdiv_positive_numerator.
Qed.

Lemma valid_index_rate (Math_log : number -> number) (input : BlasingameInput) (i : Z) :
  In i (valid_indices (rawCurves Math_log input)) ->
  0 <= i < len (rates input) /\
  gt (aget (rates input) i /
      aget (calculatePressureDrops (pressures input) (initialPressure input)
              (len (datesToDays (dates input)))) i)%float 0 = true.
Proof.
  rewrite valid_indices_filter, filter_In, In_indices.
  destruct (rawCurves_lengths Math_log input) as (Hte & _).
  intros [Hi Hok]. fold (len (c_materialBalanceTime (rawCurves Math_log input))) in Hi.
  rewrite Hte in Hi. split; [exact Hi|].
  unfold valid_at in Hok. repeat (apply andb_prop in Hok; destruct Hok as [Hok ?]).
  match goal with
  | H : gt (aget (c_qDd _) i) 0 = true |- _ =>
      cbn [rawCurves c_qDd] in H; unfold calculateNormalizedRate in H;
      rewrite aget_mapi in H by exact Hi; exact H
  end.
Qed.

Lemma len_calculatePressureDrops (ps : option array) (initialPressure : number) (n : Z) :
  0 <= n -> len (calculatePressureDrops ps initialPressure n) = n.
Proof.
  intros Hn. unfold calculatePressureDrops.
  destruct ps as [ps|]; [destruct (Z.eqb_spec (len ps) n) as [E|E]|].
  - now rewrite len_map.
  - rewrite len_new_Array_fill. lia.
  - rewrite len_new_Array_fill. lia.
Qed.

Lemma measured_drop_positive (ps : array) (initialPressure : number) (i : Z) :
  0 <= i < len ps ->
  gt (aget (calculatePressureDrops (Some ps) initialPressure (len ps)) i) 0 = true.
Proof.
  intros Hi. rewrite calculatePressureDrops_measured by exact Hi. cbv zeta.
  destruct (gt (initialPressure - aget ps i) 0) eqn:E; [exact E | reflexivity].
Qed.

(** X13.  A point whose rate is 0 (a shut-in day) or NaN never survives
    cleaning; and when a pressure series of the right length is supplied,
    every surviving point has a rate strictly greater than zero. *)
Theorem shut_in_points_never_survive
    (Math_log : number -> number) (input : BlasingameInput) (i : Z) :
  In i (valid_indices (rawCurves Math_log input)) ->
  (aget (rates input) i =? 0)%float = false /\
  is_nan (aget (rates input) i) = false /\
  (forall ps, pressures input = Some ps ->
              length ps = length (dates input) ->
              gt (aget (rates input) i) 0 = true).
Proof.
  intros Hin. destruct (valid_index_rate Math_log input i Hin) as [Hi Hq].
  destruct (div_positive_numerator _ _ Hq) as (Hz & Hnan & Hpos).
  split; [exact Hz|]. split; [exact Hnan|].
  intros ps Hps Hlen. apply Hpos. rewrite Hps, len_datesToDays.
  replace (Z.of_nat (length (dates input))) with (len ps) by (unfold len; lia).
  destruct (Z_lt_ge_dec i (len ps)) as [Hlt|Hge].
  - apply measured_drop_positive. lia.
  - exfalso. rewrite Hps, len_datesToDays in Hq.
    replace (Z.of_nat (length (dates input))) with (len ps) in Hq by (unfold len; lia).
    rewrite (aget_outside (calculatePressureDrops (Some ps) (initialPressure input)
                             (len ps)) i) in Hq.
    + rewrite NumericalUtilsProps.div_nan_r in Hq. discriminate Hq.
    + right. rewrite len_calculatePressureDrops by apply len_nonneg. lia.
Qed.

Lemma shut_in_points_never_survive_witness :
  (aget (rates shutIn) 4 =? 0)%float = false.
Proof.
  apply (shut_in_points_never_survive (fun v => v) shutIn 4).
  vm_compute. right. left. reflexivity.
Defined.

(** ** Pressure drops *)

(** X14.  [calculate] reports one pressure drop per date.  Without a
    pressure series every drop is 0.35 * initialPressure.  With a series of
    the right length every drop is strictly greater than zero, and a day
    whose pressure is NaN (no measurement) gets exactly 100. *)
Theorem pressure_drops_of_calculate
    (Math_log : number -> number) (input : BlasingameInput) :
  exists out,
    calculate Math_log input = Return out /\
    len (pressureDrops out) = Z.of_nat (length (dates input)) /\
    (pressures input = None ->
     forall i, 0 <= i < Z.of_nat (length (dates input)) ->
       aget (pressureDrops out) i = (initialPressure input * 0.35)%float) /\
    (forall ps, pressures input = Some ps -> length ps = length (dates input) ->
     forall i, 0 <= i < Z.of_nat (length (dates input)) ->
       gt (aget (pressureDrops out) i) 0 = true /\
       (aget ps i = nan -> aget (pressureDrops out) i = 100%float)).
Proof.
  eexists. split; [reflexivity|]. cbn [pressureDrops]. rewrite len_datesToDays.
  split; [apply len_calculatePressureDrops; lia|]. split.
  - intros Hnone i Hi. rewrite Hnone. unfold calculatePressureDrops.
    now apply aget_new_Array_fill.
  - intros ps Hps Hlen i Hi. rewrite Hps.
    replace (Z.of_nat (length (dates input))) with (len ps) in * by (unfold len; lia).
    split; [now apply measured_drop_positive|].
    intros Hnan. rewrite calculatePressureDrops_measured by exact Hi.
    now rewrite Hnan, NumericalUtilsProps.sub_nan_r.
Qed.

Lemma pressure_drops_of_calculate_witness :
  exists out,
    calculate (fun v => v) shutIn = Return out /\
    aget (pressureDrops out) 3 = 1750%float.
Proof.
  destruct (pressure_drops_of_calculate (fun v => v) shutIn)
    as (out & Hout & _ & Hnone & _).
  exists out. split; [exact Hout|].
  apply Hnone; [reflexivity|]. vm_compute. split; [discriminate | reflexivity].
Defined.

(** ** Slopes and flow regimes *)

(** X15.  On at least two points [calculateLogLogSlope] returns one slope
    per point, computed on the base-10 logarithms: forward difference at the
    first point, central difference inside, backward difference at the
    last. *)
Theorem calculateLogLogSlope_differences
    (Math_log10 : number -> number) (x y : array) :
  2 <= len x ->
  let n := len x in
  let logX := map Math_log10 x in
  let logY := map Math_log10 y in
  let slopes := calculateLogLogSlope Math_log10 x y in
  len slopes = n /\
  aget slopes 0 = ((aget logY 1 - aget logY 0) / (aget logX 1 - aget logX 0))%float /\
  (forall i, 1 <= i < n - 1 ->
     aget slopes i =
     ((aget logY (i + 1) - aget logY (i - 1)) /
      (aget logX (i + 1) - aget logX (i - 1)))%float) /\
  aget slopes (n - 1) =
  ((aget logY (n - 1) - aget logY (n - 2)) /
   (aget logX (n - 1) - aget logX (n - 2)))%float.
Proof.
  intros Hn n logX logY slopes. subst slopes. unfold calculateLogLogSlope.
  cbv zeta. rewrite (len_map Math_log10 x). fold (len x). fold n logX logY.
  exact (endpoints_and_interior n _ _
           (fun i => ((aget logY (i + 1) - aget logY (i - 1)) /
                      (aget logX (i + 1) - aget logX (i - 1)))%float) Hn).
Qed.

Lemma calculateLogLogSlope_differences_witness :
  aget (calculateLogLogSlope log10_table [1; 10; 100]%float [100; 10; 1]%float) 1
  = (-1)%float.
Proof.
  destruct (calculateLogLogSlope_differences log10_table
              [1; 10; 100]%float [100; 10; 1]%float) as (_ & _ & Hin & _).
  - vm_compute. discriminate.
  - apply (Hin 1). vm_compute. split; [discriminate | reflexivity].
Defined.

Lemma calculateLogLogSlope_short (Math_log10 : number -> number) (x y : array) :
  len x <= 1 -> calculateLogLogSlope Math_log10 x y = [nan].
Proof.
  intros Hn. pose proof (len_nonneg x) as H0. unfold calculateLogLogSlope. cbv zeta.
  rewrite (len_map Math_log10 x). fold (len x).
  rewrite (endpoints_degenerate (len x) _ _
             (fun i => ((aget (map Math_log10 y) (i + 1) - aget (map Math_log10 y) (i - 1)) /
                        (aget (map Math_log10 x) (i + 1) -
                         aget (map Math_log10 x) (i - 1)))%float)) by lia.
  destruct (Z.eqb_spec (len x) 1) as [E|E].
  - rewrite E. rewrite (aget_outside (map Math_log10 y) (1 - 2)) by lia.
    now rewrite sub_nan_r, div_nan_l.
  - rewrite (aget_outside (map Math_log10 x) 1)
      by (right; rewrite len_map; fold (len x); lia).
    now rewrite sub_nan_l, div_nan_r.
Qed.

(** X16.  A series of one point (or none) has the single slope NaN, and
    [identifyFlowRegimes] returns for it exactly one segment: indices 0 to 0,
    infinite-acting, diagnosticSlope 0, confidence medium. *)
Theorem short_series_single_segment
    (Math_log10 : number -> number) (x y : array) :
  len x <= 1 ->
  calculateLogLogSlope Math_log10 x y = [nan] /\
  identifyFlowRegimes Math_log10 x y =
  [ {| regime := infinite_acting; startIndex := 0; endIndex := 0;
       diagnosticSlope := Some 0%float; confidence := medium |} ].
Proof.
  intros Hn. split; [now apply calculateLogLogSlope_short|].
  unfold identifyFlowRegimes. rewrite calculateLogLogSlope_short by exact Hn.
  reflexivity.
Qed.

Lemma short_series_single_segment_witness :
  length (identifyFlowRegimes log10_table [10%float] [100%float]) = 1%nat.
Proof.
  destruct (short_series_single_segment log10_table [10%float] [100%float]) as [_ H].
  - vm_compute. discriminate.
  - now rewrite H.
Defined.

(** X17.  [averageSlope] returns 0 when no slope of the range is finite, in
    particular on an empty range. *)
Theorem averageSlope_without_finite_slope (slopes : array) (start end_ : Z) :
  (forall i, start <= i <= end_ -> isFinite (aget slopes i) = false) ->
  averageSlope slopes start end_ = 0%float.
Proof.
  intros H. unfold averageSlope.
  assert (E : for_range start (end_ + 1)
                (fun i '(sum, count) =>
                   if isFinite (aget slopes i)
                   then ((sum + aget slopes i)%float, (count + 1)%float)
                   else (sum, count)) (0%float, 0%float) = (0%float, 0%float)).
  { apply (for_range_preserves (fun st => st = (0%float, 0%float))); [reflexivity|].
    intros i st Hi ->. now rewrite H by lia. }
  rewrite E. reflexivity.
Qed.

Lemma averageSlope_without_finite_slope_witness :
  averageSlope [nan; infinity; 1%float] 0 1 = 0%float /\
  averageSlope [nan; infinity; 1%float] 2 1 = 0%float.
Proof.
  split.
  - apply averageSlope_without_finite_slope. intros i Hi.
    assert (Hc : i = 0 \/ i = 1) by lia. destruct Hc as [-> | ->]; reflexivity.
  - apply averageSlope_without_finite_slope. intros i Hi. lia.
Defined.

Lemma alternating_snoc (segs : list FlowRegimeSegment) (seg d : FlowRegimeSegment) :
  alternating segs ->
  (segs <> [] -> regime (last segs d) <> regime seg) ->
  alternating (segs ++ [seg]).
Proof.
  induction segs as [|a [|b t] IH]; intros Halt Hlast.
  - simpl. auto.
  - simpl. split; [apply Hlast; discriminate | auto].
  - destruct Halt as [Hab Halt]. split; [exact Hab|].
    apply IH; [exact Halt|]. intros _. apply Hlast. discriminate.
Qed.

Lemma segmentSlopes_runs (slopes : array) :
  let segs := segmentSlopes slopes in
  alternating segs /\
  forall seg, In seg segs ->
    confidence seg = medium /\
    diagnosticSlope seg = Some (averageSlope slopes (startIndex seg) (endIndex seg)).
Proof.
  cbv zeta. unfold segmentSlopes.
  set (d := {| regime := infinite_acting; startIndex := 0; endIndex := 0;
               diagnosticSlope := None; confidence := medium |}).
  assert (Hw :
    let w := for_range 1 (len slopes) (walk_step slopes)
               {| regimes := []; currentRegime := infinite_acting; w_startIndex := 0 |} in
    alternating (regimes w) /\
    (regimes w <> [] -> regime (last (regimes w) d) <> currentRegime w) /\
    forall seg, In seg (regimes w) ->
      confidence seg = medium /\
      diagnosticSlope seg = Some (averageSlope slopes (startIndex seg) (endIndex seg))).
  { apply (for_range_preserves
             (fun w =>
                alternating (regimes w) /\
                (regimes w <> [] -> regime (last (regimes w) d) <> currentRegime w) /\
                forall seg, In seg (regimes w) ->
                  confidence seg = medium /\
                  diagnosticSlope seg =
                  Some (averageSlope slopes (startIndex seg) (endIndex seg)))).
    - simpl. split; [exact I|]. split; [intros H; now contradiction H | tauto].
    - intros i w _ (Halt & Hlast & Hattr). unfold walk_step.
      destruct (Regime_eqb (classify (aget slopes i)) (currentRegime w)) eqn:E; simpl.
      + auto.
      + split; [|split].
        * apply (alternating_snoc _ _ d); [exact Halt | exact Hlast].
        * intros _. rewrite last_last. simpl. intros Heq.
          assert (T : Regime_eqb (classify (aget slopes i)) (currentRegime w) = true)
            by (apply Regime_eqb_eq; congruence).
          congruence.
        * intros seg Hin. apply in_app_or in Hin.
          destruct Hin as [Hin|[<-|[]]]; [now apply Hattr | split; reflexivity]. }
  cbv zeta in Hw. destruct Hw as (Halt & Hlast & Hattr). split.
  - apply (alternating_snoc _ _ d); [exact Halt | exact Hlast].
  - intros seg Hin. apply in_app_or in Hin.
    destruct Hin as [Hin|[<-|[]]]; [now apply Hattr | split; reflexivity].
Qed.

(** X18.  The segments of [identifyFlowRegimes] are maximal runs: two
    neighbouring segments never carry the same regime.  Every segment has
    confidence medium, and its diagnosticSlope is [averageSlope] over its own
    index range. *)
Theorem regime_segments_are_maximal_runs
    (Math_log10 : number -> number) (x y : array) :
  let slopes := calculateLogLogSlope Math_log10 x y in
  let segs := identifyFlowRegimes Math_log10 x y in
  alternating segs /\
  forall seg, In seg segs ->
    confidence seg = medium /\
    diagnosticSlope seg = Some (averageSlope slopes (startIndex seg) (endIndex seg)).
Proof. exact (segmentSlopes_runs (calculateLogLogSlope Math_log10 x y)). Qed.

(** X19.  For every input, the first segment of [identifyFlowRegimes]
    starts at index 0 and is infinite-acting, and the last segment ends at
    the last index. *)
Theorem first_segment_is_infinite_acting
    (Math_log10 : number -> number) (x y : array) :
  exists first rest,
    identifyFlowRegimes Math_log10 x y = first :: rest /\
    startIndex first = 0 /\ regime first = infinite_acting /\
    endIndex (last (first :: rest) first) = Z.max (len x) 1 - 1.
Proof.
  unfold identifyFlowRegimes.
  set (slopes := calculateLogLogSlope Math_log10 x y).
  assert (Hlen : len slopes = Z.max (len x) 1) by apply len_calculateLogLogSlope.
  destruct (segmentSlopes_spec slopes) as [Hchain Hreg]; [lia|].
  assert (Hlast : forall d, endIndex (last (segmentSlopes slopes) d) = len slopes - 1).
  { intros d. unfold segmentSlopes. now rewrite last_last. }
  destruct (segmentSlopes slopes) as [|first rest] eqn:E.
  - simpl in Hchain. lia.
  - exists first, rest. destruct Hchain as (Hs & Hle & _).
    split; [reflexivity|]. split; [exact Hs|]. split.
    + apply (Hreg first 0); [now left | unfold contains; lia].
    + now rewrite Hlast, Hlen.
Qed.

End BlasingameExtras.

(* ================================================================== *)
(** * Further properties of the type-curve matcher *)
(* ================================================================== *)

Module TypeCurveExtras.
Import JS NumericalUtils Blasingame TypeCurve Props Shapes FloatShape.
Import ArrayFacts FloatFacts FloatSignFacts LoopFacts NumericalUtilsProps.
Import TypeCurveProps.
Local Open Scope Z_scope.

(** ** The theoretical integral and derivative *)

Lemma calculateTheoreticalIntegral_spec (tD qDd : array) :
  let integral := calculateTheoreticalIntegral tD qDd in
  len integral = len qDd /\
  (1 <= len qDd -> aget integral 0 = 0%float) /\
  forall i, 1 <= i < len qDd ->
    aget integral i =
    (aget integral (i - 1) +
     (aget qDd i + aget qDd (i - 1)) / 2 * (aget tD i - aget tD (i - 1)))%float.
Proof.
  unfold calculateTheoreticalIntegral. pose proof (len_nonneg qDd) as Hn.
  destruct (Z_le_gt_dec 1 (len qDd)) as [H1|H1].
  - apply (for_range_invariant
             (fun i a =>
                len a = len qDd /\
                (1 <= len qDd -> aget a 0 = 0%float) /\
                forall j, 1 <= j < i ->
                  aget a j =
                  (aget a (j - 1) +
                   (aget qDd j + aget qDd (j - 1)) / 2 * (aget tD j - aget tD (j - 1)))%float)).
    + exact H1.
    + split; [rewrite len_new_Array_fill; lia|]. split.
      * intros _. apply aget_new_Array_fill. lia.
      * intros j Hj. lia.
    + intros i a Hi (Hlen & H0 & Hrec). cbv zeta. split; [|split].
      * rewrite len_aset_inside; lia.
      * intros Hq. rewrite aget_aset_other by lia. now apply H0.
      * intros j Hj. destruct (Z.eq_dec j i) as [->|Hne].
        -- rewrite aget_aset_same by lia.
           now rewrite (aget_aset_other a i (i - 1)) by lia.
        -- rewrite (aget_aset_other a i j), (aget_aset_other a i (j - 1)) by lia.
           apply Hrec. lia.
  - rewrite for_range_empty by lia. split; [rewrite len_new_Array_fill; lia|].
    split; intros; lia.
Qed.

Lemma arrays_equal_by_index (a b : array) :
  len a = len b -> (forall i, 0 <= i < len a -> aget a i = aget b i) -> a = b.
Proof.
  intros Hlen H. unfold len in *. apply (nth_ext a b nan nan); [lia|].
  intros k Hk. rewrite <- !aget_nth. apply H. lia.
Qed.

(** X20.  The matcher's own integral is the trapezoidal integral of the
    shared kernel: on a non-empty rate array with one time per rate the two
    functions return the same array.  (On empty arrays they differ: [] here,
    [0] there.) *)
Theorem theoretical_integral_is_trapezoidal (tD qDd : array) :
  len tD = len qDd -> 1 <= len qDd ->
  calculateTheoreticalIntegral tD qDd = trapezoidalIntegrate tD qDd.
Proof.
  intros Hlen Hn.
  destruct (calculateTheoreticalIntegral_spec tD qDd) as (La & A0 & Arec).
  destruct (trapezoidalIntegrate_spec tD qDd) as (Lb & B0 & Brec).
  apply arrays_equal_by_index; [lia|].
  rewrite La. intros i Hi.
  assert (H : forall k : nat, Z.of_nat k < len qDd ->
            aget (calculateTheoreticalIntegral tD qDd) (Z.of_nat k) =
            aget (trapezoidalIntegrate tD qDd) (Z.of_nat k)).
  { induction k as [|k IH]; intros Hk.
    - simpl. rewrite A0, B0 by lia. reflexivity.
    - rewrite Arec, Brec by lia.
      replace (Z.of_nat (S k) - 1) with (Z.of_nat k) by lia.
      rewrite IH by lia. reflexivity. }
  specialize (H (Z.to_nat i)). rewrite Z2Nat.id in H by lia. apply H. lia.
Qed.

Lemma theoretical_integral_is_trapezoidal_witness :
  calculateTheoreticalIntegral [0; 1; 3]%float [2; 4; 6]%float = [0; 3; 13]%float /\
  calculateTheoreticalIntegral [] [] = [] /\ trapezoidalIntegrate [] [] = [0%float].
Proof.
  split; [|split; reflexivity].
  rewrite (theoretical_integral_is_trapezoidal [0; 1; 3]%float [2; 4; 6]%float).
  - reflexivity.
  - reflexivity.
  - vm_compute. discriminate.
Defined.

Lemma calculateTheoreticalDerivative_loop (tD qIntegral : array) :
  let n := len qIntegral in
  let central := fun i =>
    if gt (aget tD (i + 1) - aget tD (i - 1))%float 0
    then ((aget qIntegral (i + 1) - aget qIntegral (i - 1)) /
          (aget tD (i + 1) - aget tD (i - 1)))%float
    else 0%float in
  let d := for_range 1 (n - 1)
             (fun i derivative =>
                let dt := (aget tD (i + 1) - aget tD (i - 1))%float in
                if gt dt 0
                then aset derivative i
                       ((aget qIntegral (i + 1) - aget qIntegral (i - 1)) / dt)%float
                else derivative)
             (new_Array_fill n 0%float) in
  len d = n /\
  (forall j, 1 <= j < n - 1 -> aget d j = central j) /\
  (forall j, 0 <= j < n -> j < 1 \/ n - 1 <= j -> aget d j = 0%float).
Proof.
  intros n central d. subst d. pose proof (len_nonneg qIntegral) as Hn. fold n in Hn.
  destruct (Z_le_gt_dec 1 (n - 1)) as [H1|H1].
  - apply (for_range_invariant
             (fun i a =>
                len a = n /\
                (forall j, 1 <= j < i -> aget a j = central j) /\
                (forall j, 0 <= j < n -> j < 1 \/ i <= j -> aget a j = 0%float))).
    + exact H1.
    + split; [rewrite len_new_Array_fill; lia|]. split.
      * intros j Hj. lia.
      * intros j Hj _. now apply aget_new_Array_fill.
    + intros i a Hi (Hlen & Hin & Hout). cbv zeta.
      destruct (gt (aget tD (i + 1) - aget tD (i - 1))%float 0) eqn:E.
      * split; [rewrite len_aset_inside; lia|]. split.
        -- intros j Hj. destruct (Z.eq_dec j i) as [->|Hne].
           ++ rewrite aget_aset_same by lia. unfold central. now rewrite E.
           ++ rewrite aget_aset_other by lia. apply Hin. lia.
        -- intros j Hj Hj'. rewrite aget_aset_other by lia. apply Hout; lia.
      * split; [exact Hlen|]. split.
        -- intros j Hj. destruct (Z.eq_dec j i) as [->|Hne].
           ++ unfold central. rewrite E. apply Hout; lia.
           ++ apply Hin. lia.
        -- intros j Hj Hj'. apply Hout; lia.
  - rewrite for_range_empty by lia. split; [rewrite len_new_Array_fill; lia|]. split.
    + intros j Hj. lia.
    + intros j Hj _. now apply aget_new_Array_fill.
Qed.

Lemma calculateTheoreticalDerivative_spec (tD qIntegral : array) :
  let n := len qIntegral in
  let d := calculateTheoreticalDerivative tD qIntegral in
  len d = n /\
  (forall i, 1 <= i < n - 1 ->
     aget d i =
     if gt (aget tD (i + 1) - aget tD (i - 1))%float 0
     then ((aget qIntegral (i + 1) - aget qIntegral (i - 1)) /
           (aget tD (i + 1) - aget tD (i - 1)))%float
     else 0%float) /\
  (2 <= n -> aget d 0 = aget d 1 /\ aget d (n - 1) = aget d (n - 2)) /\
  (n = 2 -> d = [0; 0]%float) /\
  (n = 1 -> d = [0%float]).
Proof.
  intros n d. subst d. unfold calculateTheoreticalDerivative. fold n.
  destruct (calculateTheoreticalDerivative_loop tD qIntegral) as (Hlen & Hin & Hout).
  cbv zeta in Hlen, Hin, Hout. fold n in Hlen, Hin, Hout.
  set (d0 := for_range 1 (n - 1) _ _) in *.
  pose proof (len_nonneg qIntegral) as Hn. fold n in Hn.
  destruct (Z.gtb_spec n 1) as [Hgt|Hle].
  - set (A := aset d0 0 (aget d0 1)).
    assert (L1 : len A = n) by (unfold A; rewrite len_aset_inside; lia).
    assert (A0 : aget A 0 = aget d0 1) by (unfold A; apply aget_aset_same; lia).
    assert (Aj : forall j, j <> 0 -> aget A j = aget d0 j)
      by (intros j Hj; unfold A; apply aget_aset_other; lia).
    split; [rewrite len_aset_inside; lia|]. split; [|split; [|split]].
    + intros i Hi. rewrite aget_aset_other by lia. rewrite Aj by lia. now apply Hin.
    + intros _. split.
      * destruct (Z.eq_dec n 2) as [E|E].
        -- rewrite E. change (2 - 1) with 1. change (2 - 2) with 0.
           rewrite (aget_aset_other A 1 0) by lia.
           now rewrite (aget_aset_same A 1) by lia.
        -- rewrite (aget_aset_other A (n - 1) 0) by lia.
           rewrite (aget_aset_other A (n - 1) 1) by lia.
           rewrite A0. now rewrite Aj by lia.
      * rewrite aget_aset_same by lia.
        now rewrite (aget_aset_other A (n - 1) (n - 2)) by lia.
    + intros E. apply arrays_equal_by_index.
      * rewrite len_aset_inside by lia. rewrite L1, E. reflexivity.
      * rewrite len_aset_inside by lia. rewrite L1. intros i Hi.
        rewrite E in *. change (2 - 1) with 1. change (2 - 2) with 0.
        assert (Hc : i = 0 \/ i = 1) by lia. destruct Hc as [-> | ->].
        -- rewrite aget_aset_other by lia. rewrite A0. apply Hout; lia.
        -- rewrite aget_aset_same by lia. rewrite A0. apply Hout; lia.
    + intros E. lia.
  - split; [exact Hlen|]. split; [intros i Hi; lia|]. split; [intros H2; lia|].
    split; [intros E; lia|]. intros E.
    apply arrays_equal_by_index; [rewrite Hlen, E; reflexivity|].
    rewrite Hlen. intros i Hi. replace i with 0 by lia. apply Hout; lia.
Qed.

(** X21.  The theoretical derivative has one value per point.  An interior
    value is the central difference when the time step across it is greater
    than zero and 0 otherwise (no division by a step that is not positive);
    each end copies its neighbour; with one or two points every value is
    0. *)
Theorem theoretical_derivative_shape (tD qIntegral : array) :
  let n := len qIntegral in
  let d := calculateTheoreticalDerivative tD qIntegral in
  len d = n /\
  (forall i, 1 <= i < n - 1 ->
     aget d i =
     if gt (aget tD (i + 1) - aget tD (i - 1))%float 0
     then ((aget qIntegral (i + 1) - aget qIntegral (i - 1)) /
           (aget tD (i + 1) - aget tD (i - 1)))%float
     else 0%float) /\
  (2 <= n -> aget d 0 = aget d 1 /\ aget d (n - 1) = aget d (n - 2)) /\
  (n = 2 -> d = [0; 0]%float) /\
  (n = 1 -> d = [0%float]).
Proof. exact (calculateTheoreticalDerivative_spec tD qIntegral). Qed.

Lemma theoretical_derivative_shape_witness :
  aget (calculateTheoreticalDerivative [0; 1; 3]%float [0; 3; 13]%float) 0 =
  aget (calculateTheoreticalDerivative [0; 1; 3]%float [0; 3; 13]%float) 1.
Proof.
  apply (theoretical_derivative_shape [0; 1; 3]%float [0; 3; 13]%float).
  vm_compute. discriminate.
Defined.

(** ** The theoretical curves *)

Lemma lex_trichotomy (a b : Z * Z * Z) : lex_lt a b \/ a = b \/ lex_lt b a.
Proof.
  destruct a as [[a1 a2] a3], b as [[b1 b2] b3]. unfold lex_lt.
  destruct (Z.lt_trichotomy a1 b1) as [H|[H|H]]; [left; lia| |right; right; lia].
  destruct (Z.lt_trichotomy a2 b2) as [H2|[H2|H2]]; [left; lia| |right; right; lia].
  destruct (Z.lt_trichotomy a3 b3) as [H3|[H3|H3]]; [left; lia| |right; right; lia].
  right. left. congruence.
Qed.

(** Two numbers that are not NaN are comparable. *)
Lemma leb_of_not_ltb (x y : number) :
  is_nan x = false -> is_nan y = false -> (x <? y)%float = false -> (y <=? x)%float = true.
Proof.
  rewrite !is_nan_spec. intros Hx Hy Hlt. apply leb_rank.
  split; [exact Hy|]. split; [exact Hx|].
  destruct (lex_trichotomy (rank (Prim2SF y)) (rank (Prim2SF x))) as [H|[H|H]]; auto.
  exfalso. assert (T : (x <? y)%float = true) by (apply ltb_rank; auto). congruence.
Qed.

Lemma ltb_trans (x y z : number) :
  (x <? y)%float = true -> (y <? z)%float = true -> (x <? z)%float = true.
Proof.
  intros H1 H2. apply ltb_rank in H1, H2. apply ltb_rank.
  destruct H1 as (Nx & _ & L1), H2 as (_ & Nz & L2).
  split; [exact Nx|]. split; [exact Nz|].
  destruct (rank (Prim2SF x)) as [[a1 a2] a3], (rank (Prim2SF y)) as [[b1 b2] b3],
           (rank (Prim2SF z)) as [[c1 c2] c3].
  unfold lex_lt in *. lia.
Qed.

Lemma leb_of_ltb (x y : number) : (x <? y)%float = true -> (x <=? y)%float = true.
Proof. intros H. apply leb_rank. apply ltb_rank in H. tauto. Qed.

Lemma leb_refl (x : number) : is_nan x = false -> (x <=? x)%float = true.
Proof. rewrite is_nan_spec. intros H. apply leb_rank. auto. Qed.

(** [Math.max(b, c)] is NaN or at least [c]. *)
Lemma Math_max_floor (b c : number) :
  is_nan (Math_max b c) = true \/ (c <=? Math_max b c)%float = true.
Proof.
  unfold Math_max.
  destruct (is_nan b || is_nan c) eqn:Hnan; [left; reflexivity|].
  apply orb_false_elim in Hnan. destruct Hnan as [Hb Hc]. right.
  destruct (b <? c)%float eqn:E1; [now apply leb_refl|].
  destruct (c <? b)%float eqn:E2; [now apply leb_of_ltb|].
  destruct (is_zero b && get_sign b); [now apply leb_refl|].
  now apply leb_of_not_ltb.
Qed.

Lemma len_calculateTheoreticalNormalizedRate
    (Math_exp : number -> number) (tD : array) (skinFactor : number) (dataPoints : Z) :
  len (calculateTheoreticalNormalizedRate Math_exp tD skinFactor dataPoints) = len tD.
Proof. unfold calculateTheoreticalNormalizedRate. apply len_mapi. Qed.

(** X22.  The four theoretical curves each hold exactly one value per
    material-balance time of the Blasingame output. *)
Theorem theoretical_curves_are_parallel
    (Math_exp : number -> number) (data : BlasingameOutput) (params : MatchParams) :
  exists curves,
    generateTheoreticalCurves Math_exp data params = Return curves /\
    len (t_teDimensionless curves) = len (materialBalanceTime data) /\
    len (t_qDd curves) = len (materialBalanceTime data) /\
    len (t_qDdi curves) = len (materialBalanceTime data) /\
    len (t_qDdid curves) = len (materialBalanceTime data).
Proof.
  eexists. split; [reflexivity|].
  cbn [t_teDimensionless t_qDd t_qDdi t_qDdid].
  assert (H1 : len (calculateDimensionalTime (materialBalanceTime data)
                      (kh params) (drainageArea params))
               = len (materialBalanceTime data))
    by (unfold calculateDimensionalTime; now rewrite len_map).
  split; [exact H1|].
  destruct (calculateTheoreticalIntegral_spec
              (calculateDimensionalTime (materialBalanceTime data)
                 (kh params) (drainageArea params))
              (calculateTheoreticalNormalizedRate Math_exp
                 (calculateDimensionalTime (materialBalanceTime data)
                    (kh params) (drainageArea params))
                 (skinFactor params) (len (materialBalanceTime data))))
    as (H3 & _).
  destruct (calculateTheoreticalDerivative_spec
              (calculateDimensionalTime (materialBalanceTime data)
                 (kh params) (drainageArea params))
              (calculateTheoreticalIntegral
                 (calculateDimensionalTime (materialBalanceTime data)
                    (kh params) (drainageArea params))
                 (calculateTheoreticalNormalizedRate Math_exp
                    (calculateDimensionalTime (materialBalanceTime data)
                       (kh params) (drainageArea params))
                    (skinFactor params) (len (materialBalanceTime data)))))
    as (H4 & _).
  cbv zeta in H3, H4.
  rewrite H4, H3, len_calculateTheoreticalNormalizedRate, H1. auto.
Qed.

(** X23.  Every value of the theoretical normalized rate is 0 (where the
    dimensionless time is <= 0), NaN, or at least 0.01: the curve is never
    negative and never between 0 and the floor. *)
Theorem theoretical_rate_floor
    (Math_exp : number -> number) (tD : array) (skinFactor : number)
    (dataPoints : Z) (i : Z) :
  0 <= i < len tD ->
  let q := aget (calculateTheoreticalNormalizedRate Math_exp tD skinFactor dataPoints) i in
  ((aget tD i <=? 0)%float = true /\ q = 0%float) \/
  ((aget tD i <=? 0)%float = false /\
   (is_nan q = true \/ (0.01 <=? q)%float = true)).
Proof.
  intros Hi q. subst q. unfold calculateTheoreticalNormalizedRate.
  rewrite aget_mapi by exact Hi.
  destruct (aget tD i <=? 0)%float; [left; auto | right].
  split; [reflexivity|]. apply Math_max_floor.
Qed.

Lemma theoretical_rate_floor_witness :
  aget (calculateTheoreticalNormalizedRate (fun v => v) [0; 4]%float 0 2) 0 = 0%float.
Proof.
  destruct (theoretical_rate_floor (fun v => v) [0; 4]%float 0 2 0) as [[_ H]|[H _]].
  - vm_compute. split; [discriminate | reflexivity].
  - exact H.
  - discriminate H.
Defined.

Lemma Math_min_cap (s : number) : (5 <? s)%float = true -> Math_min s 5 = 5%float.
Proof.
  intros H. unfold Math_min.
  assert (Hnan : is_nan s = false)
    by (rewrite is_nan_spec; apply ltb_rank in H; tauto).
  assert (Hlt : (s <? 5)%float = false) by float_order.
  rewrite Hnan, Hlt, H. reflexivity.
Qed.

(** X24.  The skin factor is capped at 5: every skin factor above 5 gives
    the curves of skin factor 5. *)
Theorem skin_factor_is_capped
    (Math_exp : number -> number) (data : BlasingameOutput)
    (khValue skin area : number) :
  (5 <? skin)%float = true ->
  generateTheoreticalCurves Math_exp data
    {| kh := khValue; skinFactor := skin; drainageArea := area |} =
  generateTheoreticalCurves Math_exp data
    {| kh := khValue; skinFactor := 5; drainageArea := area |}.
Proof.
  intros H. unfold generateTheoreticalCurves, calculateTheoreticalNormalizedRate.
  cbn [kh skinFactor drainageArea]. rewrite (Math_min_cap skin H).
  change (Math_min 5 5) with 5%float. reflexivity.
Qed.

Lemma skin_factor_is_capped_witness :
  generateTheoreticalCurves (fun v => v) threePoints
    {| kh := 100; skinFactor := 10; drainageArea := 100 |} =
  generateTheoreticalCurves (fun v => v) threePoints
    {| kh := 100; skinFactor := 5; drainageArea := 100 |}.
Proof.
  apply (skin_factor_is_capped (fun v => v) threePoints 100 10 100). reflexivity.
Defined.

(** ** The match-quality sums never hold NaN *)

Lemma of_nat_finite (n : nat) :
  (0 < Z.of_nat n < 2 ^ 32) ->
  exists m e, Prim2SF (of_nat n) = S754_finite false m e.
Proof.
  intros Hn. unfold of_nat.
  rewrite of_uint63_spec, Uint63.of_Z_spec, Z.mod_small.
  - destruct (Z.of_nat n) as [|p|p] eqn:E; try lia.
    apply binary_normalize_small. lia.
  - split; [lia|]. apply Z.lt_trans with (2 ^ 32); [lia | reflexivity].
Qed.

Lemma div_by_length_nonneg (a : number) (n : nat) :
  (0 < Z.of_nat n < 2 ^ 32) ->
  nonnegS (Prim2SF a) = true -> nonnegS (Prim2SF (a / of_nat n)%float) = true.
Proof.
  intros Hn Ha. destruct (of_nat_finite n Hn) as (m & e & Hf).
  rewrite div_spec, Hf.
  pose proof (SFdiv_nonneg_positive (Prim2SF a) (S754_finite false m e) Ha eq_refl) as H.
  destruct (Prim2SF a); exact H.
Qed.

Lemma sum_of_calculated_nonneg (pairs : list (number * number)) (acc : number) :
  Forall (fun p => pair_ok p = true) pairs ->
  nonnegS (Prim2SF acc) = true ->
  nonnegS (Prim2SF (fold_left (fun sum p => (sum + fst p)%float) pairs acc)) = true.
Proof.
  intros Hall. revert acc. induction Hall as [|p pairs Hp _ IH]; intros acc Hacc; simpl.
  - exact Hacc.
  - apply IH. rewrite add_spec. apply SFadd_nonneg; [exact Hacc|].
    apply positive_finite_nonneg. apply (pair_ok_shapes p Hp).
Qed.

Lemma accumulate_nonneg (mean : number) (pairs : list (number * number)) (acc : sums) :
  Forall (fun p => pair_ok p = true) pairs ->
  nonnegS (Prim2SF mean) = true ->
  nonnegS (Prim2SF (ssRes acc)) = true ->
  nonnegS (Prim2SF (ssTot acc)) = true ->
  nonnegS (Prim2SF (sumAbsError acc)) = true ->
  let r := fold_left (accumulate mean) pairs acc in
  nonnegS (Prim2SF (ssRes r)) = true /\
  nonnegS (Prim2SF (ssTot r)) = true /\
  nonnegS (Prim2SF (sumAbsError r)) = true.
Proof.
  intros Hall Hmean. revert acc.
  induction Hall as [|p pairs Hp _ IH]; intros acc H1 H2 H3; simpl.
  - auto.
  - destruct (pair_ok_shapes p Hp) as (Fc & Ft & _ & _).
    apply IH; unfold accumulate; cbn [ssRes ssTot sumAbsError].
    + rewrite add_spec, mul_spec, sub_spec. apply SFadd_nonneg; [exact H1|].
      apply SFmul_self_nonneg. now apply SFsub_finite_not_nan.
    + rewrite add_spec, mul_spec, sub_spec. apply SFadd_nonneg; [exact H2|].
      apply SFmul_self_nonneg. now apply SFsub_finite_nonneg_not_nan.
    + unfold Math_abs. rewrite add_spec, abs_spec, sub_spec.
      apply SFadd_nonneg; [exact H3|].
      apply SFabs_nonneg. now apply SFsub_finite_not_nan.
Qed.

Lemma sumsOf_nonneg (calculated theoretical : array) :
  js_length calculated ->
  validPairs calculated theoretical <> [] ->
  let s := sumsOf (validPairs calculated theoretical) in
  nonnegS (Prim2SF (ssRes s)) = true /\
  nonnegS (Prim2SF (ssTot s)) = true /\
  nonnegS (Prim2SF (sumAbsError s)) = true.
Proof.
  intros Hlen Hne. unfold sumsOf.
  apply accumulate_nonneg; try reflexivity.
  - apply validPairs_pair_ok.
  - unfold meanCalculated. apply div_by_length_nonneg.
    + pose proof (length_validPairs calculated theoretical) as Hle.
      unfold js_length, len in Hlen.
      destruct (validPairs calculated theoretical); [congruence | simpl in *; lia].
    + apply sum_of_calculated_nonneg; [apply validPairs_pair_ok | reflexivity].
Qed.

Lemma length_validPairs_bounds (calculated theoretical : array) :
  js_length calculated ->
  validPairs calculated theoretical <> [] ->
  0 < Z.of_nat (length (validPairs calculated theoretical)) < 2 ^ 32.
Proof.
  intros Hlen Hne. pose proof (length_validPairs calculated theoretical) as Hle.
  unfold js_length, len in Hlen.
  destruct (validPairs calculated theoretical); [congruence | simpl in *; lia].
Qed.

(** X25.  For arrays of JavaScript length, the rmse and the mae that
    [calculateMatchQuality] reports are never NaN and never negative (they
    may be +Infinity). *)
Theorem match_errors_are_never_nan (calculated theoretical : array) :
  js_length calculated ->
  let q := calculateMatchQuality calculated theoretical in
  is_nan (rmse q) = false /\ (0 <=? rmse q)%float = true /\
  is_nan (mae q) = false /\ (0 <=? mae q)%float = true.
Proof.
  intros Hlen q. subst q. unfold calculateMatchQuality.
  destruct ((len calculated =? 0) || (len theoretical =? 0)); [repeat split|].
  destruct (Z.of_nat (length (validPairs calculated theoretical)) =? 0) eqn:E;
    [repeat split|].
  assert (Hne : validPairs calculated theoretical <> []).
  { intros H. rewrite H in E. discriminate E. }
  destruct (sumsOf_nonneg calculated theoretical Hlen Hne) as (H1 & _ & H3).
  pose proof (length_validPairs_bounds calculated theoretical Hlen Hne) as Hn.
  cbn [rmse mae]. cbv zeta in H1, H3.
  assert (R : nonnegS (Prim2SF (Math_sqrt
                (ssRes (sumsOf (validPairs calculated theoretical)) /
                 of_nat (length (validPairs calculated theoretical))))) = true).
  { unfold Math_sqrt. rewrite sqrt_spec. apply SFsqrt_nonneg.
    now apply div_by_length_nonneg. }
  assert (M : nonnegS (Prim2SF
                (sumAbsError (sumsOf (validPairs calculated theoretical)) /
                 of_nat (length (validPairs calculated theoretical)))%float) = true)
    by now apply div_by_length_nonneg.
  destruct (nonnegS_spec _ R), (nonnegS_spec _ M). auto.
Qed.

Lemma match_errors_are_never_nan_witness :
  is_nan (rmse (calculateMatchQuality [1e200; 1]%float [1; 1]%float)) = false.
Proof.
  apply (match_errors_are_never_nan [1e200; 1]%float [1; 1]%float).
  unfold js_length. reflexivity.
Defined.

Lemma infinity_shape (x : number) : x = infinity <-> Prim2SF x = S754_infinity false.
Proof.
  split; [intros ->; reflexivity|]. intros H. apply Prim2SF_inj. now rewrite H.
Qed.

Lemma nan_shape (x : number) : is_nan x = true <-> x = nan.
Proof.
  rewrite is_nan_spec. split.
  - intros H. apply Prim2SF_inj. change (Prim2SF nan) with S754_nan.
    destruct (Prim2SF x); try discriminate. reflexivity.
  - intros ->. reflexivity.
Qed.

(** X26.  For arrays of JavaScript length, the reported rSquared is NaN
    exactly when the residual and the total sum of squares are both
    +Infinity; in every other case it is a number of [0, 1]. *)
Theorem rSquared_is_nan_only_on_double_overflow (calculated theoretical : array) :
  js_length calculated ->
  let q := calculateMatchQuality calculated theoretical in
  let s := sumsOf (validPairs calculated theoretical) in
  (is_nan (rSquared q) = true <-> ssRes s = infinity /\ ssTot s = infinity) /\
  (is_nan (rSquared q) = false ->
   (0 <=? rSquared q)%float = true /\ (rSquared q <=? 1)%float = true).
Proof.
  intros Hlen q s. subst q s.
  assert (Hclamp : is_nan (rSquared (calculateMatchQuality calculated theoretical)) = false ->
            (0 <=? rSquared (calculateMatchQuality calculated theoretical))%float = true /\
            (rSquared (calculateMatchQuality calculated theoretical) <=? 1)%float = true).
  { unfold calculateMatchQuality.
    destruct ((len calculated =? 0) || (len theoretical =? 0)); [repeat split|].
    destruct (Z.of_nat (length (validPairs calculated theoretical)) =? 0);
      [repeat split|].
    cbn [rSquared]. intros Hn.
    destruct (is_nan (rawRSquared (validPairs calculated theoretical))) eqn:Hraw.
    - apply nan_shape in Hraw. rewrite Hraw in Hn. discriminate Hn.
    - destruct (clamp_number _ Hraw) as (A & B & _). auto. }
  split; [|exact Hclamp].
  destruct (validPairs calculated theoretical) as [|p ps] eqn:Evp.
  { assert (Hq : rSquared (calculateMatchQuality calculated theoretical) = 0%float).
    { unfold calculateMatchQuality. rewrite Evp.
      destruct ((len calculated =? 0) || (len theoretical =? 0)); reflexivity. }
    rewrite Hq. split; [discriminate|]. intros [H _]. discriminate H. }
  assert (Hne : validPairs calculated theoretical <> []) by (rewrite Evp; discriminate).
  destruct (sumsOf_nonneg calculated theoretical Hlen Hne) as (H1 & H2 & _).
  cbv zeta in H1, H2. rewrite Evp in H1, H2.
  assert (Hq : rSquared (calculateMatchQuality calculated theoretical) =
               Math_max 0 (Math_min 1 (rawRSquared (p :: ps)))).
  { unfold calculateMatchQuality. rewrite Evp.
    destruct ((len calculated =? 0) || (len theoretical =? 0)) eqn:G; [|reflexivity].
    exfalso. apply orb_prop in G. destruct G as [G|G]; apply Z.eqb_eq in G.
    - destruct calculated; [discriminate Evp | discriminate G].
    - destruct theoretical; [|discriminate G].
      rewrite validPairs_none in Evp; [discriminate Evp|].
      intros i. unfold pair_ok. cbn [fst snd].
      rewrite (aget_outside [] i) by (unfold len; simpl; lia).
      change (isFinite nan) with false. now rewrite andb_false_r. }
  rewrite Hq. unfold rawRSquared. rewrite gt_zero_spec.
  rewrite !infinity_shape.
  set (r := ssRes (sumsOf (p :: ps))) in *. set (t := ssTot (sumsOf (p :: ps))) in *.
  destruct (positiveS (Prim2SF t)) eqn:Ht.
  - pose proof (SFdiv_nonneg_positive (Prim2SF r) (Prim2SF t) H1 Ht) as Hd.
    destruct (Prim2SF r) as [[]|[]| |[] mr er] eqn:Er; try discriminate H1;
      destruct (Prim2SF t) as [[]|[]| |[] mt et] eqn:Et; try discriminate Ht;
      try (assert (Hx : (r / t)%float = nan)
             by (apply Prim2SF_inj; rewrite div_spec, Er, Et; exact Hd);
           rewrite Hx, sub_nan_r; split; [auto | reflexivity]);
      (split; [|intros [A B]; discriminate]);
      intros Hnan; exfalso;
      assert (Hraw : is_nan (1 - r / t)%float = false)
        by (rewrite is_nan_spec, sub_spec;
            apply SFsub_finite_nonneg_not_nan; [reflexivity|];
            rewrite div_spec, Er, Et; exact Hd);
      destruct (clamp_number _ Hraw) as (A & _);
      cbv zeta in A; apply leb_rank in A; destruct A as (_ & A & _);
      rewrite <- is_nan_spec in A; congruence.
  - split; [intros H; discriminate H|].
    intros [_ B]. rewrite B in Ht. discriminate Ht.
Qed.

Lemma rSquared_is_nan_only_on_double_overflow_witness :
  (0 <=? rSquared (calculateMatchQuality [2; 3]%float [3; 2]%float))%float = true.
Proof.
  apply (rSquared_is_nan_only_on_double_overflow [2; 3]%float [3; 2]%float).
  - unfold js_length. reflexivity.
  - reflexivity.
Defined.

End TypeCurveExtras.

(* ================================================================== *)
(** * Properties of the callers: import and components *)
(* ================================================================== *)

Module CallerProps.
Import JS NumericalUtils Blasingame TypeCurve DataImport Components Props Shapes FloatShape.
Import ArrayFacts FloatFacts FloatSignFacts LoopFacts NumericalUtilsProps.
Import BlasingameProps TypeCurveProps BlasingameExtras.
Local Open Scope Z_scope.

(** ** buildDataset *)

Lemma existsb_has_pressure (rows : list ParsedImportRow) :
  existsb (fun r => match pressure r with Some _ => true | None => false end) rows = true
  <-> exists r, In r rows /\ pressure r <> None.
Proof.
  rewrite existsb_exists. split; intros (r & Hin & H); exists r; split; auto.
  - destruct (pressure r); [discriminate | discriminate H].
  - destruct (pressure r); [reflexivity | congruence].
Qed.

Lemma len_cumulative (rows : list ParsedImportRow) (rate : ParsedImportRow -> number) :
  rows <> [] ->
  len (trapezoidalIntegrate (datesToDays (map date rows)) (map rate rows))
  = Z.of_nat (length rows) /\
  aget (trapezoidalIntegrate (datesToDays (map date rows)) (map rate rows)) 0 = 0%float.
Proof.
  intros Hne.
  destruct (trapezoidalIntegrate_spec (datesToDays (map date rows)) (map rate rows))
    as (Hlen & H0 & _).
  split; [|exact H0]. rewrite Hlen, len_datesToDays, length_map.
  destruct rows; [congruence | simpl length; lia].
Qed.

Lemma aget_map_nth_error {A : Type} (f : A -> number) (l : list A) (k : nat) (a : A) :
  nth_error l k = Some a -> aget (map f l) (Z.of_nat k) = f a.
Proof.
  intros H. rewrite aget_nth.
  rewrite (nth_indep _ nan (f a))
    by (rewrite length_map; apply nth_error_Some; congruence).
  rewrite map_nth. f_equal. now apply nth_error_nth.
Qed.

Lemma pressure_of_rows (rows : list ParsedImportRow) :
  let pd := buildDataset_productionData rows in
  ((forall r, In r rows -> pressure r = None) -> pd_pressure pd = None) /\
  ((exists r, In r rows /\ pressure r <> None) ->
   pd_pressure pd =
   Some (map (fun r => match pressure r with Some p => p | None => nan end) rows)).
Proof.
  cbv zeta. unfold buildDataset_productionData. cbn [pd_pressure].
  destruct (existsb _ rows) eqn:E; split; intros H; try reflexivity.
  - apply existsb_has_pressure in E. destruct E as (r & Hin & Hp).
    now rewrite (H r Hin) in Hp.
  - apply existsb_has_pressure in H. congruence.
Qed.

(** X27.  For a non-empty list of imported rows, [buildDataset] produces
    parallel series: the dates, the three rate arrays and the three
    cumulative arrays all have one entry per row, and each cumulative array
    starts at 0.  The pressure array is absent when no row has a pressure;
    otherwise it has one entry per row, NaN where the row has none. *)
Theorem imported_series_are_parallel (rows : list ParsedImportRow) :
  rows <> [] ->
  let pd := buildDataset_productionData rows in
  let n := Z.of_nat (length rows) in
  Z.of_nat (length (pd_dates pd)) = n /\
  len (oilRates pd) = n /\ len (gasRates pd) = n /\ len (waterRates pd) = n /\
  len (cumulativeOil pd) = n /\ len (cumulativeGas pd) = n /\
  len (cumulativeWater pd) = n /\
  aget (cumulativeOil pd) 0 = 0%float /\ aget (cumulativeGas pd) 0 = 0%float /\
  aget (cumulativeWater pd) 0 = 0%float /\
  ((forall r, In r rows -> pressure r = None) -> pd_pressure pd = None) /\
  ((exists r, In r rows /\ pressure r <> None) ->
   exists ps, pd_pressure pd = Some ps /\ len ps = n /\
     forall k row, nth_error rows k = Some row ->
       aget ps (Z.of_nat k) = match pressure row with Some p => p | None => nan end).
Proof.
  intros Hne pd n. subst pd n.
  destruct (len_cumulative rows oilRate Hne) as [Lo Zo].
  destruct (len_cumulative rows gasRate Hne) as [Lg Zg].
  destruct (len_cumulative rows waterRate Hne) as [Lw Zw].
  destruct (pressure_of_rows rows) as [Hnone Hsome]. cbv zeta in Hnone, Hsome.
  unfold buildDataset_productionData in *.
  cbn [pd_dates oilRates gasRates waterRates cumulativeOil cumulativeGas
       cumulativeWater pd_pressure] in *.
  rewrite length_map, !len_map.
  repeat (split; [first [reflexivity | assumption]|]).
  intros H. rewrite (Hsome H). eexists. split; [reflexivity|].
  split; [now rewrite len_map|].
  intros k row Hk.
  exact (aget_map_nth_error
           (fun r => match pressure r with Some p => p | None => nan end) rows k row Hk).
Qed.

Lemma imported_series_are_parallel_witness :
  len (cumulativeOil (buildDataset_productionData
         [ {| date := day 0; oilRate := 100; gasRate := 0; waterRate := 0;
              pressure := None |};
           {| date := day 1; oilRate := 90; gasRate := 0; waterRate := 0;
              pressure := Some 4500%float |} ])) = 2.
Proof.
  apply (imported_series_are_parallel
           [ {| date := day 0; oilRate := 100; gasRate := 0; waterRate := 0;
                pressure := None |};
             {| date := day 1; oilRate := 90; gasRate := 0; waterRate := 0;
                pressure := Some 4500%float |} ]).
  discriminate.
Defined.

(** Without rows the series are not parallel: no rate, one cumulative
    value. *)
Lemma imported_series_of_no_rows :
  oilRates (buildDataset_productionData []) = [] /\
  cumulativeOil (buildDataset_productionData []) = [0%float].
Proof. split; reflexivity. Qed.

(** ** From the imported rows to the pressure drops *)

(** X28.  When the productionData that [buildDataset] returns is itself the
    argument of [updateBlasigamCalculation] (the hand-off of the import
    dialog within one session; a dataset read back from localStorage by
    ImportPersistenceService is another object, in which JSON has turned the
    NaN placeholders into null, and is not covered), there is one pressure
    drop per row.  If some row has a pressure, every drop is strictly greater
    than zero and each row without a pressure gets exactly 100.  If no row
    has a pressure, every drop is 0.35 times the initial pressure, where a
    missing, zero or NaN initial pressure counts as 5000 (a drop of 1750 when
    it is missing). *)
Theorem pressure_drops_of_imported_rows
    (Math_log : number -> number) (rows : list ParsedImportRow) (wp : WellProperties) :
  rows <> [] ->
  exists out,
    updateBlasigamCalculation Math_log
      (Some (buildDataset_productionData rows)) (Some wp) = Some (Return out) /\
    len (pressureDrops out) = Z.of_nat (length rows) /\
    ((exists r, In r rows /\ pressure r <> None) ->
     forall k row, nth_error rows k = Some row ->
       gt (aget (pressureDrops out) (Z.of_nat k)) 0 = true /\
       (pressure row = None -> aget (pressureDrops out) (Z.of_nat k) = 100%float)) /\
    ((forall r, In r rows -> pressure r = None) ->
     forall i, 0 <= i < Z.of_nat (length rows) ->
       aget (pressureDrops out) i =
       (orDefault (wp_initialPressure wp) 5000 * 0.35)%float /\
       (wp_initialPressure wp = None -> aget (pressureDrops out) i = 1750%float)).
Proof.
  intros Hne. eexists. split; [reflexivity|].
  cbn [pressureDrops prepareBlasingameInput dates pressures initialPressure].
  destruct (pressure_of_rows rows) as [Hnone Hsome]. cbv zeta in Hnone, Hsome.
  assert (Hdays : len (datesToDays (pd_dates (buildDataset_productionData rows)))
                  = Z.of_nat (length rows)).
  { rewrite len_datesToDays. unfold buildDataset_productionData. cbn [pd_dates].
    now rewrite length_map. }
  rewrite Hdays. split; [apply len_calculatePressureDrops; lia|]. split.
  - intros H k row Hk. rewrite (Hsome H).
    set (ps := map (fun r => match pressure r with Some p => p | None => nan end) rows).
    assert (Lps : len ps = Z.of_nat (length rows)) by (unfold ps; now rewrite len_map).
    rewrite <- Lps.
    assert (Hrange : 0 <= Z.of_nat k < len ps).
    { rewrite Lps. split; [lia|]. apply Nat2Z.inj_lt. apply nth_error_Some. congruence. }
    split; [now apply measured_drop_positive|].
    intros Hp. rewrite calculatePressureDrops_measured by exact Hrange.
    unfold ps.
    rewrite (aget_map_nth_error
               (fun r => match pressure r with Some p => p | None => nan end)
               rows k row Hk).
    rewrite Hp. cbv zeta. now rewrite sub_nan_r.
  - intros H i Hi. rewrite (Hnone H). unfold calculatePressureDrops.
    rewrite aget_new_Array_fill by exact Hi. split; [reflexivity|].
    intros ->. reflexivity.
Qed.

Lemma pressure_drops_of_imported_rows_witness :
  exists out,
    updateBlasigamCalculation (fun v => v)
      (Some (buildDataset_productionData
         [ {| date := day 0; oilRate := 100; gasRate := 0; waterRate := 0;
              pressure := None |};
           {| date := day 1; oilRate := 90; gasRate := 0; waterRate := 0;
              pressure := Some 4500%float |} ]))
      (Some {| wp_initialPressure := Some 5000%float; wp_wellboreRadius := None;
               wp_netPayThickness := None; wp_porosity := None;
               wp_viscosity := None; wp_formationVolumeFactor := None |})
    = Some (Return out) /\
    pressureDrops out = [100; 500]%float.
Proof.
  destruct (pressure_drops_of_imported_rows (fun v => v)
         [ {| date := day 0; oilRate := 100; gasRate := 0; waterRate := 0;
              pressure := None |};
           {| date := day 1; oilRate := 90; gasRate := 0; waterRate := 0;
              pressure := Some 4500%float |} ]
         {| wp_initialPressure := Some 5000%float; wp_wellboreRadius := None;
            wp_netPayThickness := None; wp_porosity := None;
            wp_viscosity := None; wp_formationVolumeFactor := None |})
    as (out & Hout & _).
  - discriminate.
  - exists out. split; [exact Hout|]. inversion Hout. reflexivity.
Defined.

(** ** Too few points *)

Lemma cleaned_empty_for_short_series
    (Math_log : number -> number) (input : BlasingameInput) :
  len (rates input) <= 1 ->
  valid_indices (rawCurves Math_log input) = [].
Proof.
  intros Hn. rewrite valid_indices_filter.
  pose proof (length_filter_indices_without_0
                (valid_at (rawCurves Math_log input))
                (length (c_materialBalanceTime (rawCurves Math_log input)))
                (first_point_invalid Math_log input)) as Hle.
  destruct (rawCurves_lengths Math_log input) as (Hte & _).
  unfold len in Hte, Hn.
  destruct (filter _ _) as [|i sel]; [reflexivity|].
  exfalso. cbn [length] in Hle. lia.
Qed.

End CallerProps.

Module MatcherProps.
Import JS NumericalUtils Blasingame TypeCurve DataImport Components Props.
Import ArrayFacts FloatFacts CallerProps TypeCurveExtras.
Import String.
Local Open Scope string_scope.
Local Open Scope Z_scope.

(** X29.  With at most one production point the Blasingame page gets empty
    curves from [calculate], and the matcher then reports the all-zero match
    quality, which it displays as a poor match, whatever the three
    parameters are. *)
Theorem too_few_points_give_a_poor_zero_match
    (Math_log Math_exp : number -> number)
    (pd : ProductionData) (wp : WellProperties) (khValue skinValue areaValue : number) :
  len (oilRates pd) <= 1 ->
  exists out,
    updateBlasigamCalculation Math_log (Some pd) (Some wp) = Some (Return out) /\
    materialBalanceTime out = [] /\ qDd out = [] /\ qDdi out = [] /\ qDdid out = [] /\
    updateMatching Math_exp (Some out) khValue skinValue areaValue =
    Some (Return {| rSquared := 0; rmse := 0; mae := 0 |}) /\
    getRSquaredClass {| rSquared := 0; rmse := 0; mae := 0 |} = "poor".
Proof.
  intros Hn. eexists. split; [reflexivity|].
  cbn [materialBalanceTime qDd qDdi qDdid]. unfold cleanData.
  rewrite (cleaned_empty_for_short_series Math_log (prepareBlasingameInput pd wp))
    by exact Hn.
  cbn [c_materialBalanceTime c_qDd c_qDdi c_qDdid map].
  repeat (split; [reflexivity|]). reflexivity.
Qed.

Lemma too_few_points_give_a_poor_zero_match_witness :
  exists out,
    updateBlasigamCalculation (fun v => v)
      (Some (buildDataset_productionData
         [ {| date := day 0; oilRate := 100; gasRate := 0; waterRate := 0;
              pressure := None |} ]))
      (Some {| wp_initialPressure := None; wp_wellboreRadius := None;
               wp_netPayThickness := None; wp_porosity := None;
               wp_viscosity := None; wp_formationVolumeFactor := None |})
    = Some (Return out) /\ qDd out = [].
Proof.
  destruct (too_few_points_give_a_poor_zero_match (fun v => v) (fun v => v)
      (buildDataset_productionData
         [ {| date := day 0; oilRate := 100; gasRate := 0; waterRate := 0;
              pressure := None |} ])
      {| wp_initialPressure := None; wp_wellboreRadius := None;
         wp_netPayThickness := None; wp_porosity := None;
         wp_viscosity := None; wp_formationVolumeFactor := None |}
      100 0 100) as (out & Hout & _ & Hq & _).
  - vm_compute. discriminate.
  - exists out. split; assumption.
Defined.

(** X30.  [getRSquaredClass] is "excellent" exactly above 0.95, "good"
    exactly above 0.85 up to 0.95, "fair" exactly above 0.70 up to 0.85, and
    "poor" in every other case, a NaN rSquared included. *)
Theorem rSquared_classes (quality : MatchQuality) :
  let r2 := rSquared quality in
  (getRSquaredClass quality = "excellent" <-> gt r2 0.95 = true) /\
  (getRSquaredClass quality = "good" <-> gt r2 0.85 = true /\ gt r2 0.95 = false) /\
  (getRSquaredClass quality = "fair" <-> gt r2 0.70 = true /\ gt r2 0.85 = false) /\
  (getRSquaredClass quality = "poor" <-> gt r2 0.70 = false) /\
  (is_nan r2 = true -> getRSquaredClass quality = "poor").
Proof.
  intros r2. unfold getRSquaredClass. fold r2.
  assert (H1 : gt r2 0.95 = true -> gt r2 0.85 = true).
  { unfold gt. intros H. now apply (ltb_trans 0.85 0.95 r2). }
  assert (H2 : gt r2 0.85 = true -> gt r2 0.70 = true).
  { unfold gt. intros H. now apply (ltb_trans 0.70 0.85 r2). }
  assert (H3 : is_nan r2 = true -> gt r2 0.70 = false).
  { intros H. unfold gt. destruct (0.70 <? r2)%float eqn:E; [|reflexivity].
    apply ltb_rank in E. rewrite is_nan_spec in H. destruct E as (_ & E & _). congruence. }
  destruct (gt r2 0.95) eqn:E95.
  { rewrite (H1 eq_refl) in *. rewrite (H2 eq_refl) in *.
    split; [tauto|]. split; [split; [discriminate | intros [_ F]; discriminate]|].
    split; [split; [discriminate | intros [_ F]; discriminate]|].
    split; [split; discriminate|]. intros N. specialize (H3 N). discriminate. }
  destruct (gt r2 0.85) eqn:E85.
  { rewrite (H2 eq_refl) in *.
    split; [split; discriminate|]. split; [tauto|].
    split; [split; [discriminate | intros [_ F]; discriminate]|].
    split; [split; discriminate|]. intros N. specialize (H3 N). discriminate. }
  destruct (gt r2 0.70) eqn:E70.
  { split; [split; discriminate|].
    split; [split; [discriminate | intros [F _]; discriminate]|].
    split; [tauto|].
    split; [split; discriminate|]. intros N. specialize (H3 N). discriminate. }
  split; [split; discriminate|].
  split; [split; [discriminate | intros [F _]; discriminate]|].
  split; [split; [discriminate | intros [F _]; discriminate]|].
  split; [tauto|]. reflexivity.
Qed.

End MatcherProps.

(* ================================================================== *)
(** * Match quality at its boundaries *)
(* ================================================================== *)

Module MatchBoundaryProps.
Import JS TypeCurve Props FloatShape Shapes ArrayFacts FloatFacts TypeCurveProps.
Import FloatSignFacts.
Local Open Scope float_scope.
Local Open Scope Z_scope.

(** ** Division by one is exact *)

Lemma div_eucl_shiftl (m : positive) (k : Z) :
  0 <= k ->
  Z.div_eucl (Z.shiftl (Z.pos m) k) (2 ^ k) = (Z.pos m, 0).
Proof.
  intros Hk. rewrite Z.shiftl_mul_pow2 by exact Hk.
  assert (Hp : 0 < 2 ^ k) by (apply Z.pow_pos_nonneg; lia).
  pose proof (Z.div_mul (Z.pos m) (2 ^ k) ltac:(lia)) as Hq.
  pose proof (Z.mod_mul (Z.pos m) (2 ^ k) ltac:(lia)) as Hr.
  unfold Z.div, Z.modulo in Hq, Hr.
  destruct (Z.div_eucl (Z.pos m * 2 ^ k) (2 ^ k)) as [q r]. congruence.
Qed.

Lemma SFdiv_one (m : positive) (e : Z) :
  bounded prec emax m e = true ->
  SF64div (S754_finite false m e) (Prim2SF 1) = S754_finite false m e.
Proof.
  unfold bounded, canonical_mantissa. intros Hb.
  apply andb_prop in Hb. destruct Hb as [Hc He]. apply Z.eqb_eq in Hc.
  change (Prim2SF 1) with (S754_finite false 4503599627370496 (-52)).
  unfold SF64div, SFdiv, SFdiv_core_binary.
  change (Zdigits2 (Z.pos m)) with (Z.pos (digits2_pos m)).
  change (Zdigits2 4503599627370496) with 53.
  set (d := Z.pos (digits2_pos m)) in *.
  assert (Hd : 0 < d) by (unfold d; lia).
  unfold fexp, SpecFloat.emin, prec, emax in Hc.
  destruct (Z.eq_dec e (-1074)) as [Hmin|Hnorm].
  - (* the smallest exponent: the quotient keeps the exponent *)
    assert (He' : Z.min (fexp prec emax (d + e - (53 + -52))) (e - -52) = e).
    { unfold fexp, SpecFloat.emin, prec, emax. lia. }
    rewrite He'. replace (e - -52 - e) with 52 by lia.
    change 4503599627370496 with (2 ^ 52) at 1.
    rewrite (div_eucl_shiftl m 52) by lia.
    change (xorb false false) with false.
    apply binary_round_aux_exact.
    + unfold fexp, SpecFloat.emin, prec, emax. fold d. lia.
    + exact He.
  - (* a normal number: the quotient has one more bit, which is 0 *)
    assert (Hd53 : d = 53) by lia.
    assert (He' : Z.min (fexp prec emax (d + e - (53 + -52))) (e - -52) = e - 1).
    { unfold fexp, SpecFloat.emin, prec, emax. lia. }
    rewrite He'. replace (e - -52 - (e - 1)) with 53 by lia.
    change 4503599627370496 with (2 ^ 52) at 1.
    assert (Hq : Z.div_eucl (Z.shiftl (Z.pos m) 53) (2 ^ 52) = (Z.pos m~0, 0)).
    { replace (Z.shiftl (Z.pos m) 53) with (Z.shiftl (Z.pos m~0) 52).
      - apply div_eucl_shiftl. lia.
      - rewrite !Z.shiftl_mul_pow2 by lia. change (2 ^ 53) with (2 * 2 ^ 52). lia. }
    rewrite Hq. change (xorb false false) with false.
    change (new_location 4503599627370496 0) with loc_Exact.
    unfold binary_round_aux.
    assert (Hs : shr_fexp prec emax (Z.pos m~0) (e - 1) loc_Exact =
                 ({| shr_m := Z.pos m; shr_r := false; shr_s := false |}, e)).
    { unfold shr_fexp, Zdigits2. cbn [digits2_pos].
      replace (fexp prec emax (Z.pos (Pos.succ (digits2_pos m)) + (e - 1)) - (e - 1))
        with 1.
      - unfold shr. cbn. f_equal. lia.
      - unfold fexp, SpecFloat.emin, prec, emax. rewrite Pos2Z.inj_succ. fold d. lia. }
    rewrite Hs. cbn [shr_m loc_of_shr_record round_nearest_even].
    rewrite (shr_fexp_exact m e).
    + cbn [shr_m]. rewrite He. reflexivity.
    + unfold fexp, SpecFloat.emin, prec, emax. fold d. lia.
Qed.

Lemma div_one (c : number) :
  isFinite c = true -> gt c 0 = true -> (c / 1)%float = c.
Proof.
  unfold isFinite. rewrite is_finite_spec, gt_zero_spec. intros Hf Hp.
  apply Prim2SF_inj. rewrite div_spec.
  pose proof (Prim2SF_valid c) as Hv.
  destruct (Prim2SF c) as [s|s| |s m e]; try discriminate.
  destruct s; [discriminate|]. now apply SFdiv_one.
Qed.

Lemma zero_add_positive (c : number) :
  isFinite c = true -> gt c 0 = true -> (0 + c)%float = c.
Proof.
  unfold isFinite. rewrite is_finite_spec, gt_zero_spec. intros Hf Hp.
  apply Prim2SF_inj. rewrite add_spec. change (Prim2SF 0) with (S754_zero false).
  destruct (Prim2SF c) as [s|s| |s m e]; try discriminate. reflexivity.
Qed.

(** ** The code's accumulators are the mean and SStot of the specification *)

Lemma fold_left_map_fst {St : Type} (f : St -> number -> St)
    (pairs : list (number * number)) (acc : St) :
  fold_left (fun a p => f a (fst p)) pairs acc = fold_left f (map fst pairs) acc.
Proof. revert acc. induction pairs as [|p pairs IH]; intros acc; simpl; auto. Qed.

Lemma meanCalculated_specMean (pairs : list (number * number)) :
  meanCalculated pairs = specMean (map fst pairs).
Proof.
  unfold meanCalculated, specMean. rewrite length_map.
  now rewrite <- (fold_left_map_fst (fun sum c => sum + c)%float).
Qed.

Lemma ssTot_accumulate (mean : number) (pairs : list (number * number)) (acc : sums) :
  ssTot (fold_left (accumulate mean) pairs acc) =
  fold_left (fun a c => a + (c - mean) * (c - mean))%float (map fst pairs) (ssTot acc).
Proof.
  revert acc. induction pairs as [|p pairs IH]; intros acc; simpl; [reflexivity|].
  rewrite IH. reflexivity.
Qed.

Lemma ssTot_specSStot (pairs : list (number * number)) :
  ssTot (sumsOf pairs) = specSStot (map fst pairs).
Proof.
  unfold sumsOf, specSStot. rewrite ssTot_accumulate, meanCalculated_specMean.
  reflexivity.
Qed.

Lemma survivingCalculated_finite_positive (calculated theoretical : array) (c : number) :
  In c (survivingCalculated calculated theoretical) ->
  isFinite c = true /\ gt c 0 = true.
Proof.
  unfold survivingCalculated. intros Hin. apply in_map_iff in Hin.
  destruct Hin as (p & <- & Hp).
  pose proof (validPairs_pair_ok calculated theoretical) as Hall.
  rewrite Forall_forall in Hall. specialize (Hall p Hp).
  unfold pair_ok in Hall.
  repeat (apply andb_prop in Hall; destruct Hall as [Hall ?]). tauto.
Qed.

(** When every value equals the mean, every squared deviation is 0. *)
Lemma sum_of_zero_deviations (mean : number) (values : list number) :
  (forall c, In c values -> c = mean /\ isFinite c = true) ->
  fold_left (fun a c => a + (c - mean) * (c - mean))%float values 0%float = 0%float.
Proof.
  induction values as [|c values IH]; intros H; simpl; [reflexivity|].
  destruct (H c (or_introl eq_refl)) as [Hc Hfin].
  rewrite <- Hc at 1 2. rewrite (sub_diag_finite c Hfin).
  change (0 + 0 * 0)%float with 0%float.
  apply IH. intros c' Hc'. apply H. now right.
Qed.

Lemma rSquared_of_SStot (calculated theoretical : array) :
  gt (specSStot (survivingCalculated calculated theoretical)) 0 = false ->
  rSquared (calculateMatchQuality calculated theoretical) = 0%float.
Proof.
  intros Hzero. unfold calculateMatchQuality.
  destruct ((len calculated =? 0) || (len theoretical =? 0)); [reflexivity|].
  destruct (Z.of_nat (length (validPairs calculated theoretical)) =? 0);
    [reflexivity|].
  cbn [rSquared]. unfold rawRSquared. rewrite ssTot_specSStot.
  unfold survivingCalculated in Hzero. rewrite Hzero. reflexivity.
Qed.

Lemma single_value_mean (c : number) :
  isFinite c = true -> gt c 0 = true -> specMean [c] = c.
Proof.
  intros Hf Hp. unfold specMean. cbn [fold_left length].
  change (of_nat 1) with 1%float.
  rewrite (zero_add_positive c Hf Hp). exact (div_one c Hf Hp).
Qed.

(** C7, amended.  A perfect match with at least one surviving pair has
    rmse 0 and mae 0, and rSquared 1 when SStot > 0 and 0 otherwise, SStot
    being the sum of the squared deviations of the surviving calculated
    values from their mean.  Whenever SStot is 0 the result has rSquared 0;
    SStot is 0 whenever every surviving value equals the computed mean, and
    in particular whenever exactly one pair survives.  Equal surviving values
    alone do not make SStot 0: the computed mean of 0.1, 0.1, 0.1 is not 0.1,
    and a perfect match of them has rSquared 1. *)
Theorem match_quality_boundaries (calculated theoretical : array) :
  let q := calculateMatchQuality calculated theoretical in
  let values := survivingCalculated calculated theoretical in
  (js_length calculated -> theoretical = calculated -> values <> [] ->
   rmse q = 0%float /\ mae q = 0%float /\
   rSquared q = if gt (specSStot values) 0 then 1%float else 0%float) /\
  ((specSStot values =? 0)%float = true -> rSquared q = 0%float) /\
  ((forall c, In c values -> c = specMean values) ->
   specSStot values = 0%float /\ rSquared q = 0%float) /\
  (length values = 1%nat -> specSStot values = 0%float /\ rSquared q = 0%float) /\
  (specMean [0.1; 0.1; 0.1]%float <> 0.1%float /\
   gt (specSStot [0.1; 0.1; 0.1]%float) 0 = true /\
   rSquared (calculateMatchQuality [0.1; 0.1; 0.1]%float [0.1; 0.1; 0.1]%float) = 1%float).
Proof.
  cbv zeta.
  assert (Hmean : (forall c, In c (survivingCalculated calculated theoretical) ->
                     c = specMean (survivingCalculated calculated theoretical)) ->
                  specSStot (survivingCalculated calculated theoretical) = 0%float /\
                  rSquared (calculateMatchQuality calculated theoretical) = 0%float).
  { intros Hall.
    assert (Hz : specSStot (survivingCalculated calculated theoretical) = 0%float).
    { unfold specSStot. apply sum_of_zero_deviations. intros c Hc.
      split; [now apply Hall|].
      now apply (survivingCalculated_finite_positive calculated theoretical). }
    split; [exact Hz|]. apply rSquared_of_SStot. rewrite Hz. reflexivity. }
  split; [|split; [|split; [exact Hmean|split]]].
  - intros Hlen -> Hne.
    assert (Hvp : validPairs calculated calculated <> []).
    { intros E. apply Hne. unfold survivingCalculated. now rewrite E. }
    destruct (sumsOf_perfect calculated) as [Hres Habs].
    pose proof (length_validPairs calculated calculated) as Hle.
    assert (Hn : gt (of_nat (length (validPairs calculated calculated))) 0 = true).
    { apply of_nat_positive. unfold js_length, len in Hlen.
      destruct (validPairs calculated calculated); [congruence | simpl in *; lia]. }
    unfold calculateMatchQuality.
    destruct ((len calculated =? 0) || (len calculated =? 0)) eqn:Hguard.
    { exfalso. apply Hvp. rewrite orb_diag in Hguard. apply Z.eqb_eq in Hguard.
      destruct calculated; [reflexivity | discriminate Hguard]. }
    destruct (Z.of_nat (length (validPairs calculated calculated)) =? 0) eqn:Hempty.
    { exfalso. apply Hvp. apply Z.eqb_eq in Hempty.
      destruct (validPairs calculated calculated); [reflexivity | discriminate Hempty]. }
    cbn [rmse mae rSquared]. rewrite Hres, Habs.
    rewrite (zero_div_positive _ Hn). split; [reflexivity|]. split; [reflexivity|].
    unfold rawRSquared. rewrite ssTot_specSStot. fold (survivingCalculated calculated calculated).
    destruct (gt (specSStot (survivingCalculated calculated calculated)) 0) eqn:Htot;
      [|reflexivity].
    rewrite Hres, (zero_div_positive _ Htot). reflexivity.
  - intros Hzero. apply rSquared_of_SStot. now apply eqb_zero_not_gt.
  - intros Hone. apply Hmean. intros c Hc.
    destruct (survivingCalculated_finite_positive calculated theoretical c Hc) as [Hf Hp].
    destruct (survivingCalculated calculated theoretical) as [|c0 [|c1 rest]];
      try discriminate Hone.
    destruct Hc as [<-|[]]. symmetry. now apply single_value_mean.
  - split; [|split; reflexivity].
    intros H. assert (E : (specMean [0.1; 0.1; 0.1] =? 0.1)%float = true)
      by (rewrite H; reflexivity).
    discriminate E.
Qed.

(** A perfect match of two distinct points, a calculated array of zero
    variance, and a single surviving point. *)
Lemma match_quality_boundaries_witness :
  (rmse (calculateMatchQuality [2%float; 3%float] [2%float; 3%float]) = 0%float /\
   mae (calculateMatchQuality [2%float; 3%float] [2%float; 3%float]) = 0%float /\
   rSquared (calculateMatchQuality [2%float; 3%float] [2%float; 3%float]) = 1%float) /\
  rSquared (calculateMatchQuality [2%float; 2%float] [3%float; 5%float]) = 0%float /\
  rSquared (calculateMatchQuality [nan; 7%float] [1%float; 7%float]) = 0%float.
Proof.
  split; [|split].
  - destruct (match_quality_boundaries [2%float; 3%float] [2%float; 3%float])
      as [H _].
    apply H; [unfold js_length; reflexivity | reflexivity | discriminate].
  - destruct (match_quality_boundaries [2%float; 2%float] [3%float; 5%float])
      as (_ & _ & H & _).
    apply H. intros c [<-|[<-|[]]]; reflexivity.
  - destruct (match_quality_boundaries [nan; 7%float] [1%float; 7%float])
      as (_ & _ & _ & H & _).
    apply H. reflexivity.
Defined.

End MatchBoundaryProps.

(* ================================================================== *)
(** * Configuration that is not validated *)
(* ================================================================== *)

Module DimensionlessTimeProps.
Import JS NumericalUtils Blasingame TypeCurve Props FloatShape Shapes.
Import ArrayFacts FloatFacts TypeCurveProps FloatSignFacts.
Local Open Scope float_scope.
Local Open Scope Z_scope.

(** ** The sign of a product and of a quotient *)

Lemma xorb_eqb (a s s' : bool) : Bool.eqb s s' = true -> Bool.eqb (xorb a s) (xorb a s') = true.
Proof. destruct a, s, s'; simpl; congruence. Qed.

Lemma xorb_eqb_r (a s s' : bool) : Bool.eqb s s' = true -> Bool.eqb (xorb s a) (xorb s' a) = true.
Proof. destruct a, s, s'; simpl; congruence. Qed.

Lemma signedS_zeroOrSignedS (s : bool) (f : spec_float) :
  signedS s f = true -> zeroOrSignedS s f = true.
Proof. unfold zeroOrSignedS. intros ->. apply orb_true_r. Qed.

Lemma SFmul_finite_l (sa : bool) (ma : positive) (ea : Z) (s : bool) (b : spec_float) :
  zeroOrSignedS s b = true ->
  zeroOrSignedS (xorb sa s) (SF64mul (S754_finite sa ma ea) b) = true.
Proof.
  unfold zeroOrSignedS, SF64mul, SFmul.
  destruct b as [sb|sb| |sb mb eb]; simpl; intros H; try discriminate.
  - reflexivity.
  - now apply xorb_eqb.
  - apply signedS_zeroOrSignedS.
    apply eqb_prop in H. subst sb. apply binary_round_aux_signed. lia.
Qed.

Lemma SFmul_finite_r (s : bool) (a : spec_float) (sb : bool) (mb : positive) (eb : Z) :
  zeroOrSignedS s a = true ->
  zeroOrSignedS (xorb s sb) (SF64mul a (S754_finite sb mb eb)) = true.
Proof.
  unfold zeroOrSignedS, SF64mul, SFmul.
  destruct a as [sa|sa| |sa ma ea]; simpl; intros H; try discriminate.
  - reflexivity.
  - now apply xorb_eqb_r.
  - apply signedS_zeroOrSignedS.
    apply eqb_prop in H. subst sa. apply binary_round_aux_signed. lia.
Qed.

Lemma SFdiv_finite_r (s : bool) (a : spec_float) (sb : bool) (mb : positive) (eb : Z) :
  zeroOrSignedS s a = true ->
  zeroOrSignedS (xorb s sb) (SF64div a (S754_finite sb mb eb)) = true.
Proof.
  unfold zeroOrSignedS, SF64div, SFdiv.
  destruct a as [sa|sa| |sa ma ea]; simpl; intros H; try discriminate.
  - reflexivity.
  - now apply xorb_eqb_r.
  - apply eqb_prop in H. subst sa.
    pose proof (SFdiv_core_binary_nonneg ma mb ea eb) as Hmz.
    destruct (SFdiv_core_binary prec emax (Z.pos ma) ea (Z.pos mb) eb) as [[mz ez] lz].
    simpl in Hmz. apply signedS_zeroOrSignedS.
    apply (binary_round_aux_signed (xorb s sb) mz ez lz Hmz).
Qed.

(** The comparisons of the code, read on shapes. *)
Lemma leb_zero_shape (x : number) :
  (x <=? 0)%float = zeroOrSignedS true (Prim2SF x).
Proof.
  rewrite FloatAxioms.leb_spec. change (Prim2SF 0) with (S754_zero false).
  destruct (Prim2SF x) as [[]|[]| |[] m e]; reflexivity.
Qed.

Lemma gt_zero_shape (x : number) :
  gt x 0 = true -> zeroOrSignedS false (Prim2SF x) = true.
Proof.
  rewrite gt_zero_spec.
  destruct (Prim2SF x) as [[]|[]| |[] m e]; try discriminate; reflexivity.
Qed.

Lemma finite_positive_shape (x : number) :
  isFinite x = true -> gt x 0 = true ->
  exists m e, Prim2SF x = S754_finite false m e.
Proof.
  unfold isFinite. rewrite is_finite_spec, gt_zero_spec.
  destruct (Prim2SF x) as [[]|[]| |[] m e]; try discriminate. intros _ _. eauto.
Qed.

Lemma finite_negative_shape (x : number) :
  isFinite x = true -> (x <? 0)%float = true ->
  exists m e, Prim2SF x = S754_finite true m e.
Proof.
  unfold isFinite. rewrite is_finite_spec, FloatAxioms.ltb_spec.
  change (Prim2SF 0) with (S754_zero false).
  destruct (Prim2SF x) as [[]|[]| |[] m e]; try discriminate. intros _ _. eauto.
Qed.

(** The dimensionless time of a finite time > 0 is <= 0 when the drainage
    area is finite and kh and the area are of opposite signs (kh may be 0). *)
Lemma dimensional_time_not_positive (khValue t area : number) :
  isFinite t = true -> gt t 0 = true -> isFinite area = true ->
  ((khValue <=? 0)%float = true /\ gt area 0 = true) \/
  (gt khValue 0 = true /\ (area <? 0)%float = true) ->
  (0.0002637 * khValue * t / area <=? 0)%float = true.
Proof.
  intros Hft Hpt Hfa Hsigns.
  destruct (finite_positive_shape t Hft Hpt) as (mt & et & Et).
  rewrite leb_zero_shape, div_spec, !mul_spec, Et.
  change (Prim2SF 0.0002637) with (S754_finite false 4864406412237209 (-64)).
  destruct Hsigns as [[Hkh Ha] | [Hkh Ha]].
  - destruct (finite_positive_shape area Hfa Ha) as (ma & ea & ->).
    rewrite leb_zero_shape in Hkh.
    apply (SFdiv_finite_r true _ false ma ea).
    apply (SFmul_finite_r true _ false mt et).
    exact (SFmul_finite_l false _ _ true _ Hkh).
  - destruct (finite_negative_shape area Hfa Ha) as (ma & ea & ->).
    apply gt_zero_shape in Hkh.
    apply (SFdiv_finite_r false _ true ma ea).
    apply (SFmul_finite_r false _ false mt et).
    exact (SFmul_finite_l false _ _ false _ Hkh).
Qed.

(** C2, amended.  [calculate] and [generateTheoreticalCurves] validate
    nothing and never throw: every input gets a result.  In [calculate] a
    pressure series whose length differs from the number of dates is replaced
    by the constant 0.35 * initialPressure, one per date.  In
    [generateTheoreticalCurves] the theoretical qDd has one value per
    material-balance time and is 0 wherever the dimensionless time is <= 0;
    that is the case at every finite material-balance time > 0 when the
    drainage area is finite and either kh <= 0 with an area > 0, or kh > 0
    with an area < 0. *)
Theorem configuration_is_not_validated
    (Math_log Math_exp : number -> number)
    (input : BlasingameInput) (data : BlasingameOutput) (params : MatchParams) :
  (exists out,
     calculate Math_log input = Return out /\
     (forall ps, pressures input = Some ps ->
                 length ps <> length (dates input) ->
                 pressureDrops out =
                 repeat (initialPressure input * 0.35)%float (length (dates input)))) /\
  (exists curves,
     generateTheoreticalCurves Math_exp data params = Return curves /\
     len (t_qDd curves) = len (materialBalanceTime data) /\
     (forall i, 0 <= i < len (materialBalanceTime data) ->
                (aget (t_teDimensionless curves) i <=? 0)%float = true ->
                aget (t_qDd curves) i = 0%float) /\
     (isFinite (drainageArea params) = true ->
      ((kh params <=? 0)%float = true /\ gt (drainageArea params) 0 = true) \/
      (gt (kh params) 0 = true /\ (drainageArea params <? 0)%float = true) ->
      forall i, 0 <= i < len (materialBalanceTime data) ->
                isFinite (aget (materialBalanceTime data) i) = true ->
                gt (aget (materialBalanceTime data) i) 0 = true ->
                (aget (t_teDimensionless curves) i <=? 0)%float = true /\
                aget (t_qDd curves) i = 0%float)).
Proof.
  split.
  - eexists. split; [reflexivity|]. cbn [pressureDrops].
    intros ps Hps Hlen. rewrite Hps. unfold calculatePressureDrops.
    rewrite len_datesToDays.
    destruct (Z.eqb_spec (len ps) (Z.of_nat (length (dates input)))) as [E|_].
    + unfold len in E. lia.
    + unfold new_Array_fill. now rewrite Nat2Z.id.
  - eexists. split; [reflexivity|]. cbn [t_qDd t_teDimensionless].
    assert (Hzero : forall i, 0 <= i < len (materialBalanceTime data) ->
              (aget (calculateDimensionalTime (materialBalanceTime data)
                       (kh params) (drainageArea params)) i <=? 0)%float = true ->
              aget (calculateTheoreticalNormalizedRate Math_exp
                      (calculateDimensionalTime (materialBalanceTime data)
                         (kh params) (drainageArea params))
                      (skinFactor params) (len (materialBalanceTime data))) i = 0%float).
    { intros i Hi Htd. unfold calculateTheoreticalNormalizedRate.
      rewrite aget_mapi
        by (unfold calculateDimensionalTime; rewrite len_map; exact Hi).
      now rewrite Htd. }
    split; [|split; [exact Hzero|]].
    + unfold calculateTheoreticalNormalizedRate, calculateDimensionalTime.
      now rewrite len_mapi, !len_map.
    + intros Hfa Hsigns i Hi Hft Hpt.
      assert (Htd : (aget (calculateDimensionalTime (materialBalanceTime data)
                             (kh params) (drainageArea params)) i <=? 0)%float = true).
      { unfold calculateDimensionalTime.
        rewrite (aget_map _ (materialBalanceTime data) nan) by (unfold len in Hi; lia).
        replace (nth (Z.to_nat i) (materialBalanceTime data) nan)
          with (aget (materialBalanceTime data) i).
        - now apply dimensional_time_not_positive.
        - unfold aget. destruct (i <? 0) eqn:E; [apply Z.ltb_lt in E; lia | reflexivity]. }
      split; [exact Htd | exact (Hzero i Hi Htd)].
Qed.

(** The mismatched series get the fallback 0.35 * 5000 = 1750 for each of
    the two dates; kh = -1 gives a dimensionless time <= 0 and a theoretical
    qDd of 0. *)
Lemma configuration_is_not_validated_witness :
  (exists out,
     calculate (fun x => x) mismatched = Return out /\
     pressureDrops out = [1750%float; 1750%float]) /\
  (exists curves,
     generateTheoreticalCurves (fun x => x) threePoints badParams = Return curves /\
     (aget (t_teDimensionless curves) 1 <=? 0)%float = true /\
     aget (t_qDd curves) 1 = 0%float).
Proof.
  destruct (configuration_is_not_validated (fun x => x) (fun x => x)
              mismatched threePoints badParams)
    as [(out & Hout & Hdrops) (curves & Hcurves & _ & _ & Hsign)].
  split.
  - exists out. split; [exact Hout|].
    apply (Hdrops [4500%float]); [reflexivity | discriminate].
  - exists curves. split; [exact Hcurves|].
    apply Hsign.
    + reflexivity.
    + left. split; reflexivity.
    + vm_compute. split; [discriminate | reflexivity].
    + reflexivity.
    + reflexivity.
Defined.

End DimensionlessTimeProps.
